(** * DevFlow: the question/tag server actions

    A shallow embedding of [src/lib/actions/question.action.ts] and
    [src/lib/actions/tag.action.ts].

    The actions are asynchronous programs that talk to a document store
    through a session.  They are embedded as computations in a small
    state-and-exception monad over a [World]: the committed collections,
    the transactional view of the session, the session's life cycle, the
    clock and id supply of the driver, a fault plan (which store call, if
    any, throws) and the trace of calls made.

    Strings are sequences of code units below 256, read as Latin-1; letter
    case is the one the language and the store's [i] option give these
    code units.  Numbers are integers, in the range where the language
    computes with them exactly.  Object ids are natural numbers drawn from
    a supply. *)

From Stdlib Require Import List String Ascii ZArith Lia Bool Arith PeanoNat.
Import ListNotations.
Open Scope string_scope.

(** ** Text: letter case as the engine sees it *)

Module Text.

(** The upper-case letters below 256: [A]-[Z] and the accented capitals
    192-222, the multiplication sign 215 apart. *)
Definition is_upper (c : ascii) : bool :=
  let n := nat_of_ascii c in
  ((65 <=? n)%nat && (n <=? 90)%nat)
  || ((192 <=? n)%nat && (n <=? 222)%nat && negb (n =? 215)%nat).

(** The lower-case letters whose capital is below 256: [a]-[z] and the
    accented small letters 224-254, the division sign 247 apart.  The
    capitals of 181, 223 and 255 are not single code units below 256, and
    these three are left alone by both directions. *)
Definition is_lower (c : ascii) : bool :=
  let n := nat_of_ascii c in
  ((97 <=? n)%nat && (n <=? 122)%nat)
  || ((224 <=? n)%nat && (n <=? 254)%nat && negb (n =? 247)%nat).

Definition lower_char (c : ascii) : ascii :=
  if is_upper c then ascii_of_nat (nat_of_ascii c + 32) else c.

Definition upper_char (c : ascii) : ascii :=
  if is_lower c then ascii_of_nat (nat_of_ascii c - 32) else c.

(** [String.prototype.toLowerCase]. *)
Fixpoint toLowerCase (s : string) : string :=
  match s with
  | EmptyString => EmptyString
  | String c r => String (lower_char c) (toLowerCase r)
  end.

(** Two code units are the same letter when they canonicalize (upper
    case, as the [i] flag does) to the same code unit. *)
Definition same_letter (a b : ascii) : bool :=
  Ascii.eqb (upper_char a) (upper_char b).

(** Equality of names ignoring letter case. *)
Fixpoint ci_eq (s t : string) : bool :=
  match s, t with
  | EmptyString, EmptyString => true
  | String a s', String b t' => same_letter a b && ci_eq s' t'
  | _, _ => false
  end.

End Text.

(** ** Regular expressions: the fragment the actions can be followed on

    [new RegExp(`^${tag}$`, "i")] splices the tag name into the pattern
    source unescaped, so the name is read as a pattern.  The embedding
    follows patterns made of ordinary characters, the wildcard [.], a
    leading [^] and a trailing [$].  Any other metacharacter puts the
    pattern outside the fragment ([None]). *)

Module Regex.

Inductive Atom : Type :=
| Lit (c : ascii)
| Dot.

Record RegExp : Type := mkRegExp {
  anchored_start : bool;
  anchored_end : bool;
  body : list Atom
}.

(** The syntax characters of a pattern. *)
Definition is_meta (c : ascii) : bool :=
  existsb (Ascii.eqb c)
    (list_ascii_of_string "\^$.*+?()[]{}|").

Definition is_line_terminator (c : ascii) : bool :=
  Ascii.eqb c (ascii_of_nat 10) || Ascii.eqb c (ascii_of_nat 13).

(** The pattern after an optional leading [^]: atoms, and whether it
    ends in the assertion [$]. *)
Fixpoint parse_body (p : string) : option (list Atom * bool) :=
  match p with
  | EmptyString => Some ([], false)
  | String c rest =>
      if Ascii.eqb c "$"%char then
        match rest with
        | EmptyString => Some ([], true)
        | _ => None
        end
      else if Ascii.eqb c "."%char then
        match parse_body rest with
        | Some (atoms, e) => Some (Dot :: atoms, e)
        | None => None
        end
      else if is_meta c then None
      else
        match parse_body rest with
        | Some (atoms, e) => Some (Lit c :: atoms, e)
        | None => None
        end
  end.

(** [new RegExp(source, "i")] on the fragment. *)
Definition new_RegExp (source : string) : option RegExp :=
  match source with
  | String "^"%char rest =>
      match parse_body rest with
      | Some (atoms, e) => Some (mkRegExp true e atoms)
      | None => None
      end
  | _ =>
      match parse_body source with
      | Some (atoms, e) => Some (mkRegExp false e atoms)
      | None => None
      end
  end.

Definition atom_matches (a : Atom) (c : ascii) : bool :=
  match a with
  | Lit l => Text.same_letter l c
  | Dot => negb (is_line_terminator c)
  end.

(** Consume the atoms at the head of [s]; the rest of [s] on success. *)
Fixpoint match_prefix (atoms : list Atom) (s : string) : option string :=
  match atoms, s with
  | [], _ => Some s
  | a :: atoms', String c s' =>
      if atom_matches a c then match_prefix atoms' s' else None
  | _ :: _, EmptyString => None
  end.

Definition match_at (r : RegExp) (s : string) : bool :=
  match match_prefix (body r) s with
  | Some rest =>
      if anchored_end r then
        match rest with EmptyString => true | _ => false end
      else true
  | None => false
  end.

Fixpoint search (r : RegExp) (s : string) : bool :=
  match_at r s ||
  match s with
  | EmptyString => false
  | String _ s' => search r s'
  end.

(** Does the pattern match somewhere in [s] (the [$regex] operator,
    [RegExp.prototype.test])? *)
Definition test (r : RegExp) (s : string) : bool :=
  if anchored_start r then match_at r s else search r s.

(** Names without syntax characters. *)
Definition plain (name : string) : bool :=
  forallb (fun c => negb (is_meta c)) (list_ascii_of_string name).

End Regex.

(** ** Documents and collections *)

Definition ObjectId := nat.
Definition UserId := string.

(** A document of the [Tag] collection. *)
Record TagDoc : Type := mkTag {
  tag_id : ObjectId;
  tag_name : string;
  tag_questions : Z;
  tag_createdAt : nat
}.

(** A document of the [Question] collection; [q_tags] holds tag ids. *)
Record QuestionDoc : Type := mkQuestion {
  q_id : ObjectId;
  q_title : string;
  q_content : string;
  q_author : UserId;
  q_tags : list ObjectId
}.

(** A document of the [TagQuestion] join collection. *)
Record TagQuestionDoc : Type := mkTagQuestion {
  tq_tag : ObjectId;
  tq_question : ObjectId
}.

(** The three collections, in insertion order. *)
Record Store : Type := mkStore {
  tags : list TagDoc;
  questions : list QuestionDoc;
  tagQuestions : list TagQuestionDoc
}.

Definition empty_store : Store := mkStore [] [] [].

Definition set_tags (ts : list TagDoc) (s : Store) : Store :=
  mkStore ts (questions s) (tagQuestions s).
Definition set_questions (qs : list QuestionDoc) (s : Store) : Store :=
  mkStore (tags s) qs (tagQuestions s).
Definition set_tagQuestions (js : list TagQuestionDoc) (s : Store) : Store :=
  mkStore (tags s) (questions s) js.

(** ** Collection primitives (pure) *)

Module Collection.

Definition inc_questions (delta : Z) (d : TagDoc) : TagDoc :=
  mkTag (tag_id d) (tag_name d) (tag_questions d + delta) (tag_createdAt d).

(** [findOneAndUpdate(filter, {$inc: {questions: 1}}, {new: true})] on
    the first document the filter matches. *)
Fixpoint inc_first (r : Regex.RegExp) (ts : list TagDoc)
  : option (TagDoc * list TagDoc) :=
  match ts with
  | [] => None
  | d :: rest =>
      if Regex.test r (tag_name d) then
        let d' := inc_questions 1 d in Some (d', d' :: rest)
      else
        match inc_first r rest with
        | Some (d', rest') => Some (d', d :: rest')
        | None => None
        end
  end.

(** [Tag.findOneAndUpdate({name: {$regex: r}},
      {$setOnInsert: {name: tag}, $inc: {questions: 1}},
      {upsert: true, new: true})].
    The boolean tells whether a document was inserted (and [fresh]
    consumed). *)
Definition upsert_tag (r : Regex.RegExp) (tag : string)
    (fresh : ObjectId) (now : nat) (s : Store) : TagDoc * Store * bool :=
  match inc_first r (tags s) with
  | Some (d, ts) => (d, set_tags ts s, false)
  | None =>
      let d := mkTag fresh tag 1 now in
      (d, set_tags (tags s ++ [d]) s, true)
  end.

Definition find_tag (id : ObjectId) (s : Store) : option TagDoc :=
  find (fun d => Nat.eqb (tag_id d) id) (tags s).

Definition find_question (id : ObjectId) (s : Store) : option QuestionDoc :=
  find (fun q => Nat.eqb (q_id q) id) (questions s).

(** [Question.findByIdAndUpdate(id, {$push: {tags: {$each: ids}}})]. *)
Definition push_tags (id : ObjectId) (ids : list ObjectId) (s : Store)
  : Store :=
  set_questions
    (map (fun q =>
            if Nat.eqb (q_id q) id
            then mkQuestion (q_id q) (q_title q) (q_content q) (q_author q)
                            (q_tags q ++ ids)
            else q)
         (questions s)) s.

(** What [document.save()] sends for the tag array: nothing when the
    array was not touched, [$push: {tags: {$each: ids}}] when ids were
    pushed onto it, [$set: {tags: ids}] when the path was assigned. *)
Inductive TagsUpdate : Type :=
| KeepTags
| PushTags (ids : list ObjectId)
| SetTags (ids : list ObjectId).

Definition apply_tags_update (u : TagsUpdate) (stored : list ObjectId)
  : list ObjectId :=
  match u with
  | KeepTags => stored
  | PushTags ids => stored ++ ids
  | SetTags ids => ids
  end.

(** [document.save()]: the title and content of the in-memory question
    replace those of the stored document with its id, and the update of
    the tag array is applied to the stored array. *)
Definition save_question (id : ObjectId) (title content : string)
    (u : TagsUpdate) (s : Store) : Store :=
  set_questions
    (map (fun q =>
            if Nat.eqb (q_id q) id
            then mkQuestion (q_id q) title content (q_author q)
                            (apply_tags_update u (q_tags q))
            else q)
         (questions s)) s.

(** [Tag.updateMany({_id: {$in: ids}}, {$inc: {questions: -1}})]. *)
Definition dec_tags (ids : list ObjectId) (s : Store) : Store :=
  set_tags
    (map (fun d =>
            if existsb (Nat.eqb (tag_id d)) ids
            then inc_questions (-1) d else d)
         (tags s)) s.

(** [TagQuestion.deleteMany({tag: {$in: ids}, question: qid})]. *)
Definition delete_joins (ids : list ObjectId) (qid : ObjectId) (s : Store)
  : Store :=
  set_tagQuestions
    (filter (fun j =>
               negb (existsb (Nat.eqb (tq_tag j)) ids
                     && Nat.eqb (tq_question j) qid))
            (tagQuestions s)) s.

(** [TagQuestion.insertMany(docs)].  The join collection carries no
    uniqueness constraint. *)
Definition insert_joins (docs : list TagQuestionDoc) (s : Store) : Store :=
  set_tagQuestions (tagQuestions s ++ docs) s.

(** [populate("tags")]: every id that resolves is replaced by its
    document. *)
Definition populate (ids : list ObjectId) (s : Store) : list TagDoc :=
  flat_map (fun id => match find_tag id s with
                      | Some d => [d]
                      | None => []
                      end) ids.

End Collection.


(** ** The world an action runs in *)

Inductive Error : Type :=
| JsError (message : string)      (* [new Error(message)] thrown by the action *)
| ValidationError                 (* the validator rejected the parameters *)
| UnauthorizedError               (* the validator found no caller identity *)
| StoreError                      (* a store call threw *)
| PatternOutsideFragment.         (* a pattern this embedding does not follow *)

Inductive Call : Type :=
| QuestionCreate
| QuestionFindById
| QuestionFindByIdAndUpdate
| QuestionSave
| TagFindOneAndUpdate
| TagUpdateMany
| TagCountDocuments
| TagFind
| TagQuestionInsertMany
| TagQuestionDeleteMany
| CommitTransaction.

Inductive Event : Type :=
| StartSession
| StartTransaction
| AbortTransaction
| EndSession
| StoreCall (c : Call).

Inductive TxnState : Type :=
| TxnNone
| TxnInProgress
| TxnCommitted
| TxnAborted.

Record World : Type := mkWorld {
  committed : Store;          (* what every other client observes *)
  working : Store;            (* the view of the session's transaction *)
  txn : TxnState;
  session_open : bool;
  nextId : ObjectId;          (* id supply *)
  now : nat;                  (* clock, for [createdAt] *)
  calls : nat;                (* store calls made so far *)
  fault_at : option nat;      (* the store call that throws, if any *)
  trace : list Event
}.

Definition initial_world (s : Store) (next : ObjectId) : World :=
  mkWorld s s TxnNone false next 0 0 None [].

Definition with_fault (k : nat) (w : World) : World :=
  mkWorld (committed w) (working w) (txn w) (session_open w) (nextId w)
          (now w) (calls w) (Some k) (trace w).

Definition log (e : Event) (w : World) : World :=
  mkWorld (committed w) (working w) (txn w) (session_open w) (nextId w)
          (now w) (calls w) (fault_at w) (trace w ++ [e]).

Definition set_working (s : Store) (w : World) : World :=
  mkWorld (committed w) s (txn w) (session_open w) (nextId w)
          (now w) (calls w) (fault_at w) (trace w).

Definition take_id (w : World) : World :=
  mkWorld (committed w) (working w) (txn w) (session_open w) (S (nextId w))
          (now w) (calls w) (fault_at w) (trace w).

Definition tick (w : World) : World :=
  mkWorld (committed w) (working w) (txn w) (session_open w) (nextId w)
          (now w) (S (calls w)) (fault_at w) (trace w).

Definition faulty (w : World) : bool :=
  match fault_at w with
  | Some k => Nat.eqb k (calls w)
  | None => false
  end.

(** ** The monad of actions: state and exceptions *)

Inductive Outcome (A : Type) : Type :=
| Ok (a : A)
| Throw (e : Error).
Arguments Ok {A} a.
Arguments Throw {A} e.

Definition M (A : Type) : Type := World -> Outcome A * World.

Definition ret {A} (a : A) : M A := fun w => (Ok a, w).

Definition throw {A} (e : Error) : M A := fun w => (Throw e, w).

Definition bind {A B} (m : M A) (k : A -> M B) : M B :=
  fun w =>
    match m w with
    | (Ok a, w') => k a w'
    | (Throw e, w') => (Throw e, w')
    end.

Notation "x <- m ;; k" := (bind m (fun x => k))
  (at level 61, m at next level, right associativity).
Notation "m ;;; k" := (bind m (fun _ => k))
  (at level 61, right associativity).

(** [try { body } catch (error) { handler } finally { fin }]. *)
Definition try_catch_finally {A} (body : M A) (handler : Error -> M A)
    (fin : M unit) : M A :=
  fun w =>
    let '(r, w1) :=
      match body w with
      | (Ok a, w') => (Ok a, w')
      | (Throw e, w') => handler e w'
      end in
    match fin w1 with
    | (Ok _, w2) => (r, w2)
    | (Throw e, w2) => (Throw e, w2)
    end.

(** [try { body } catch (error) { handler }]. *)
Definition try_catch {A} (body : M A) (handler : Error -> M A) : M A :=
  fun w =>
    match body w with
    | (Ok a, w') => (Ok a, w')
    | (Throw e, w') => handler e w'
    end.

(** ** The session

    The session is followed as the action drives it: a transaction is in
    progress from [startTransaction] until the action commits or aborts
    it, or ends the session: the driver's [endSession] aborts a
    transaction that is still in progress. *)

(** [mongoose.startSession()]. *)
Definition startSession : M unit :=
  fun w =>
    (Ok tt, mkWorld (committed w) (working w) TxnNone true (nextId w)
                    (now w) (calls w) (fault_at w) (trace w ++ [StartSession])).

(** [session.startTransaction()]: the view starts from committed data. *)
Definition startTransaction : M unit :=
  fun w =>
    (Ok tt, mkWorld (committed w) (committed w) TxnInProgress (session_open w)
                    (nextId w) (now w) (calls w) (fault_at w)
                    (trace w ++ [StartTransaction])).

(** [session.abortTransaction()]: the view is dropped. *)
Definition abortTransaction : M unit :=
  fun w =>
    (Ok tt, mkWorld (committed w) (committed w) TxnAborted (session_open w)
                    (nextId w) (now w) (calls w) (fault_at w)
                    (trace w ++ [AbortTransaction])).

(** [session.endSession()]: a transaction still in progress is aborted
    by the driver, and its view dropped; the session is closed. *)
Definition endSession : M unit :=
  fun w =>
    (Ok tt,
     mkWorld (committed w)
             (match txn w with
              | TxnInProgress => committed w
              | _ => working w
              end)
             (match txn w with
              | TxnInProgress => TxnAborted
              | t => t
              end)
             false (nextId w) (now w) (calls w) (fault_at w)
             (trace w ++ [EndSession])).

(** A call made without [await]: the caller goes on at once and never
    sees a failure of the call.  The world is followed to the point where
    the call has settled. *)
Definition not_awaited (m : M unit) : M unit :=
  fun w => (Ok tt, snd (m w)).

(** A call to the store: it is counted and traced; it throws when the
    fault plan says so, and otherwise runs [f]. *)
Definition store_call {A} (c : Call) (f : World -> A * World) : M A :=
  fun w =>
    let w1 := log (StoreCall c) (tick w) in
    if faulty w then (Throw StoreError, w1)
    else let '(a, w2) := f w1 in (Ok a, w2).

(** A call made with [{ session }]: it acts on the transaction's view. *)
Definition in_session {A} (c : Call) (f : Store -> A * Store) : M A :=
  store_call c (fun w => let '(a, s) := f (working w) in (a, set_working s w)).

(** A read made without a session: it sees committed data. *)
Definition read_committed {A} (c : Call) (f : Store -> A) : M A :=
  store_call c (fun w => (f (committed w), w)).

(** [session.commitTransaction()]: the view becomes the committed data,
    unless the call throws. *)
Definition commitTransaction : M unit :=
  store_call CommitTransaction
    (fun w => (tt, mkWorld (working w) (working w) TxnCommitted
                           (session_open w) (nextId w) (now w) (calls w)
                           (fault_at w) (trace w))).

(** ** Request and response shapes ([src/types/action.d.ts]) *)

Record CreateQuestionParams : Type := mkCreateQuestionParams {
  cq_title : string;
  cq_content : string;
  cq_tags : list string
}.

Record EditQuestionParams : Type := mkEditQuestionParams {
  eq_title : string;
  eq_content : string;
  eq_tags : list string;
  eq_questionId : ObjectId
}.

Record GetQuestionParams : Type := mkGetQuestionParams {
  gq_questionId : ObjectId
}.

Record PaginatedSearchParams : Type := mkPaginatedSearchParams {
  page : option Z;
  pageSize : option Z;
  query : option string;
  filter_key : option string
}.

Record ErrorResponse : Type := mkErrorResponse {
  error : Error
}.

Inductive ActionResponse (A : Type) : Type :=
| Success (data : A)
| Failure (e : ErrorResponse).
Arguments Success {A} data.
Arguments Failure {A} e.

(** Modelled from the spec: [handleError] of [lib/handlers/error], which
    is not among the sources.  It "converts any failure into a uniform
    result envelope": the envelope carries the failure. *)
Definition handleError (e : Error) : ErrorResponse := mkErrorResponse e.

Record Validated (P : Type) : Type := mkValidated {
  v_params : P;
  v_session : option UserId
}.
Arguments mkValidated {P} _ _.
Arguments v_params {P} _.
Arguments v_session {P} _.

(** Modelled from the spec: [action] of [lib/handlers/action], which is
    not among the sources.  It "checks shape/ranges of input parameters
    against a schema and optionally enforces an authenticated-session
    precondition, returning either validated parameters (plus caller
    identity) or a structured validation failure".  It returns its
    failure as a value and makes no call to the collections. *)
Definition action {P : Type} (params : P) (schema : P -> bool)
    (authorize : bool) (caller : option UserId) : Error + Validated P :=
  if negb (schema params) then inl ValidationError
  else if authorize then
    match caller with
    | Some u => inr (mkValidated params (Some u))
    | None => inl UnauthorizedError
    end
  else inr (mkValidated params None).

(** The spec's names for the failures the actions raise. *)
Definition CreationError : Error := JsError "Failed to create question.".
Definition NotFoundError : Error := JsError "Error not found".
Definition AuthorizationError : Error := JsError "Unauthorized".

(** ** The question held in memory by [editQuestion] and [getQuestion]

    After [populate("tags")] the tag array holds documents.  Pushing an
    id onto it depopulates the array: from then on every entry holds an
    id.  Each entry is an object of its own: the [handle] stands for its
    identity, and an id is never the same object as a document.

    The document remembers what was done to its tag array since it was
    loaded or saved: nothing, ids pushed, or the path assigned. *)

Inductive TagEntry : Type :=
| Populated (handle : nat) (d : TagDoc)
| Reference (handle : nat) (id : ObjectId).

Inductive TagsChange : Type :=
| TagsUnchanged
| TagsPushed (ids : list ObjectId)
| TagsAssigned.

Definition entry_handle (e : TagEntry) : nat :=
  match e with
  | Populated h _ => h
  | Reference h _ => h
  end.

Definition entry_id (e : TagEntry) : ObjectId :=
  match e with
  | Populated _ d => tag_id d
  | Reference _ id => id
  end.

Definition entry_name (e : TagEntry) : option string :=
  match e with
  | Populated _ d => Some (tag_name d)
  | Reference _ _ => None
  end.

Record LoadedQuestion : Type := mkLoaded {
  lq_id : ObjectId;
  lq_title : string;
  lq_content : string;
  lq_author : UserId;
  lq_tags : list TagEntry;
  lq_tags_change : TagsChange
}.

Definition load (q : QuestionDoc) (docs : list TagDoc) : LoadedQuestion :=
  mkLoaded (q_id q) (q_title q) (q_content q) (q_author q)
    (map (fun hd => Populated (fst hd) (snd hd))
         (combine (seq 0 (List.length docs)) docs))
    TagsUnchanged.

(** [entry == s] for a string [s], as [Array.prototype.includes] of the
    tag array compares.  Every entry is a document object; set against a
    string it is converted to the printed form of all its fields, which no
    lower-cased tag name equals. *)
Definition entry_eq_string (e : TagEntry) (s : string) : bool := false.

(** [question.tags.includes(s)] for a string [s]. *)
Definition tags_include_string (entries : list TagEntry) (s : string)
  : bool :=
  existsb (fun e => entry_eq_string e s) entries.

(** [names.includes(s)] on an array of strings. *)
Definition includes (names : list string) (s : string) : bool :=
  existsb (String.eqb s) names.

(** Two entries are the same object. *)
Definition same_entry (a b : TagEntry) : bool :=
  match a, b with
  | Populated h _, Populated k _ => Nat.eqb h k
  | Reference h _, Reference k _ => Nat.eqb h k
  | _, _ => false
  end.

(** [entries.includes(e)] on an array of objects: identity. *)
Definition includes_entry (entries : list TagEntry) (e : TagEntry) : bool :=
  existsb (fun r => same_entry r e) entries.

(** ** Store calls of the actions *)

(** [Question.create([{ title, content, author }], { session })].  The
    created document carries the schema's empty tag array; an absent
    author fails the document's own validation. *)
Definition Question_create (title content : string) (author : option UserId)
  : M (list QuestionDoc) :=
  match author with
  | None => throw (JsError "Question validation failed")
  | Some a =>
      store_call QuestionCreate
        (fun w =>
           let q := mkQuestion (nextId w) title content a [] in
           ([q],
            take_id
              (set_working
                 (set_questions (questions (working w) ++ [q]) (working w))
                 w)))
  end.

(** [Tag.findOneAndUpdate({ name: { $regex: new RegExp(`^${tag}$`, "i") } },
      { $setOnInsert: { name: tag }, $inc: { questions: 1 } },
      { upsert: true, new: true, session })].
    A name whose pattern is outside the fragment stops the embedding with
    [PatternOutsideFragment]: nothing is claimed of what the action does
    with such a name. *)
Definition Tag_findOneAndUpdate (tag : string) : M TagDoc :=
  match Regex.new_RegExp ("^" ++ tag ++ "$") with
  | None => throw PatternOutsideFragment
  | Some r =>
      store_call TagFindOneAndUpdate
        (fun w =>
           let '(d, s, inserted) :=
             Collection.upsert_tag r tag (nextId w) (now w) (working w) in
           (d, if inserted then take_id (set_working s w)
               else set_working s w))
  end.

Definition TagQuestion_insertMany (docs : list TagQuestionDoc) : M unit :=
  in_session TagQuestionInsertMany
    (fun s => (tt, Collection.insert_joins docs s)).

Definition Question_findByIdAndUpdate_push (id : ObjectId)
    (tagIds : list ObjectId) : M unit :=
  in_session QuestionFindByIdAndUpdate
    (fun s => (tt, Collection.push_tags id tagIds s)).

(** [Question.findById(id).populate("tags")], made without the session. *)
Definition Question_findById_populate (id : ObjectId)
  : M (option LoadedQuestion) :=
  read_committed QuestionFindById
    (fun s =>
       match Collection.find_question id s with
       | Some q => Some (load q (Collection.populate (q_tags q) s))
       | None => None
       end).

(** The update of the tag array that [save] sends. *)
Definition tags_update (question : LoadedQuestion) : Collection.TagsUpdate :=
  match lq_tags_change question with
  | TagsUnchanged => Collection.KeepTags
  | TagsPushed ids => Collection.PushTags ids
  | TagsAssigned => Collection.SetTags (map entry_id (lq_tags question))
  end.

(** [question.save({ session })]: the modified paths are written. *)
Definition Question_save (question : LoadedQuestion) : M unit :=
  in_session QuestionSave
    (fun s =>
       (tt,
        Collection.save_question (lq_id question) (lq_title question)
          (lq_content question) (tags_update question) s)).

(** The document after a [save]: its changes are forgotten. *)
Definition saved (question : LoadedQuestion) : LoadedQuestion :=
  mkLoaded (lq_id question) (lq_title question) (lq_content question)
           (lq_author question) (lq_tags question) TagsUnchanged.

Definition Tag_updateMany_dec (ids : list ObjectId) : M unit :=
  in_session TagUpdateMany (fun s => (tt, Collection.dec_tags ids s)).

Definition TagQuestion_deleteMany (ids : list ObjectId) (qid : ObjectId)
  : M unit :=
  in_session TagQuestionDeleteMany
    (fun s => (tt, Collection.delete_joins ids qid s)).

(** ** Reading the tag collection ([src/lib/actions/tag.action.ts]) *)

Inductive FilterQuery : Type :=
| MatchAll
| NameRegex (source : string).     (* [{ name: { $regex, $options: "i" } }] *)

Definition filter_predicate (fq : FilterQuery) : option (TagDoc -> bool) :=
  match fq with
  | MatchAll => Some (fun _ => true)
  | NameRegex source =>
      match Regex.new_RegExp source with
      | Some r => Some (fun d => Regex.test r (tag_name d))
      | None => None
      end
  end.

Fixpoint insert_by {A} (le : A -> A -> bool) (x : A) (l : list A) : list A :=
  match l with
  | [] => [x]
  | y :: l' => if le x y then x :: y :: l' else y :: insert_by le x l'
  end.

Fixpoint sort_by {A} (le : A -> A -> bool) (l : list A) : list A :=
  match l with
  | [] => []
  | x :: l' => insert_by le x (sort_by le l')
  end.

(** The [switch (filter)] of [getTags]: the order as a comparison. *)
Definition sortCriteria (filter : option string) : TagDoc -> TagDoc -> bool :=
  let questions_descending :=
    fun a b => (tag_questions b <=? tag_questions a)%Z in
  match filter with
  | Some f =>
      if String.eqb f "popular" then questions_descending
      else if String.eqb f "recent" then
        fun a b => (tag_createdAt b <=? tag_createdAt a)%nat
      else if String.eqb f "oldest" then
        fun a b => (tag_createdAt a <=? tag_createdAt b)%nat
      else if String.eqb f "name" then
        fun a b => String.leb (tag_name a) (tag_name b)
      else questions_descending
  | None => questions_descending
  end.

(** [.limit(n)]: zero lifts the limit, a negative limit counts as its
    absolute value. *)
Definition apply_limit {A} (limit : Z) (l : list A) : list A :=
  if (limit =? 0)%Z then l else firstn (Z.to_nat (Z.abs limit)) l.

Definition Tag_countDocuments (fq : FilterQuery) : M Z :=
  match filter_predicate fq with
  | None => throw PatternOutsideFragment
  | Some f =>
      read_committed TagCountDocuments
        (fun s => Z.of_nat (List.length (List.filter f (tags s))))
  end.

(** [Tag.find(fq).sort(le).skip(skip).limit(limit)]; the store refuses a
    negative skip. *)
Definition Tag_find (fq : FilterQuery) (le : TagDoc -> TagDoc -> bool)
    (skip limit : Z) : M (list TagDoc) :=
  match filter_predicate fq with
  | None => throw PatternOutsideFragment
  | Some f =>
      if (skip <? 0)%Z then throw StoreError
      else
        read_committed TagFind
          (fun s =>
             apply_limit limit
               (skipn (Z.to_nat skip) (sort_by le (List.filter f (tags s)))))
  end.

(** [const { page = 1, pageSize = 10, query, filter } = params]. *)
Definition page_of (params : PaginatedSearchParams) : Z :=
  match page params with Some p => p | None => 1%Z end.

Definition pageSize_of (params : PaginatedSearchParams) : Z :=
  match pageSize params with Some s => s | None => 10%Z end.

(** [if (query) { filterQuery.$or = [{ name: { $regex: query, ... } }] }]:
    an absent or empty query leaves the filter empty. *)
Definition filterQuery_of (params : PaginatedSearchParams) : FilterQuery :=
  match query params with
  | Some q => if String.eqb q "" then MatchAll else NameRegex q
  | None => MatchAll
  end.

Record TagsPage : Type := mkTagsPage {
  page_tags : list TagDoc;
  isNext : bool
}.

(** ** The actions *)

Section Actions.

(** The schemas of [lib/validations] are not among the sources: each is
    taken as the predicate it decides. *)
Variable AskQuestionSchema : CreateQuestionParams -> bool.
Variable EditQuestionSchema : EditQuestionParams -> bool.
Variable GetQuestionSchema : GetQuestionParams -> bool.
Variable PaginatedSearchParamsSchema : PaginatedSearchParams -> bool.

(** The [for (const tag of tags)] loop of [createQuestion]. *)
Fixpoint resolve_tags (tags : list string) (question_id : ObjectId)
    (tagIds : list ObjectId) (tagQuestionDocuments : list TagQuestionDoc)
  : M (list ObjectId * list TagQuestionDoc) :=
  match tags with
  | [] => ret (tagIds, tagQuestionDocuments)
  | tag :: rest =>
      existingTag <- Tag_findOneAndUpdate tag ;;
      resolve_tags rest question_id
        (tagIds ++ [tag_id existingTag])
        (tagQuestionDocuments
           ++ [mkTagQuestion (tag_id existingTag) question_id])
  end.

(** The [try] block of [createQuestion]. *)
Definition createQuestion_body (title content : string)
    (tags : list string) (userId : option UserId)
  : M (ActionResponse QuestionDoc) :=
  created <- Question_create title content userId ;;
  match created with
  | [] => throw (JsError "Failed to create question.")
  | question :: _ =>
      resolved <- resolve_tags tags (q_id question) [] [] ;;
      let '(tagIds, tagQuestionDocuments) := resolved in
      TagQuestion_insertMany tagQuestionDocuments ;;;
      Question_findByIdAndUpdate_push (q_id question) tagIds ;;;
      commitTransaction ;;;
      ret (Success question)
  end.

Definition createQuestion (caller : option UserId)
    (params : CreateQuestionParams) : M (ActionResponse QuestionDoc) :=
  match action params AskQuestionSchema true caller with
  | inl validationResult => ret (Failure (handleError validationResult))
  | inr validationResult =>
      let title := cq_title (v_params validationResult) in
      let content := cq_content (v_params validationResult) in
      let tags := cq_tags (v_params validationResult) in
      let userId := v_session validationResult in
      startSession ;;;
      startTransaction ;;;
      try_catch_finally
        (createQuestion_body title content tags userId)
        (fun error =>
           (* await session.abortTransaction(); is commented out *)
           ret (Failure (handleError error)))
        (not_awaited endSession)
  end.

(** [if (question.title !== title || question.content !== content)]. *)
Definition update_title_content (title content : string)
    (question : LoadedQuestion) : M LoadedQuestion :=
  if negb (String.eqb (lq_title question) title)
     || negb (String.eqb (lq_content question) content)
  then
    let question' :=
      mkLoaded (lq_id question) title content (lq_author question)
               (lq_tags question) (lq_tags_change question) in
    Question_save question' ;;;
    ret (saved question')
  else ret question.

(** [tags.filter((tag) => !question.tags.includes(tag.toLowerCase()))]. *)
Definition tagsToAdd (tags : list string) (question : LoadedQuestion)
  : list string :=
  List.filter
    (fun tag =>
       negb (tags_include_string (lq_tags question) (Text.toLowerCase tag)))
    tags.

(** [question.tags.filter((tag) => !tags.includes(tag.name.toLowerCase()))];
    every entry is a populated document when this runs, before the first
    push. *)
Definition tagsToRemove (tags : list string) (question : LoadedQuestion)
  : list TagEntry :=
  List.filter
    (fun tag =>
       match entry_name tag with
       | Some name => negb (includes tags (Text.toLowerCase name))
       | None => false
       end)
    (lq_tags question).

(** The id a populated entry falls back to when its array is
    depopulated: a new object. *)
Definition depopulate (e : TagEntry) : TagEntry :=
  match e with
  | Populated h d => Reference h (tag_id d)
  | Reference h id => Reference h id
  end.

(** [question.tags.push(id)]: the array is depopulated, the id appended,
    and the push remembered for [save]. *)
Definition push_tag (id : ObjectId) (question : LoadedQuestion)
  : LoadedQuestion :=
  mkLoaded (lq_id question) (lq_title question) (lq_content question)
           (lq_author question)
           (map depopulate (lq_tags question)
              ++ [Reference (List.length (lq_tags question)) id])
           (match lq_tags_change question with
            | TagsUnchanged => TagsPushed [id]
            | TagsPushed ids => TagsPushed (ids ++ [id])
            | TagsAssigned => TagsAssigned
            end).

(** The [for (const tag of tagsToAdd)] loop of [editQuestion]; the store
    always hands back a document, so the guard on it holds. *)
Fixpoint add_tags (toAdd : list string) (questionId : ObjectId)
    (newTagDocuments : list TagQuestionDoc) (question : LoadedQuestion)
  : M (list TagQuestionDoc * LoadedQuestion) :=
  match toAdd with
  | [] => ret (newTagDocuments, question)
  | tag :: rest =>
      existingTag <- Tag_findOneAndUpdate tag ;;
      add_tags rest questionId
        (newTagDocuments ++ [mkTagQuestion (tag_id existingTag) questionId])
        (push_tag (tag_id existingTag) question)
  end.

(** [if (tagsToRemove.length > 0) { ... }].  The entries to remove are
    the documents found before the loop; they are looked for, by identity,
    in the array as it is now, and the filtered array is assigned. *)
Definition remove_tags (toRemove : list TagEntry) (questionId : ObjectId)
    (question : LoadedQuestion) : M LoadedQuestion :=
  if (0 <? List.length toRemove)%nat then
    let tagIdsToRemove := map entry_id toRemove in
    Tag_updateMany_dec tagIdsToRemove ;;;
    TagQuestion_deleteMany tagIdsToRemove questionId ;;;
    ret (mkLoaded (lq_id question) (lq_title question) (lq_content question)
           (lq_author question)
           (List.filter (fun tagId => negb (includes_entry toRemove tagId))
                        (lq_tags question))
           TagsAssigned)
  else ret question.

Definition is_author (question : LoadedQuestion) (userId : option UserId)
  : bool :=
  match userId with
  | Some u => String.eqb (lq_author question) u
  | None => false
  end.

(** The [try] block of [editQuestion]. *)
Definition editQuestion_body (title content : string) (tags : list string)
    (questionId : ObjectId) (userId : option UserId)
  : M (ActionResponse LoadedQuestion) :=
  found <- Question_findById_populate questionId ;;
  match found with
  | None => throw (JsError "Error not found")
  | Some question =>
      if negb (is_author question userId)
      then throw (JsError "Unauthorized")
      else
        question <- update_title_content title content question ;;
        let toAdd := tagsToAdd tags question in
        let toRemove := tagsToRemove tags question in
        added <-
          (if (0 <? List.length toAdd)%nat
           then add_tags toAdd questionId [] question
           else ret ([], question)) ;;
        let '(newTagDocuments, question) := added in
        question <- remove_tags toRemove questionId question ;;
        (if (0 <? List.length newTagDocuments)%nat
         then TagQuestion_insertMany newTagDocuments
         else ret tt) ;;;
        Question_save question ;;;
        commitTransaction ;;;
        ret (Success question)
  end.

Definition editQuestion (caller : option UserId)
    (params : EditQuestionParams) : M (ActionResponse LoadedQuestion) :=
  match action params EditQuestionSchema true caller with
  | inl validationResult => ret (Failure (handleError validationResult))
  | inr validationResult =>
      let title := eq_title (v_params validationResult) in
      let content := eq_content (v_params validationResult) in
      let tags := eq_tags (v_params validationResult) in
      let questionId := eq_questionId (v_params validationResult) in
      let userId := v_session validationResult in
      startSession ;;;
      startTransaction ;;;
      try_catch_finally
        (editQuestion_body title content tags questionId userId)
        (fun error =>
           abortTransaction ;;;
           ret (Failure (handleError error)))
        endSession
  end.

Definition getQuestion (caller : option UserId) (params : GetQuestionParams)
  : M (ActionResponse LoadedQuestion) :=
  match action params GetQuestionSchema true caller with
  | inl validationResult => ret (Failure (handleError validationResult))
  | inr validationResult =>
      let questionId := gq_questionId (v_params validationResult) in
      try_catch
        (found <- Question_findById_populate questionId ;;
         match found with
         | None => throw (JsError "Question not Found.")
         | Some question => ret (Success question)
         end)
        (fun error => ret (Failure (handleError error)))
  end.

Definition getTags (caller : option UserId) (params : PaginatedSearchParams)
  : M (ActionResponse TagsPage) :=
  match action params PaginatedSearchParamsSchema false caller with
  | inl validationResult => ret (Failure (handleError validationResult))
  | inr _ =>
      let page := page_of params in
      let pageSize := pageSize_of params in
      let skip := ((page - 1) * pageSize)%Z in
      let limit := pageSize in
      let filterQuery := filterQuery_of params in
      let criteria := sortCriteria (filter_key params) in
      try_catch
        (totalTags <- Tag_countDocuments filterQuery ;;
         tags <- Tag_find filterQuery criteria skip limit ;;
         let isNext :=
           (skip + Z.of_nat (List.length tags) <? totalTags)%Z in
         ret (Success (mkTagsPage tags isNext)))
        (fun error => ret (Failure (handleError error)))
  end.

End Actions.

(** * Vocabulary of the properties *)

(** The atoms of a name read literally. *)
Definition literal (name : string) : list Regex.Atom :=
  map Regex.Lit (list_ascii_of_string name).

(** ** The data invariants of the tag engine *)

(** Join records that reference tag [t]. *)
Definition join_count (t : ObjectId) (js : list TagQuestionDoc) : nat :=
  List.length (List.filter (fun j => Nat.eqb (tq_tag j) t) js).

(** At most one join record per (tag, question) pair. *)
Definition one_join_per_pair (s : Store) : Prop :=
  NoDup (tagQuestions s).

(** Every tag's counter is non-negative and is the number of join records
    that reference the tag. *)
Definition counters_agree (s : Store) : Prop :=
  forall d, In d (tags s) ->
    (0 <= tag_questions d)%Z /\
    tag_questions d = Z.of_nat (join_count (tag_id d) (tagQuestions s)).

Definition consistent (s : Store) : Prop :=
  one_join_per_pair s /\ counters_agree s.

(** Ids are handed out once: tags have ids of their own, and every id in
    the store is below the id supply. *)
Definition unique_tag_ids (s : Store) : Prop :=
  NoDup (map tag_id (tags s)).

Definition ids_below (n : ObjectId) (s : Store) : Prop :=
  (forall d, In d (tags s) -> tag_id d < n) /\
  (forall j, In j (tagQuestions s) -> tq_tag j < n /\ tq_question j < n).

Definition sound (w : World) : Prop :=
  consistent (committed w) /\
  unique_tag_ids (committed w) /\
  ids_below (nextId w) (committed w).

(** No two of the names are equal ignoring case. *)
Fixpoint distinct_names (names : list string) : bool :=
  match names with
  | [] => true
  | n :: rest => negb (existsb (Text.ci_eq n) rest) && distinct_names rest
  end.

Definition plain_names (names : list string) : bool :=
  forallb Regex.plain names.

(** ** Specifications of computations *)

(** From a world that satisfies [P], the computation ends in a world that
    satisfies [Q] at its result, or throws into a world that satisfies
    [E]. *)
Definition triple {A} (P : World -> Prop) (m : M A)
    (Q : A -> World -> Prop) (E : World -> Prop) : Prop :=
  forall w, P w ->
    match m w with
    | (Ok a, w') => Q a w'
    | (Throw _, w') => E w'
    end.

(** The state of [createQuestion]'s loop over the tag names: [c0] is the
    committed store, [qid] the id of the question being created, [done]
    the names resolved so far. *)
Definition resolving (c0 : Store) (qid : ObjectId) (done : list string)
    (tagIds : list ObjectId) (tagQuestionDocuments : list TagQuestionDoc)
    (w : World) : Prop :=
  committed w = c0 /\
  tagQuestions (working w) = tagQuestions c0 /\
  NoDup (map tag_id (tags (working w))) /\
  (forall d, In d (tags (working w)) -> tag_id d < nextId w) /\
  qid < nextId w /\
  (forall j, In j (tagQuestions c0) ->
     tq_tag j < nextId w /\ tq_question j < qid) /\
  (forall d, In d (tags (working w)) ->
     tag_questions d =
       (Z.of_nat (join_count (tag_id d) (tagQuestions c0))
        + Z.of_nat (count_occ Nat.eq_dec tagIds (tag_id d)))%Z) /\
  tagQuestionDocuments = map (fun t => mkTagQuestion t qid) tagIds /\
  NoDup tagIds /\
  (forall t, In t tagIds ->
     exists d, In d (tags (working w)) /\ tag_id d = t /\
               existsb (fun m => Text.ci_eq m (tag_name d)) done = true).

(** The view of the transaction of [createQuestion] once the join records
    are inserted: nothing is committed yet, and the view is consistent. *)
Definition ready (c0 : Store) (qid : ObjectId) (w : World) : Prop :=
  committed w = c0 /\
  qid < nextId w /\
  consistent (working w) /\
  unique_tag_ids (working w) /\
  ids_below (nextId w) (working w).

(** A property of the world that a computation keeps, however it ends. *)
Definition keeps {A} (I : World -> Prop) (m : M A) : Prop :=
  triple I m (fun _ => I) I.

(** Who wrote which question. *)
Definition authors (s : Store) : list (ObjectId * UserId) :=
  map (fun q => (q_id q, q_author q)) (questions s).

(** Neither the committed store nor the view of the transaction departs
    from the authorship [a]. *)
Definition authors_fixed (a : list (ObjectId * UserId)) (w : World) : Prop :=
  authors (working w) = a /\ authors (committed w) = a.

(** The transaction is in progress and nothing of it is committed. *)
Definition uncommitted (c0 : Store) (w : World) : Prop :=
  committed w = c0 /\ txn w = TxnInProgress /\ session_open w = true.

(** The [save] calls on a question document among the events of a
    trace. *)
Definition is_save (e : Event) : bool :=
  match e with
  | StoreCall QuestionSave => true
  | _ => false
  end.

Definition saves (t : list Event) : nat :=
  List.length (List.filter is_save t).

(** The question document was saved [k] times so far. *)
Definition saved_times (k : nat) (w : World) : Prop :=
  saves (trace w) = k.

(** ** Worlds and requests used as examples *)

(** A schema that accepts the request at hand. *)
Definition accept_all {P : Type} (params : P) : bool := true.

(** An empty store; ids are handed out from 1. *)
Definition fresh_world : World := initial_world empty_store 1.

(** One question (id 2) of user [u1], tagged [python] (id 1). *)
Definition python_store : Store :=
  mkStore [mkTag 1 "python" 1 0]
          [mkQuestion 2 "Sorting a list" "How do I sort a list?" "u1" [1]]
          [mkTagQuestion 1 2].

Definition python_world : World := initial_world python_store 3.

(** One question (id 2) of user [u1], tagged [node-js] (id 1). *)
Definition node_store : Store :=
  mkStore [mkTag 1 "node-js" 1 0]
          [mkQuestion 2 "Streams" "How do I pipe a stream?" "u1" [1]]
          [mkTagQuestion 1 2].

Definition node_world : World := initial_world node_store 3.

(** Fifteen tags, named [a] to [o]. *)
Definition fifteen_tags : list TagDoc :=
  map (fun i => mkTag i (String (ascii_of_nat (96 + i)) EmptyString) 0 i)
      (seq 1 15).

Definition fifteen_world : World :=
  initial_world (mkStore fifteen_tags [] []) 16.

Definition three_names : CreateQuestionParams :=
  mkCreateQuestionParams "Generators" "What does yield do?"
                         ["Python"; "python"; "AI"].

(** ** The scenario of the three names, as the specification words it *)

(** The counter of the tag that carries [name] in some casing; zero when
    there is none. *)
Definition counter_of (name : string) (s : Store) : Z :=
  match find (fun d => Text.ci_eq name (tag_name d)) (tags s) with
  | Some d => tag_questions d
  | None => 0%Z
  end.

(** "Exactly two tag entities (Python, with the casing of the first
    occurrence, and AI), each tag counter incremented by 1." *)
Definition two_tags_each_counted_once (before after : Store) : Prop :=
  map tag_name (skipn (List.length (tags before)) (tags after))
    = ["Python"; "AI"] /\
  counter_of "Python" after = (counter_of "Python" before + 1)%Z /\
  counter_of "AI" after = (counter_of "AI" before + 1)%Z.

(** * The questions of a tag ([getTagQuestions], [src/lib/actions/tag.action.ts]) *)

(** A document of the [User] collection, which no action of these files
    writes. *)
Record UserDoc : Type := mkUser {
  user_id : UserId;
  user_name : string;
  user_image : string
}.

Record GetTagQuestionsParams : Type := mkGetTagQuestionsParams {
  tagq_tagId : ObjectId;
  tagq_page : option Z;
  tagq_pageSize : option Z;
  tagq_query : option string
}.

(** [{ path: "author", select: "name image" }]. *)
Record AuthorView : Type := mkAuthorView {
  av_id : UserId;
  av_name : string;
  av_image : string
}.

(** [{ path: "tags", select: "name" }]. *)
Record TagView : Type := mkTagView {
  tv_id : ObjectId;
  tv_name : string
}.

(** A question as [getTagQuestions] projects it.  The counters and the
    creation time of a question, which no action of these files reads or
    writes, are not part of the embedding. *)
Record QuestionView : Type := mkQuestionView {
  qv_id : ObjectId;
  qv_title : string;
  qv_author : option AuthorView;
  qv_tags : list TagView
}.

Record TagQuestionsPage : Type := mkTagQuestionsPage {
  tqp_tag : TagDoc;
  tqp_questions : list QuestionView;
  tqp_isNext : bool
}.

(** A read, made without a session, of a collection call the trace has no
    name for: it is counted and faults like every store call. *)
Definition read_unnamed {A} (f : Store -> A) : M A :=
  fun w =>
    if faulty w then (Throw StoreError, tick w)
    else (Ok (f (committed w)), tick w).

(** [Tag.findById(tagId)]. *)
Definition Tag_findById (tagId : ObjectId) : M (option TagDoc) :=
  read_unnamed (Collection.find_tag tagId).

(** [{ tags: { $in: [tagId] } }]. *)
Definition has_tag (tagId : ObjectId) (q : QuestionDoc) : bool :=
  existsb (Nat.eqb tagId) (q_tags q).

(** The filter of [getTagQuestions]: the tag, and the title pattern when a
    query is given ([if (query)]). *)
Definition question_predicate (tagId : ObjectId) (query : option string)
  : option (QuestionDoc -> bool) :=
  match query with
  | Some q =>
      if String.eqb q "" then Some (has_tag tagId)
      else
        match Regex.new_RegExp q with
        | Some r =>
            Some (fun d => has_tag tagId d && Regex.test r (q_title d))
        | None => None
        end
  | None => Some (has_tag tagId)
  end.

Definition Question_countDocuments (tagId : ObjectId) (query : option string)
  : M Z :=
  match question_predicate tagId query with
  | None => throw PatternOutsideFragment
  | Some f =>
      read_unnamed
        (fun s => Z.of_nat (List.length (List.filter f (questions s))))
  end.

Definition page_size_of (params : GetTagQuestionsParams) : Z :=
  match tagq_pageSize params with Some s => s | None => 10%Z end.

Definition page_number_of (params : GetTagQuestionsParams) : Z :=
  match tagq_page params with Some p => p | None => 1%Z end.

Section TagQuestions.

Variable users : list UserDoc.
Variable GetTagQuestionsSchema : GetTagQuestionsParams -> bool.

Definition populate_author (author : UserId) : option AuthorView :=
  match find (fun u => String.eqb (user_id u) author) users with
  | Some u => Some (mkAuthorView (user_id u) (user_name u) (user_image u))
  | None => None
  end.

(** [.select(...)] and [.populate([author, tags])] on one question. *)
Definition view_question (s : Store) (q : QuestionDoc) : QuestionView :=
  mkQuestionView (q_id q) (q_title q) (populate_author (q_author q))
    (map (fun d => mkTagView (tag_id d) (tag_name d))
         (Collection.populate (q_tags q) s)).

(** [Question.find(filterQuery).select(...).populate(...).skip(skip)
      .limit(limit)]; the store refuses a negative skip. *)
Definition Question_find (tagId : ObjectId) (query : option string)
    (skip limit : Z) : M (list QuestionView) :=
  match question_predicate tagId query with
  | None => throw PatternOutsideFragment
  | Some f =>
      if (skip <? 0)%Z then throw StoreError
      else
        read_unnamed
          (fun s =>
             map (view_question s)
                 (apply_limit limit
                    (skipn (Z.to_nat skip) (List.filter f (questions s)))))
  end.

Definition getTagQuestions (caller : option UserId)
    (params : GetTagQuestionsParams) : M (ActionResponse TagQuestionsPage) :=
  match action params GetTagQuestionsSchema false caller with
  | inl validationResult => ret (Failure (handleError validationResult))
  | inr _ =>
      let tagId := tagq_tagId params in
      let page := page_number_of params in
      let pageSize := page_size_of params in
      let query := tagq_query params in
      let skip := ((page - 1) * pageSize)%Z in
      let limit := pageSize in
      try_catch
        (tag <- Tag_findById tagId ;;
         match tag with
         | None => throw (JsError "Tag not found")
         | Some tag =>
             totalQuestions <- Question_countDocuments tagId query ;;
             questions <- Question_find tagId query skip limit ;;
             let isNext :=
               (skip + Z.of_nat (List.length questions) <? totalQuestions)%Z
             in
             ret (Success (mkTagQuestionsPage tag questions isNext))
         end)
        (fun error => ret (Failure (handleError error)))
  end.

End TagQuestions.

(** * More vocabulary *)

(** The identity of the tags: which id carries which name. *)
Definition tag_names (s : Store) : list (ObjectId * string) :=
  map (fun d => (tag_id d, tag_name d)) (tags s).

(** [l] starts with [base]. *)
Definition extends {A} (base l : list A) : Prop :=
  exists more, l = (base ++ more)%list.

(** Neither the committed tags nor the tags in the view of the transaction
    lose or rename a tag of [base]. *)
Definition tags_kept (base : list (ObjectId * string)) (w : World) : Prop :=
  extends base (tag_names (working w)) /\
  extends base (tag_names (committed w)).

(** The stores and the session are as in [w0]. *)
Definition same_data (w0 w : World) : Prop :=
  committed w = committed w0 /\ working w = working w0 /\
  txn w = txn w0 /\ session_open w = session_open w0 /\
  nextId w = nextId w0.

(** Users known to the examples. *)
Definition some_users : list UserDoc :=
  [mkUser "u1" "Ada" "ada.png"].

(** Every element is in order with its successor. *)
Fixpoint ordered {A} (le : A -> A -> bool) (l : list A) : bool :=
  match l with
  | x :: (y :: _) as rest => le x y && ordered le rest
  | _ => true
  end.

(** The request for the page after the one [params] asks for. *)
Definition next_page (params : PaginatedSearchParams)
  : PaginatedSearchParams :=
  mkPaginatedSearchParams (Some (page_of params + 1)%Z) (pageSize params)
                          (query params) (filter_key params).

Definition is_empty {A} (l : list A) : bool :=
  match l with
  | [] => true
  | _ :: _ => false
  end.

(** Two questions of user [u1]: question 2 tagged [python] (id 1), and
    question 4 tagged [python] and [go] (id 3). *)
Definition two_questions_store : Store :=
  mkStore [mkTag 1 "python" 2 0; mkTag 3 "go" 1 1]
          [mkQuestion 2 "Sorting a list" "How do I sort a list?" "u1" [1];
           mkQuestion 4 "Calling Go" "How do I call Go from Python?" "u1"
                      [1; 3]]
          [mkTagQuestion 1 2; mkTagQuestion 1 4; mkTagQuestion 3 4].

Definition two_questions_world : World :=
  initial_world two_questions_store 5.

(** The transaction went through: its view is what is committed. *)
Definition settled (w : World) : Prop :=
  txn w = TxnCommitted /\ committed w = working w /\ session_open w = true.

(** The state of [createQuestion] while it resolves the names: the view
    of the transaction holds the new question [q0] and no new join record
    yet; [tagIds] are ids of tags of the view. *)
Definition creating (c0 : Store) (q0 : QuestionDoc) (tagIds : list ObjectId)
    (tagQuestionDocuments : list TagQuestionDoc) (w : World) : Prop :=
  questions (working w) = (questions c0 ++ [q0])%list /\
  tagQuestions (working w) = tagQuestions c0 /\
  tagQuestionDocuments = map (fun t => mkTagQuestion t (q_id q0)) tagIds /\
  (forall t, In t tagIds -> exists d, In d (tags (working w)) /\ tag_id d = t).

(** What a successful [createQuestion] has committed, for the caller [u],
    the request [params] and the id [n] of the new question. *)
Definition created (c0 : Store) (n : ObjectId) (u : UserId)
    (params : CreateQuestionParams) (w : World) : Prop :=
  exists tagIds,
    List.length tagIds = List.length (cq_tags params) /\
    questions (committed w)
      = (questions c0
         ++ [mkQuestion n (cq_title params) (cq_content params) u tagIds])%list
    /\
    tagQuestions (committed w)
      = (tagQuestions c0 ++ map (fun t => mkTagQuestion t n) tagIds)%list /\
    (forall t, In t tagIds ->
       exists d, In d (tags (committed w)) /\ tag_id d = t).

(** The state of [editQuestion] once the caller [u] is known to be the
    author: the question in memory carries the requested id, title and
    content, and the view of the transaction holds a question of that id
    written by [u]. *)
Definition editing (qid : ObjectId) (u : UserId) (title content : string)
    (question : LoadedQuestion) (w : World) : Prop :=
  lq_id question = qid /\
  lq_title question = title /\
  lq_content question = content /\
  exists q0, Collection.find_question qid (working w) = Some q0 /\
             q_author q0 = u.

(** The committed question of id [qid] carries [title] and [content] and
    is written by [u]. *)
Definition edited (qid : ObjectId) (u : UserId) (title content : string)
    (w : World) : Prop :=
  exists q, Collection.find_question qid (committed w) = Some q /\
            q_title q = title /\ q_content q = content /\ q_author q = u.

(** Every one of the names is carried, in some casing, by a tag of the
    store. *)
Definition named (names : list string) (s : Store) : Prop :=
  forall n, In n names ->
    exists d, In d (tags s) /\ Text.ci_eq n (tag_name d) = true.

(** [s] contains [q] ignoring case. *)
Definition contains_ci (q s : string) : Prop :=
  exists pre mid post,
    s = (pre ++ mid ++ post)%string /\ Text.ci_eq q mid = true.

(** * Properties *)

(** ** Letter case *)

Module TextFacts.
Import Text.

Lemma same_letter_refl (a : ascii) : same_letter a a = true.
Proof. apply Ascii.eqb_refl. Qed.

Lemma same_letter_sym (a b : ascii) : same_letter a b = same_letter b a.
Proof. apply Ascii.eqb_sym. Qed.

Lemma same_letter_trans (a b c : ascii) :
  same_letter a b = true -> same_letter b c = true -> same_letter a c = true.
Proof.
  unfold same_letter. rewrite !Ascii.eqb_eq. congruence.
Qed.

Lemma ci_eq_refl (s : string) : ci_eq s s = true.
Proof.
  induction s as [|c s IH]; simpl; [reflexivity|].
  now rewrite same_letter_refl.
Qed.

Lemma ci_eq_sym (s t : string) : ci_eq s t = ci_eq t s.
Proof.
  revert t. induction s as [|a s IH]; intros [|b t]; simpl; try reflexivity.
  now rewrite same_letter_sym, IH.
Qed.

Lemma ci_eq_trans (s t u : string) :
  ci_eq s t = true -> ci_eq t u = true -> ci_eq s u = true.
Proof.
  revert t u.
  induction s as [|a s IH]; intros [|b t] [|c u]; simpl; try congruence.
  rewrite !andb_true_iff. intros [Hab Hst] [Hbc Htu]. split.
  - eapply same_letter_trans; eassumption.
  - eapply IH; eassumption.
Qed.

(** Names equal up to case are matched by the same stored names. *)
Lemma ci_eq_congr_l (s t u : string) :
  ci_eq s t = true -> ci_eq s u = ci_eq t u.
Proof.
  intros Hst.
  destruct (ci_eq t u) eqn:Htu.
  - eapply ci_eq_trans; eassumption.
  - destruct (ci_eq s u) eqn:Hsu; [|reflexivity].
    rewrite ci_eq_sym in Hst.
    now rewrite (ci_eq_trans _ _ _ Hst Hsu) in Htu.
Qed.

End TextFacts.

(** ** Patterns built from plain names *)

Module RegexFacts.
Import Regex.

Lemma not_meta_not_dollar (c : ascii) :
  is_meta c = false -> Ascii.eqb c "$"%char = false.
Proof.
  unfold is_meta. simpl. intros H.
  repeat (apply orb_false_elim in H; destruct H as [? H]); assumption.
Qed.

Lemma not_meta_not_dot (c : ascii) :
  is_meta c = false -> Ascii.eqb c "."%char = false.
Proof.
  unfold is_meta. simpl. intros H.
  repeat (apply orb_false_elim in H; destruct H as [? H]); assumption.
Qed.

Lemma not_meta_not_caret (c : ascii) :
  is_meta c = false -> Ascii.eqb c "^"%char = false.
Proof.
  unfold is_meta. simpl. intros H.
  repeat (apply orb_false_elim in H; destruct H as [? H]); assumption.
Qed.

Lemma parse_body_plain (name : string) :
  plain name = true ->
  parse_body (name ++ "$") = Some (literal name, true).
Proof.
  unfold plain, literal.
  induction name as [|c name IH]; simpl; [reflexivity|].
  rewrite andb_true_iff, negb_true_iff. intros [Hc Hrest].
  rewrite (not_meta_not_dollar _ Hc), (not_meta_not_dot _ Hc), Hc.
  now rewrite (IH Hrest).
Qed.

(** The pattern [createQuestion] and [editQuestion] build for a plain
    name. *)
Lemma new_RegExp_plain (name : string) :
  plain name = true ->
  new_RegExp ("^" ++ name ++ "$") = Some (mkRegExp true true (literal name)).
Proof.
  intros H. simpl. now rewrite (parse_body_plain _ H).
Qed.

(** On plain names the anchored, case-insensitive pattern is equality
    ignoring case. *)
Lemma test_literal (name s : string) :
  test (mkRegExp true true (literal name)) s = Text.ci_eq name s.
Proof.
  unfold test, match_at, literal. simpl.
  revert s. induction name as [|c name IH]; intros [|d s]; simpl;
    try reflexivity.
  destruct (Text.same_letter c d); simpl; [apply IH | reflexivity].
Qed.

End RegexFacts.

(** ** Reasoning about computations *)

Lemma triple_ret {A} (P : World -> Prop) (a : A) (Q : A -> World -> Prop)
    (E : World -> Prop) :
  (forall w, P w -> Q a w) -> triple P (ret a) Q E.
Proof. intros H w Hw. simpl. auto. Qed.

Lemma triple_throw {A} (P : World -> Prop) (e : Error)
    (Q : A -> World -> Prop) (E : World -> Prop) :
  (forall w, P w -> E w) -> triple P (@throw A e) Q E.
Proof. intros H w Hw. simpl. auto. Qed.

Lemma triple_bind {A B} (P : World -> Prop) (m : M A) (k : A -> M B)
    (R : A -> World -> Prop) (Q : B -> World -> Prop) (E : World -> Prop) :
  triple P m R E ->
  (forall a, triple (R a) (k a) Q E) ->
  triple P (bind m k) Q E.
Proof.
  intros Hm Hk w Hw. unfold bind.
  specialize (Hm w Hw). destruct (m w) as [[a|e] w']; [|exact Hm].
  apply (Hk a w' Hm).
Qed.

Lemma triple_weaken {A} (P P' : World -> Prop) (m : M A)
    (Q Q' : A -> World -> Prop) (E E' : World -> Prop) :
  triple P' m Q' E' ->
  (forall w, P w -> P' w) ->
  (forall a w, Q' a w -> Q a w) ->
  (forall w, E' w -> E w) ->
  triple P m Q E.
Proof.
  intros Hm HP HQ HE w Hw. specialize (Hm w (HP w Hw)).
  destruct (m w) as [[a|e] w']; auto.
Qed.

(** A store call: the fault, or the effect of the call. *)
Lemma triple_store_call {A} (P : World -> Prop) (c : Call)
    (f : World -> A * World) (Q : A -> World -> Prop) (E : World -> Prop) :
  (forall w, P w -> E (log (StoreCall c) (tick w))) ->
  (forall w, P w ->
     Q (fst (f (log (StoreCall c) (tick w))))
       (snd (f (log (StoreCall c) (tick w))))) ->
  triple P (store_call c f) Q E.
Proof.
  intros HE HQ w Hw. unfold store_call.
  destruct (faulty w); [apply HE, Hw|].
  specialize (HQ w Hw).
  destruct (f (log (StoreCall c) (tick w))) as [a w2]. exact HQ.
Qed.

Lemma triple_in_session {A} (P : World -> Prop) (c : Call)
    (f : Store -> A * Store) (Q : A -> World -> Prop) (E : World -> Prop) :
  (forall w, P w -> E (log (StoreCall c) (tick w))) ->
  (forall w, P w ->
     Q (fst (f (working w)))
       (set_working (snd (f (working w))) (log (StoreCall c) (tick w)))) ->
  triple P (in_session c f) Q E.
Proof.
  intros HE HQ. apply triple_store_call; [exact HE|].
  intros w Hw. specialize (HQ w Hw). simpl.
  destruct (f (working w)) as [a s]. exact HQ.
Qed.

(** ** Collections *)

Module CollectionFacts.
Import Collection.

Lemma inc_first_None (r : Regex.RegExp) (ts : list TagDoc) :
  inc_first r ts = None ->
  forall d, In d ts -> Regex.test r (tag_name d) = false.
Proof.
  induction ts as [|x ts IH]; simpl; [contradiction|].
  destruct (Regex.test r (tag_name x)) eqn:Hx; [discriminate|].
  destruct (inc_first r ts) as [[d' ts']|]; [discriminate|].
  intros _ d [<-|Hd]; auto.
Qed.

Lemma no_match_inc_first (r : Regex.RegExp) (ts : list TagDoc) :
  (forall d, In d ts -> Regex.test r (tag_name d) = false) ->
  inc_first r ts = None.
Proof.
  induction ts as [|x ts IH]; simpl; [reflexivity|].
  intros H. rewrite (H x (or_introl eq_refl)).
  rewrite IH; [reflexivity|]. intros d Hd. apply H. now right.
Qed.

(** The first match is found behind documents that do not match. *)
Lemma inc_first_app (r : Regex.RegExp) (ts : list TagDoc) (d : TagDoc)
    (rest : list TagDoc) :
  (forall x, In x ts -> Regex.test r (tag_name x) = false) ->
  Regex.test r (tag_name d) = true ->
  inc_first r (ts ++ d :: rest)
  = Some (inc_questions 1 d, (ts ++ inc_questions 1 d :: rest)%list).
Proof.
  induction ts as [|x ts IH]; simpl; intros Hts Hd.
  - now rewrite Hd.
  - rewrite (Hts x (or_introl eq_refl)).
    rewrite IH; auto.
Qed.

Lemma same_id_same_doc (ts : list TagDoc) (x y : TagDoc) :
  NoDup (map tag_id ts) -> In x ts -> In y ts -> tag_id x = tag_id y ->
  x = y.
Proof.
  induction ts as [|z ts IH]; simpl; [contradiction|].
  intros Hnd Hx Hy Hid. inversion Hnd as [|? ? Hz Hnd']; subst.
  destruct Hx as [->|Hx], Hy as [->|Hy]; auto.
  - exfalso. apply Hz. rewrite Hid. now apply in_map.
  - exfalso. apply Hz. rewrite <- Hid. now apply in_map.
Qed.

(** With ids of their own, incrementing the first match is incrementing
    the document that carries its id. *)
Lemma inc_first_Some (r : Regex.RegExp) (ts : list TagDoc) (d' : TagDoc)
    (ts' : list TagDoc) :
  NoDup (map tag_id ts) ->
  inc_first r ts = Some (d', ts') ->
  exists d, In d ts /\ Regex.test r (tag_name d) = true /\
            d' = inc_questions 1 d /\
            ts' = map (fun x => if Nat.eqb (tag_id x) (tag_id d)
                                then inc_questions 1 x else x) ts.
Proof.
  revert d' ts'.
  induction ts as [|x ts IH]; simpl; intros d' ts' Hnd H; [discriminate|].
  inversion Hnd as [|? ? Hx Hnd']; subst.
  destruct (Regex.test r (tag_name x)) eqn:Htest.
  - inversion H; subst. exists x. repeat split; auto.
    rewrite Nat.eqb_refl. f_equal.
    rewrite <- (map_id ts) at 1. apply map_ext_in.
    intros y Hy. destruct (Nat.eqb_spec (tag_id y) (tag_id x)) as [e|]; auto.
    exfalso. apply Hx. rewrite <- e. now apply in_map.
  - destruct (inc_first r ts) as [[d1 ts1]|] eqn:Hrec; [|discriminate].
    inversion H; subst.
    destruct (IH _ _ Hnd' eq_refl) as (d & Hd & Ht & -> & ->).
    exists d. repeat split; auto.
    destruct (Nat.eqb_spec (tag_id x) (tag_id d)) as [e|]; auto.
    exfalso. apply Hx. rewrite e. now apply in_map.
Qed.

Lemma join_count_app (t : ObjectId) (js ks : list TagQuestionDoc) :
  join_count t (js ++ ks) = join_count t js + join_count t ks.
Proof.
  unfold join_count. now rewrite filter_app, length_app.
Qed.

Lemma join_count_map (t qid : ObjectId) (ids : list ObjectId) :
  join_count t (map (fun i => mkTagQuestion i qid) ids)
  = count_occ Nat.eq_dec ids t.
Proof.
  unfold join_count.
  induction ids as [|i ids IH]; simpl; [reflexivity|].
  destruct (Nat.eqb_spec i t) as [->|Hne]; simpl.
  - destruct (Nat.eq_dec t t); [|contradiction]. now rewrite IH.
  - destruct (Nat.eq_dec i t); [contradiction|]. exact IH.
Qed.

Lemma join_count_fresh (t : ObjectId) (js : list TagQuestionDoc) :
  (forall j, In j js -> tq_tag j <> t) -> join_count t js = 0.
Proof.
  unfold join_count.
  induction js as [|j js IH]; simpl; [reflexivity|].
  intros H. destruct (Nat.eqb_spec (tq_tag j) t) as [e|_].
  - exfalso. exact (H j (or_introl eq_refl) e).
  - apply IH. intros k Hk. apply H. now right.
Qed.

End CollectionFacts.

(** ** [createQuestion]: resolving the tag names *)

Section Resolving.

Variables (c0 : Store) (qid : ObjectId).

Lemma count_occ_snoc (ids : list ObjectId) (i t : ObjectId) :
  count_occ Nat.eq_dec (ids ++ [i]) t
  = count_occ Nat.eq_dec ids t + (if Nat.eqb i t then 1 else 0).
Proof.
  rewrite count_occ_app. simpl.
  destruct (Nat.eq_dec i t) as [->|Hne].
  - now rewrite Nat.eqb_refl.
  - destruct (Nat.eqb_spec i t); [contradiction|reflexivity].
Qed.

Lemma NoDup_snoc {A} (l : list A) (x : A) :
  NoDup l -> ~ In x l -> NoDup (l ++ [x]).
Proof.
  intros Hl Hx. induction l as [|y l IH]; simpl.
  - constructor; [intros []|constructor].
  - inversion Hl as [|? ? Hy Hl']; subst. constructor.
    + rewrite in_app_iff. intros [H|[->|[]]]; [auto|].
      apply Hx. now left.
    + apply IH; auto. intros H. apply Hx. now right.
Qed.

(** One turn of the loop: the name is plain and new among the names
    resolved so far. *)
Lemma resolve_step (done : list string) (ids : list ObjectId)
    (tqs : list TagQuestionDoc) (a : string) :
  Regex.plain a = true ->
  existsb (Text.ci_eq a) done = false ->
  triple (resolving c0 qid done ids tqs) (Tag_findOneAndUpdate a)
    (fun d w' =>
       resolving c0 qid (done ++ [a]) (ids ++ [tag_id d])
                 (tqs ++ [mkTagQuestion (tag_id d) qid]) w')
    (fun w' => committed w' = c0 /\ qid < nextId w').
Proof.
  intros Hplain Hnew. unfold Tag_findOneAndUpdate.
  rewrite (RegexFacts.new_RegExp_plain _ Hplain).
  apply triple_store_call.
  - intros w H. destruct H as (H & _ & _ & _ & Hq & _). split; assumption.
  - intros w (Hc & Hj & Hnd & Hlt & Hq & Hjs & Hcnt & Htq & Hids & Hwit).
    assert (Hidlt : forall t, In t ids -> t < nextId w).
    { intros t Ht. destruct (Hwit t Ht) as (x & Hx & <- & _). auto. }
    cbn [working log tick nextId now].
    unfold Collection.upsert_tag.
    destruct (Collection.inc_first _ (tags (working w)))
      as [[d' ts']|] eqn:Hfirst.
    + destruct (CollectionFacts.inc_first_Some _ _ _ _ Hnd Hfirst)
        as (d & Hd & Ht & -> & ->).
      rewrite RegexFacts.test_literal in Ht.
      set (g := fun x : TagDoc =>
                  if Nat.eqb (tag_id x) (tag_id d)
                  then Collection.inc_questions 1 x else x).
      assert (Hgid : forall x, tag_id (g x) = tag_id x).
      { intros x. unfold g. now destruct (Nat.eqb (tag_id x) (tag_id d)). }
      assert (Hgname : forall x, tag_name (g x) = tag_name x).
      { intros x. unfold g. now destruct (Nat.eqb (tag_id x) (tag_id d)). }
      assert (Hfresh : ~ In (tag_id d) ids).
      { intros Hin. destruct (Hwit _ Hin) as (x & Hx & Hxid & Hxm).
        assert (x = d) by (eapply CollectionFacts.same_id_same_doc; eauto).
        subst x. apply existsb_exists in Hxm. destruct Hxm as (m & Hm & Hmd).
        assert (Ham : Text.ci_eq a m = true).
        { eapply TextFacts.ci_eq_trans; [exact Ht|].
          now rewrite TextFacts.ci_eq_sym. }
        assert (existsb (Text.ci_eq a) done = true)
          by (apply existsb_exists; eauto).
        congruence. }
      unfold resolving. cbn.
      repeat match goal with |- _ /\ _ => split end; auto.
      * rewrite map_map. erewrite map_ext; [exact Hnd|]. exact Hgid.
      * intros x' Hx'. apply in_map_iff in Hx'. destruct Hx' as (x & <- & Hx).
        rewrite Hgid. auto.
      * intros x' Hx'. apply in_map_iff in Hx'. destruct Hx' as (x & <- & Hx).
        rewrite Hgid, count_occ_snoc. specialize (Hcnt x Hx). unfold g.
        rewrite (Nat.eqb_sym (tag_id d) (tag_id x)).
        destruct (Nat.eqb (tag_id x) (tag_id d)); cbn; lia.
      * rewrite Htq, map_app. reflexivity.
      * now apply NoDup_snoc.
      * intros t Ht'. apply in_app_iff in Ht'. destruct Ht' as [Ht'|[<-|[]]].
        -- destruct (Hwit t Ht') as (x & Hx & Hxid & Hxm).
           exists (g x). rewrite Hgid, Hgname. repeat split; auto.
           ++ now apply in_map.
           ++ rewrite existsb_app, Hxm. reflexivity.
        -- exists (g d). rewrite Hgid, Hgname. repeat split; auto.
           ++ now apply in_map.
           ++ rewrite existsb_app. cbn. rewrite Ht. now rewrite orb_true_r.
    + unfold resolving. cbn.
      repeat match goal with |- _ /\ _ => split end; auto.
      * rewrite map_app. cbn. apply NoDup_snoc; [exact Hnd|].
        intros Hin. apply in_map_iff in Hin. destruct Hin as (x & Hxid & Hx).
        specialize (Hlt x Hx). lia.
      * intros x Hx. apply in_app_iff in Hx. destruct Hx as [Hx|[<-|[]]].
        -- specialize (Hlt x Hx). lia.
        -- cbn. lia.
      * intros j Hjin. destruct (Hjs j Hjin). lia.
      * intros x Hx. apply in_app_iff in Hx. destruct Hx as [Hx|[<-|[]]].
        -- rewrite count_occ_snoc. specialize (Hcnt x Hx).
           specialize (Hlt x Hx).
           destruct (Nat.eqb_spec (nextId w) (tag_id x)); [lia|]. lia.
        -- cbn [tag_id tag_questions]. rewrite count_occ_snoc, Nat.eqb_refl.
           rewrite CollectionFacts.join_count_fresh.
           ++ rewrite (proj1 (count_occ_not_In Nat.eq_dec ids (nextId w))).
              ** reflexivity.
              ** intros Hin. specialize (Hidlt _ Hin). lia.
           ++ intros j Hjin. destruct (Hjs j Hjin). lia.
      * rewrite Htq, map_app. reflexivity.
      * apply NoDup_snoc; [exact Hids|].
        intros Hin. specialize (Hidlt _ Hin). lia.
      * intros t Ht'. apply in_app_iff in Ht'. destruct Ht' as [Ht'|[<-|[]]].
        -- destruct (Hwit t Ht') as (x & Hx & Hxid & Hxm).
           exists x. repeat split; auto.
           ++ apply in_app_iff. now left.
           ++ rewrite existsb_app, Hxm. reflexivity.
        -- eexists. split; [apply in_app_iff; right; left; reflexivity|].
           cbn. split; [reflexivity|].
           rewrite existsb_app. cbn.
           now rewrite TextFacts.ci_eq_refl, orb_true_r.
Qed.

Lemma resolve_tags_spec (names : list string) :
  forall (done : list string) (ids : list ObjectId)
         (tqs : list TagQuestionDoc),
  plain_names names = true ->
  distinct_names names = true ->
  (forall a, In a names -> existsb (Text.ci_eq a) done = false) ->
  triple (resolving c0 qid done ids tqs) (resolve_tags names qid ids tqs)
    (fun r w' => resolving c0 qid (done ++ names) (fst r) (snd r) w')
    (fun w' => committed w' = c0 /\ qid < nextId w').
Proof.
  induction names as [|a names IH]; intros done ids tqs Hplain Hdist Hnew.
  - apply triple_ret. intros w Hw. now rewrite app_nil_r.
  - cbn in Hplain, Hdist.
    apply andb_true_iff in Hplain. destruct Hplain as [Ha Hplain].
    apply andb_true_iff in Hdist. destruct Hdist as [Hrest Hdist].
    apply negb_true_iff in Hrest.
    cbn [resolve_tags].
    eapply triple_bind.
    + apply resolve_step; [exact Ha|]. apply Hnew. now left.
    + intros d. cbn beta.
      eapply triple_weaken.
      * apply (IH (done ++ [a])%list); [exact Hplain|exact Hdist|].
        intros b Hb. rewrite existsb_app. cbn.
        rewrite (Hnew b (or_intror Hb)). cbn. rewrite orb_false_r.
        rewrite TextFacts.ci_eq_sym.
        destruct (Text.ci_eq a b) eqn:Hab; [|reflexivity].
        assert (existsb (Text.ci_eq a) names = true)
          by (apply existsb_exists; eauto).
        congruence.
      * auto.
      * intros r w Hw. cbn beta in Hw. now rewrite <- app_assoc in Hw.
      * auto.
Qed.

(** Once the join records of the resolved tags are inserted, the view of
    the transaction is consistent again. *)
Lemma resolving_ready (done : list string) (ids : list ObjectId)
    (tqs : list TagQuestionDoc) (w : World) :
  NoDup (tagQuestions c0) ->
  resolving c0 qid done ids tqs w ->
  ready c0 qid
    (set_working (Collection.insert_joins tqs (working w))
                 (log (StoreCall TagQuestionInsertMany) (tick w))).
Proof.
  intros Hnd0 (Hc & Hj & Hnd & Hlt & Hq & Hjs & Hcnt & Htq & Hids & Hwit).
  assert (Hidlt : forall t, In t ids -> t < nextId w).
  { intros t Ht. destruct (Hwit t Ht) as (x & Hx & <- & _). auto. }
  unfold ready, consistent, one_join_per_pair, counters_agree,
    unique_tag_ids, ids_below, Collection.insert_joins.
  cbn [committed working set_working set_tagQuestions tagQuestions tags
       log tick nextId].
  rewrite Hj, Htq.
  split; [exact Hc|]. split; [exact Hq|]. split; [split|split; [|split]].
  - apply NoDup_app; [exact Hnd0| |].
    + clear - Hids. induction Hids as [|t ids Ht _ IH]; cbn; constructor; auto.
      intros Hin. apply in_map_iff in Hin. destruct Hin as (t' & Heq & Hin).
      inversion Heq; subst. contradiction.
    + intros j Hjin Hin. apply in_map_iff in Hin.
      destruct Hin as (t & <- & _). destruct (Hjs _ Hjin) as [_ H].
      cbn in H. lia.
  - intros d Hd.
    rewrite CollectionFacts.join_count_app, CollectionFacts.join_count_map.
    rewrite (Hcnt d Hd). lia.
  - exact Hnd.
  - exact Hlt.
  - intros j H. apply in_app_iff in H. destruct H as [H|H].
    + destruct (Hjs j H). lia.
    + apply in_map_iff in H. destruct H as (t & <- & Ht). cbn. auto.
Qed.

End Resolving.

(** ** [createQuestion]: the transaction as a whole *)

Lemma createQuestion_body_spec (c0 : Store) (n : ObjectId)
    (title content : string) (tags : list string) (userId : option UserId) :
  consistent c0 -> unique_tag_ids c0 -> ids_below n c0 ->
  plain_names tags = true -> distinct_names tags = true ->
  triple (fun w => committed w = c0 /\ working w = c0 /\ nextId w = n)
    (createQuestion_body title content tags userId)
    (fun _ w' => sound w')
    (fun w' => committed w' = c0 /\ n <= nextId w').
Proof.
  intros [Hnd0 Hcnt0] Huniq [Htags Hjoins] Hplain Hdist.
  unfold createQuestion_body.
  eapply triple_bind with
    (R := fun created w =>
            exists q, created = [q] /\ q_id q = n /\
                      resolving c0 n [] [] [] w).
  - unfold Question_create. destruct userId as [u|].
    + apply triple_store_call.
      * intros w (Hc & _ & Hn). cbn. split; [exact Hc|lia].
      * intros w (Hc & Hw & Hn). cbn. eexists. split; [reflexivity|].
        split; [exact Hn|].
        unfold resolving. cbn. rewrite Hw, Hn.
        repeat match goal with |- _ /\ _ => split end; auto.
        -- intros d Hd. specialize (Htags d Hd). lia.
        -- intros j Hj. destruct (Hjoins j Hj). lia.
        -- intros d Hd. destruct (Hcnt0 d Hd) as [_ ->]. lia.
        -- constructor.
        -- intros t [].
    + apply triple_throw. intros w (Hc & _ & Hn). split; [exact Hc|lia].
  - intros created w (q & -> & Hq & Hres). revert w Hres. rewrite Hq.
    change (triple (resolving c0 n [] [] [])
              (resolved <- resolve_tags tags n [] [] ;;
               let '(tagIds, tagQuestionDocuments) := resolved in
               TagQuestion_insertMany tagQuestionDocuments ;;;
               Question_findByIdAndUpdate_push n tagIds ;;;
               commitTransaction ;;; ret (Success q))
              (fun _ w' => sound w')
              (fun w' => committed w' = c0 /\ n <= nextId w')).
    eapply triple_bind.
    + eapply triple_weaken.
      * apply (resolve_tags_spec c0 n tags [] [] [] Hplain Hdist).
        intros a _. reflexivity.
      * auto.
      * intros r w Hw. exact Hw.
      * intros w [Hc Hlt]. split; [exact Hc|lia].
    + intros [tagIds tqs]. cbn [fst snd].
      eapply triple_bind with (R := fun _ w => ready c0 n w).
      * apply triple_in_session.
        -- intros w (Hc & _ & _ & _ & Hlt & _). cbn. split; [exact Hc|lia].
        -- intros w Hw. cbn [fst snd]. eapply resolving_ready; eauto.
      * intros _.
        eapply triple_bind with (R := fun _ w => ready c0 n w).
        -- apply triple_in_session.
           ++ intros w (Hc & Hlt & _). cbn. split; [exact Hc|lia].
           ++ intros w Hw. exact Hw.
        -- intros _.
           eapply triple_bind with (R := fun _ w => sound w).
           ++ apply triple_store_call.
              ** intros w (Hc & Hlt & _). cbn. split; [exact Hc|lia].
              ** intros w (Hc & Hlt & Hcons & Hu & Hbelow). exact (conj Hcons (conj Hu Hbelow)).
           ++ intros _. apply triple_ret. auto.
Qed.

Lemma createQuestion_sound (AskQuestionSchema : CreateQuestionParams -> bool)
    (caller : option UserId) (params : CreateQuestionParams) (w : World) :
  sound w ->
  plain_names (cq_tags params) = true ->
  distinct_names (cq_tags params) = true ->
  sound (snd (createQuestion AskQuestionSchema caller params w)).
Proof.
  intros (Hcons & Huniq & Hbelow) Hplain Hdist.
  unfold createQuestion.
  destruct (action params AskQuestionSchema true caller) as [e|v] eqn:Hact.
  - cbn. exact (conj Hcons (conj Huniq Hbelow)).
  - assert (Hp : v_params v = params).
    { unfold action in Hact.
      destruct (negb (AskQuestionSchema params)); [discriminate|].
      destruct caller; inversion Hact; reflexivity. }
    rewrite Hp.
    unfold bind at 1. cbn [startSession].
    unfold bind at 1. cbn [startTransaction].
    unfold try_catch_finally.
    match goal with
    | |- context [createQuestion_body ?t ?c ?ts ?u ?w2] =>
        pose proof (createQuestion_body_spec (committed w) (nextId w)
                      t c ts u Hcons Huniq Hbelow Hplain Hdist w2
                      (conj eq_refl (conj eq_refl eq_refl))) as Hbody;
        destruct (createQuestion_body t c ts u w2) as [[r|e] w3]
    end.
    + cbn. exact Hbody.
    + cbn. destruct Hbody as [Hc Hn]. unfold sound. cbn. rewrite Hc.
      split; [exact Hcons|]. split; [exact Huniq|].
      destruct Hbelow as [Ht Hj]. split.
      * intros d Hd. specialize (Ht d Hd). lia.
      * intros j Hjin. destruct (Hj j Hjin). lia.
Qed.

(** ** [getTags]: pages *)

Lemma length_insert_by {A} (le : A -> A -> bool) (x : A) (l : list A) :
  List.length (insert_by le x l) = S (List.length l).
Proof.
  induction l as [|y l IH]; cbn; [reflexivity|].
  destruct (le x y); cbn; [reflexivity|]. now rewrite IH.
Qed.

Lemma length_sort_by {A} (le : A -> A -> bool) (l : list A) :
  List.length (sort_by le l) = List.length l.
Proof.
  induction l as [|x l IH]; cbn; [reflexivity|].
  now rewrite length_insert_by, IH.
Qed.

(** What a page holds, from the number of matching documents. *)
Lemma length_page {A} (skip limit : Z) (l : list A) :
  (0 <= skip)%Z -> (1 <= limit)%Z ->
  Z.of_nat (List.length (apply_limit limit (skipn (Z.to_nat skip) l)))
  = Z.min limit (Z.max 0 (Z.of_nat (List.length l) - skip)).
Proof.
  intros Hskip Hlimit. unfold apply_limit.
  destruct (Z.eqb_spec limit 0); [lia|].
  rewrite length_firstn, length_skipn. lia.
Qed.

Lemma getTags_run (PaginatedSearchParamsSchema : PaginatedSearchParams -> bool)
    (caller : option UserId) (params : PaginatedSearchParams) (w : World)
    (f : TagDoc -> bool) :
  PaginatedSearchParamsSchema params = true ->
  fault_at w = None ->
  (1 <= page_of params)%Z ->
  (1 <= pageSize_of params)%Z ->
  filter_predicate (filterQuery_of params) = Some f ->
  fst (getTags PaginatedSearchParamsSchema caller params w)
  = Ok (Success
          (let found :=
             apply_limit (pageSize_of params)
               (skipn (Z.to_nat ((page_of params - 1) * pageSize_of params))
                  (sort_by (sortCriteria (filter_key params))
                     (List.filter f (tags (committed w))))) in
           mkTagsPage found
             ((page_of params - 1) * pageSize_of params
              + Z.of_nat (List.length found)
              <? Z.of_nat (List.length (List.filter f (tags (committed w)))))%Z)).
Proof.
  intros Hschema Hfault Hp Hs Hf.
  unfold getTags, action. rewrite Hschema. cbn [negb].
  unfold try_catch, bind, Tag_countDocuments, Tag_find. rewrite Hf.
  unfold read_committed, store_call, faulty. rewrite Hfault.
  destruct (Z.ltb_spec ((page_of params - 1) * pageSize_of params) 0);
    [nia|].
  cbn [log tick fault_at committed calls]. rewrite Hfault.
  reflexivity.
Qed.

(** The size of a page and its [isNext], in terms of the page number and
    page size that [getTags] reads off the request. *)
Lemma getTags_page_arith
    (PaginatedSearchParamsSchema : PaginatedSearchParams -> bool)
    (caller : option UserId) (params : PaginatedSearchParams) (w : World)
    (f : TagDoc -> bool) :
  PaginatedSearchParamsSchema params = true ->
  fault_at w = None ->
  (1 <= page_of params)%Z ->
  (1 <= pageSize_of params)%Z ->
  filter_predicate (filterQuery_of params) = Some f ->
  exists found,
    fst (getTags PaginatedSearchParamsSchema caller params w)
      = Ok (Success found) /\
    Z.of_nat (List.length (page_tags found))
      = Z.min (pageSize_of params)
          (Z.max 0
             (Z.of_nat (List.length (List.filter f (tags (committed w))))
              - (page_of params - 1) * pageSize_of params)) /\
    isNext found
      = (Z.of_nat (List.length (List.filter f (tags (committed w))))
         >? (page_of params - 1) * pageSize_of params
            + Z.of_nat (List.length (page_tags found)))%Z /\
    (page_of params = 2%Z -> pageSize_of params = 10%Z ->
     List.length (List.filter f (tags (committed w))) = 15 ->
     List.length (page_tags found) = 5 /\ isNext found = false).
Proof.
  intros Hschema Hfault Hp Hs Hf.
  eexists. split; [apply (getTags_run _ _ _ _ f); assumption|].
  cbn [page_tags isNext].
  assert (Hskip : (0 <= (page_of params - 1) * pageSize_of params)%Z) by nia.
  pose proof (length_page ((page_of params - 1) * pageSize_of params)
                (pageSize_of params)
                (sort_by (sortCriteria (filter_key params))
                         (List.filter f (tags (committed w))))
                Hskip Hs) as Hlen.
  rewrite length_sort_by in Hlen.
  split; [exact Hlen|]. split; [apply eq_sym, Z.gtb_ltb|].
  intros Hp2 Hs10 HN. rewrite Hp2, Hs10, HN in *.
  split; [lia|]. apply Z.ltb_ge. lia.
Qed.

(** ** [editQuestion]: the ownership check *)

Lemma editQuestion_unauthorized_run
    (EditQuestionSchema : EditQuestionParams -> bool)
    (u : UserId) (params : EditQuestionParams) (w : World) (q : QuestionDoc) :
  EditQuestionSchema params = true ->
  faulty w = false ->
  Collection.find_question (eq_questionId params) (committed w) = Some q ->
  q_author q <> u ->
  editQuestion EditQuestionSchema (Some u) params w
  = (Ok (Failure (handleError AuthorizationError)),
     mkWorld (committed w) (committed w) TxnAborted false (nextId w) (now w)
             (S (calls w)) (fault_at w)
             (((((trace w ++ [StartSession]) ++ [StartTransaction])
                 ++ [StoreCall QuestionFindById]) ++ [AbortTransaction])
                 ++ [EndSession])%list).
Proof.
  intros Hschema Hfault Hfind Hauthor.
  unfold editQuestion, action. rewrite Hschema. cbn [negb v_params v_session].
  unfold bind at 1. cbn [startSession].
  unfold bind at 1. cbn [startTransaction].
  unfold try_catch_finally, editQuestion_body.
  unfold bind at 1.
  unfold Question_findById_populate, read_committed, store_call.
  unfold faulty in *. cbn [fault_at calls committed log tick].
  rewrite Hfault, Hfind.
  unfold is_author, load. cbn [lq_author].
  apply String.eqb_neq in Hauthor. rewrite Hauthor.
  reflexivity.
Qed.

(** ** Properties kept along a computation *)

Lemma keeps_ret {A} (I : World -> Prop) (a : A) : keeps I (ret a).
Proof. apply triple_ret. auto. Qed.

Lemma keeps_throw {A} (I : World -> Prop) (e : Error) : keeps I (@throw A e).
Proof. apply triple_throw. auto. Qed.

Lemma keeps_bind {A B} (I : World -> Prop) (m : M A) (k : A -> M B) :
  keeps I m -> (forall a, keeps I (k a)) -> keeps I (bind m k).
Proof. intros Hm Hk. eapply triple_bind; [exact Hm|exact Hk]. Qed.

Lemma keeps_snd {A} (I : World -> Prop) (m : M A) (w : World) :
  keeps I m -> I w -> I (snd (m w)).
Proof.
  intros Hm Hw. specialize (Hm w Hw). now destruct (m w) as [[a|e] w'].
Qed.

Lemma keeps_try_catch_finally {A} (I : World -> Prop) (body : M A)
    (handler : Error -> M A) (fin : M unit) :
  keeps I body -> (forall e, keeps I (handler e)) -> keeps I fin ->
  keeps I (try_catch_finally body handler fin).
Proof.
  intros Hb Hh Hf w Hw. unfold try_catch_finally.
  specialize (Hb w Hw). destruct (body w) as [[a|e] w1].
  - specialize (Hf w1 Hb). now destruct (fin w1) as [[[]|e] w2].
  - specialize (Hh e w1 Hb). destruct (handler e w1) as [r w2].
    assert (Hw2 : I w2) by (now destruct r).
    specialize (Hf w2 Hw2). destruct (fin w2) as [[[]|e'] w3]; [|exact Hf].
    now destruct r.
Qed.

Lemma keeps_not_awaited (I : World -> Prop) (m : M unit) :
  keeps I m -> keeps I (not_awaited m).
Proof.
  intros Hm w Hw. specialize (Hm w Hw). unfold not_awaited.
  now destruct (m w) as [[[]|e] w'].
Qed.

Create HintDb keeps.

Ltac keeps_steps :=
  repeat first
    [ apply keeps_ret
    | apply keeps_throw
    | apply keeps_bind; [|intros ?]
    | match goal with
      | |- keeps _ (if ?b then _ else _) => destruct b
      | |- keeps _ (match ?x with _ => _ end) => destruct x
      end
    | solve [auto with keeps] ].

(** *** Authorship *)

Section AuthorsFixed.

Variable a : list (ObjectId * UserId).

Lemma authors_in_session {A} (c : Call) (f : Store -> A * Store) :
  (forall s, authors (snd (f s)) = authors s) ->
  keeps (authors_fixed a) (in_session c f).
Proof.
  intros Hf. apply triple_in_session.
  - intros w Hw. exact Hw.
  - intros w [Hw Hc]. split; [|exact Hc]. cbn. now rewrite Hf.
Qed.

Lemma authors_save_question (id : ObjectId) (title content : string)
    (ids : Collection.TagsUpdate) (s : Store) :
  authors (Collection.save_question id title content ids s) = authors s.
Proof.
  unfold authors, Collection.save_question. cbn. rewrite map_map.
  apply map_ext. intros q.
  now destruct (Nat.eqb (q_id q) id).
Qed.

Lemma authors_Question_save (question : LoadedQuestion) :
  keeps (authors_fixed a) (Question_save question).
Proof. apply authors_in_session. intros s. apply authors_save_question. Qed.

Lemma authors_Tag_updateMany_dec (ids : list ObjectId) :
  keeps (authors_fixed a) (Tag_updateMany_dec ids).
Proof. apply authors_in_session. reflexivity. Qed.

Lemma authors_TagQuestion_deleteMany (ids : list ObjectId) (qid : ObjectId) :
  keeps (authors_fixed a) (TagQuestion_deleteMany ids qid).
Proof. apply authors_in_session. reflexivity. Qed.

Lemma authors_TagQuestion_insertMany (docs : list TagQuestionDoc) :
  keeps (authors_fixed a) (TagQuestion_insertMany docs).
Proof. apply authors_in_session. reflexivity. Qed.

Lemma authors_Tag_findOneAndUpdate (tag : string) :
  keeps (authors_fixed a) (Tag_findOneAndUpdate tag).
Proof.
  unfold Tag_findOneAndUpdate.
  destruct (Regex.new_RegExp _) as [r|]; [|apply keeps_throw].
  apply triple_store_call.
  - intros w Hw. exact Hw.
  - intros w [Hw Hc]. cbn [working log tick nextId now].
    unfold Collection.upsert_tag.
    destruct (Collection.inc_first r (tags (working w))) as [[d ts]|];
      split; assumption.
Qed.

Lemma authors_findById (id : ObjectId) :
  keeps (authors_fixed a) (Question_findById_populate id).
Proof.
  apply triple_store_call; intros w Hw; exact Hw.
Qed.

Lemma authors_commit : keeps (authors_fixed a) commitTransaction.
Proof.
  apply triple_store_call.
  - intros w Hw. exact Hw.
  - intros w [Hw _]. split; exact Hw.
Qed.

Lemma authors_abort : keeps (authors_fixed a) abortTransaction.
Proof. intros w [_ Hc]. split; exact Hc. Qed.

Lemma authors_endSession : keeps (authors_fixed a) endSession.
Proof.
  intros w [Hw Hc]. cbn. split; [|exact Hc].
  destruct (txn w); assumption.
Qed.

Hint Resolve authors_Question_save authors_Tag_updateMany_dec
  authors_TagQuestion_deleteMany authors_TagQuestion_insertMany
  authors_Tag_findOneAndUpdate authors_findById authors_commit
  authors_abort authors_endSession : keeps.

Lemma authors_add_tags (toAdd : list string) :
  forall (questionId : ObjectId) (docs : list TagQuestionDoc)
         (question : LoadedQuestion),
  keeps (authors_fixed a) (add_tags toAdd questionId docs question).
Proof.
  induction toAdd as [|tag rest IH]; intros questionId docs question;
    cbn [add_tags]; keeps_steps.
Qed.

Lemma authors_editQuestion_body (title content : string)
    (tags : list string) (questionId : ObjectId) (userId : option UserId) :
  keeps (authors_fixed a)
        (editQuestion_body title content tags questionId userId).
Proof.
  unfold editQuestion_body, update_title_content, remove_tags.
  keeps_steps; apply authors_add_tags.
Qed.

End AuthorsFixed.

Lemma editQuestion_authors (EditQuestionSchema : EditQuestionParams -> bool)
    (caller : option UserId) (params : EditQuestionParams) (w : World) :
  authors (committed (snd (editQuestion EditQuestionSchema caller params w)))
  = authors (committed w).
Proof.
  unfold editQuestion.
  destruct (action params EditQuestionSchema true caller) as [e|v];
    [reflexivity|].
  unfold bind at 1. cbn [startSession].
  unfold bind at 1. cbn [startTransaction].
  match goal with
  | |- context [try_catch_finally ?b ?h ?f ?w2] =>
      pose proof (keeps_snd (authors_fixed (authors (committed w)))
                    (try_catch_finally b h f) w2) as H
  end.
  apply H; [|split; reflexivity].
  apply keeps_try_catch_finally.
  - apply authors_editQuestion_body.
  - intros e. keeps_steps. apply authors_abort.
  - apply authors_endSession.
Qed.

Lemma update_title_content_skipped (title content : string)
    (question : LoadedQuestion) (w : World) :
  lq_title question = title ->
  lq_content question = content ->
  update_title_content title content question w = (Ok question, w).
Proof.
  intros <- <-. unfold update_title_content.
  now rewrite !String.eqb_refl.
Qed.

(** *** A transaction in progress *)

Section Uncommitted.

Variable c0 : Store.

Lemma uncommitted_store_call {A} (c : Call) (f : World -> A * World) :
  (forall w, uncommitted c0 w -> uncommitted c0 (snd (f w))) ->
  keeps (uncommitted c0) (store_call c f).
Proof.
  intros Hf. apply triple_store_call.
  - intros w Hw. exact Hw.
  - intros w Hw. apply Hf. exact Hw.
Qed.

Lemma uncommitted_in_session {A} (c : Call) (f : Store -> A * Store) :
  keeps (uncommitted c0) (in_session c f).
Proof.
  apply uncommitted_store_call. intros w Hw.
  destruct (f (working w)) as [x s]. exact Hw.
Qed.

Lemma uncommitted_Question_create (title content : string)
    (author : option UserId) :
  triple (uncommitted c0) (Question_create title content author)
    (fun created w =>
       uncommitted c0 w /\
       forall question rest, created = question :: rest ->
                             q_tags question = [])
    (uncommitted c0).
Proof.
  unfold Question_create. destruct author; [|apply triple_throw; auto].
  apply triple_store_call.
  - intros w Hw. exact Hw.
  - intros w Hw. cbn. split; [exact Hw|].
    intros question rest Heq. now inversion Heq.
Qed.

Lemma uncommitted_Tag_findOneAndUpdate (tag : string) :
  keeps (uncommitted c0) (Tag_findOneAndUpdate tag).
Proof.
  unfold Tag_findOneAndUpdate.
  destruct (Regex.new_RegExp _) as [r|]; [|apply keeps_throw].
  apply uncommitted_store_call. intros w Hw.
  destruct (Collection.upsert_tag r tag (nextId w) (now w) (working w))
    as [[d s] []]; exact Hw.
Qed.

Lemma uncommitted_resolve_tags (names : list string) :
  forall (qid : ObjectId) (ids : list ObjectId) (tqs : list TagQuestionDoc),
  keeps (uncommitted c0) (resolve_tags names qid ids tqs).
Proof.
  induction names as [|a names IH]; intros qid ids tqs; cbn [resolve_tags].
  - apply keeps_ret.
  - apply keeps_bind; [apply uncommitted_Tag_findOneAndUpdate|].
    intros d. apply IH.
Qed.

(** Until the commit goes through, a failure of [createQuestion]'s [try]
    block leaves the transaction in progress: the handler does not abort
    it, which is left to [endSession]. *)
Lemma createQuestion_body_uncommitted (title content : string)
    (tags : list string) (userId : option UserId) :
  triple (uncommitted c0) (createQuestion_body title content tags userId)
    (fun r _ => exists question, r = Success question /\
                                 q_tags question = [])
    (uncommitted c0).
Proof.
  unfold createQuestion_body.
  eapply triple_bind; [apply uncommitted_Question_create|].
  intros [|question rest]; [apply triple_throw; intros w [Hw _]; exact Hw|].
  intros w [Hw Hempty]. revert w Hw.
  specialize (Hempty question rest eq_refl).
  change (triple (uncommitted c0)
            (resolved <- resolve_tags tags (q_id question) [] [] ;;
             let '(tagIds, tagQuestionDocuments) := resolved in
             TagQuestion_insertMany tagQuestionDocuments ;;;
             Question_findByIdAndUpdate_push (q_id question) tagIds ;;;
             commitTransaction ;;; ret (Success question))
            (fun r _ => exists question, r = Success question /\
                                         q_tags question = [])
            (uncommitted c0)).
  eapply triple_bind; [apply uncommitted_resolve_tags|].
  intros [tagIds tqs].
  eapply triple_bind; [apply uncommitted_in_session|]. intros ?.
  eapply triple_bind; [apply uncommitted_in_session|]. intros ?.
  eapply triple_bind with (R := fun _ _ => True).
  - apply triple_store_call; [intros w Hw; exact Hw|auto].
  - intros ?. apply triple_ret. eauto.
Qed.

End Uncommitted.

(** Past validation, [createQuestion] is its [try] statement run in a
    fresh transaction. *)
Lemma createQuestion_validated
    (AskQuestionSchema : CreateQuestionParams -> bool) (u : UserId)
    (params : CreateQuestionParams) (w : World) :
  AskQuestionSchema params = true ->
  createQuestion AskQuestionSchema (Some u) params w
  = try_catch_finally
      (createQuestion_body (cq_title params) (cq_content params)
                           (cq_tags params) (Some u))
      (fun error => ret (Failure (handleError error)))
      (not_awaited endSession)
      (mkWorld (committed w) (committed w) TxnInProgress true (nextId w)
               (now w) (calls w) (fault_at w)
               ((trace w ++ [StartSession]) ++ [StartTransaction])%list).
Proof.
  intros Hschema. unfold createQuestion, action. rewrite Hschema.
  reflexivity.
Qed.


(** The document [createQuestion] hands back is the one it created before
    any tag was resolved. *)
Lemma createQuestion_success_run
    (AskQuestionSchema : CreateQuestionParams -> bool)
    (caller : option UserId) (params : CreateQuestionParams) (w : World)
    (question : QuestionDoc) :
  fst (createQuestion AskQuestionSchema caller params w)
  = Ok (Success question) ->
  q_tags question = [].
Proof.
  unfold createQuestion, action.
  destruct (negb (AskQuestionSchema params)); [discriminate|].
  destruct caller as [u|]; [|discriminate].
  cbn [v_params v_session].
  unfold bind at 1. cbn [startSession].
  unfold bind at 1. cbn [startTransaction].
  unfold try_catch_finally.
  match goal with
  | |- context [createQuestion_body ?t ?c ?ts ?us ?w2] =>
      pose proof (createQuestion_body_uncommitted (committed w) t c ts us w2
                    (conj eq_refl (conj eq_refl eq_refl))) as Hbody;
      destruct (createQuestion_body t c ts us w2) as [[r|err] w3]
  end.
  - cbn. destruct Hbody as (q & -> & Hq). intros H. now inversion H; subst.
  - cbn. discriminate.
Qed.

(** ** Running the store calls when no fault is planned *)

Lemma store_call_ok {A} (c : Call) (f : World -> A * World) (w : World) :
  fault_at w = None ->
  store_call c f w
  = (Ok (fst (f (log (StoreCall c) (tick w)))),
     snd (f (log (StoreCall c) (tick w)))).
Proof.
  intros H. unfold store_call, faulty. rewrite H.
  now destruct (f (log (StoreCall c) (tick w))).
Qed.

(** A plain name that no stored tag carries, in any casing, is inserted
    with the casing supplied and a counter of one. *)
Lemma Tag_findOneAndUpdate_new (tag : string) (w : World) :
  Regex.plain tag = true ->
  fault_at w = None ->
  (forall d, In d (tags (working w)) ->
             Text.ci_eq tag (tag_name d) = false) ->
  Tag_findOneAndUpdate tag w
  = (Ok (mkTag (nextId w) tag 1 (now w)),
     take_id
       (set_working
          (set_tags (tags (working w) ++ [mkTag (nextId w) tag 1 (now w)])
                    (working w))
          (log (StoreCall TagFindOneAndUpdate) (tick w)))).
Proof.
  intros Hplain Hfault Hnone. unfold Tag_findOneAndUpdate.
  rewrite (RegexFacts.new_RegExp_plain _ Hplain).
  rewrite (store_call_ok _ _ _ Hfault).
  cbn [working log tick nextId now]. unfold Collection.upsert_tag.
  rewrite CollectionFacts.no_match_inc_first; [reflexivity|].
  intros d Hd. rewrite RegexFacts.test_literal. auto.
Qed.

(** A plain name carried by a stored tag, in some casing, increments the
    first such tag. *)
Lemma Tag_findOneAndUpdate_existing (tag : string) (w : World)
    (before : list TagDoc) (d : TagDoc) (after : list TagDoc) :
  Regex.plain tag = true ->
  fault_at w = None ->
  tags (working w) = (before ++ d :: after)%list ->
  (forall x, In x before -> Text.ci_eq tag (tag_name x) = false) ->
  Text.ci_eq tag (tag_name d) = true ->
  Tag_findOneAndUpdate tag w
  = (Ok (Collection.inc_questions 1 d),
     set_working
       (set_tags (before ++ Collection.inc_questions 1 d :: after)
                 (working w))
       (log (StoreCall TagFindOneAndUpdate) (tick w))).
Proof.
  intros Hplain Hfault Htags Hbefore Hd. unfold Tag_findOneAndUpdate.
  rewrite (RegexFacts.new_RegExp_plain _ Hplain).
  rewrite (store_call_ok _ _ _ Hfault).
  cbn [working log tick nextId now]. unfold Collection.upsert_tag.
  rewrite Htags, CollectionFacts.inc_first_app; [reflexivity| |].
  - intros x Hx. rewrite RegexFacts.test_literal. auto.
  - now rewrite RegexFacts.test_literal.
Qed.

(** ** The scenario of the three tag names *)

Lemma python_scenario_run
    (AskQuestionSchema : CreateQuestionParams -> bool) (u : UserId)
    (title content : string) (w : World) :
  AskQuestionSchema
    (mkCreateQuestionParams title content ["Python"; "python"; "AI"]) = true ->
  fault_at w = None ->
  (forall d, In d (tags (committed w)) ->
     Text.ci_eq "Python" (tag_name d) = false /\
     Text.ci_eq "AI" (tag_name d) = false) ->
  exists w',
    createQuestion AskQuestionSchema (Some u)
      (mkCreateQuestionParams title content ["Python"; "python"; "AI"]) w
    = (Ok (Success (mkQuestion (nextId w) title content u [])), w') /\
    txn w' = TxnCommitted /\
    tags (committed w')
    = (tags (committed w)
       ++ [mkTag (S (nextId w)) "Python" 2 (now w);
           mkTag (S (S (nextId w))) "AI" 1 (now w)])%list /\
    tagQuestions (committed w')
    = (tagQuestions (committed w)
       ++ [mkTagQuestion (S (nextId w)) (nextId w);
           mkTagQuestion (S (nextId w)) (nextId w);
           mkTagQuestion (S (S (nextId w))) (nextId w)])%list.
Proof.
  intros Hschema Hfault Hnone.
  rewrite (createQuestion_validated _ _ _ _ Hschema).
  unfold try_catch_finally, createQuestion_body.
  cbn [cq_title cq_content cq_tags].
  unfold bind at 1. unfold Question_create.
  match goal with
  | |- context [store_call ?c ?f ?w2] =>
      rewrite (store_call_ok c f w2 Hfault)
  end.
  cbn [fst snd resolve_tags q_id].
  unfold bind at 1. unfold bind at 1.
  match goal with
  | |- context [Tag_findOneAndUpdate "Python" ?w2] =>
      rewrite (Tag_findOneAndUpdate_new "Python" w2 eq_refl Hfault
                 (fun d Hd => proj1 (Hnone d Hd)))
  end.
  cbn [tag_id]. unfold bind at 1.
  match goal with
  | |- context [Tag_findOneAndUpdate "python" ?w2] =>
      rewrite (Tag_findOneAndUpdate_existing "python" w2
                 (tags (committed w))
                 (mkTag (S (nextId w)) "Python" 1 (now w)) []
                 eq_refl Hfault eq_refl)
  end.
  2: { intros x Hx.
       rewrite <- (TextFacts.ci_eq_congr_l "Python" "python" _ eq_refl).
       exact (proj1 (Hnone x Hx)). }
  2: { reflexivity. }
  cbn [tag_id Collection.inc_questions]. unfold bind at 1.
  match goal with
  | |- context [Tag_findOneAndUpdate "AI" ?w2] =>
      rewrite (Tag_findOneAndUpdate_new "AI" w2 eq_refl Hfault)
  end.
  2: { intros d Hd. cbn in Hd. apply in_app_iff in Hd.
       destruct Hd as [Hd|[<-|[]]]; [exact (proj2 (Hnone d Hd))|].
       reflexivity. }
  cbn [tag_id ret app].
  unfold bind at 1. unfold TagQuestion_insertMany, in_session.
  match goal with
  | |- context [store_call ?c ?f ?w2] =>
      rewrite (store_call_ok c f w2 Hfault)
  end.
  unfold bind at 1. unfold Question_findByIdAndUpdate_push, in_session.
  match goal with
  | |- context [store_call ?c ?f ?w2] =>
      rewrite (store_call_ok c f w2 Hfault)
  end.
  unfold bind at 1. unfold commitTransaction.
  match goal with
  | |- context [store_call ?c ?f ?w2] =>
      rewrite (store_call_ok c f w2 Hfault)
  end.
  eexists. split; [reflexivity|]. cbn.
  split; [reflexivity|]. split.
  - now rewrite <- app_assoc.
  - reflexivity.
Qed.

(** ** [editQuestion]: which names are taken as new *)

(** No desired name is ever found among the question's tags: the tag array
    holds documents and the name is a string. *)
Lemma tagsToAdd_everything (tags : list string) (question : LoadedQuestion) :
  tagsToAdd tags question = tags.
Proof.
  unfold tagsToAdd.
  assert (H : forall s, tags_include_string (lq_tags question) s = false).
  { intros s. unfold tags_include_string.
    induction (lq_tags question) as [|e es IH]; cbn; auto. }
  induction tags as [|t ts IH]; cbn; [reflexivity|].
  now rewrite H, IH.
Qed.

(** ** [editQuestion]: how often the question is saved *)

Lemma saves_snoc_other (t : list Event) (e : Event) :
  is_save e = false -> saves (t ++ [e]) = saves t.
Proof.
  intros He. unfold saves. rewrite filter_app, length_app. cbn [List.filter].
  rewrite He. cbn. lia.
Qed.

Lemma saves_snoc_save (t : list Event) :
  saves (t ++ [StoreCall QuestionSave]) = S (saves t).
Proof.
  unfold saves. rewrite filter_app, length_app. cbn. lia.
Qed.

Lemma triple_assume {A} (P : World -> Prop) (fact : Prop) (m : M A)
    (Q : A -> World -> Prop) (E : World -> Prop) :
  (forall w, P w -> fact) ->
  (fact -> triple P m Q E) ->
  triple P m Q E.
Proof. intros Hfact Hm w Hw. exact (Hm (Hfact w Hw) w Hw). Qed.

Lemma triple_bind_keeps {A B} (I : World -> Prop) (m : M A) (k : A -> M B)
    (Q : B -> World -> Prop) (E : World -> Prop) :
  keeps I m ->
  (forall w, I w -> E w) ->
  (forall a, triple I (k a) Q E) ->
  triple I (bind m k) Q E.
Proof.
  intros Hm HE Hk. eapply triple_bind; [|exact Hk].
  eapply triple_weaken; [exact Hm| | |]; auto.
Qed.

Section Saves.

Variable k : nat.

Lemma saved_store_call {A} (c : Call) (f : World -> A * World) :
  is_save (StoreCall c) = false ->
  (forall w, trace (snd (f w)) = trace w) ->
  keeps (saved_times k) (store_call c f).
Proof.
  intros Hc Hf. apply triple_store_call.
  - intros w Hw. unfold saved_times in *. cbn [trace log tick].
    now rewrite saves_snoc_other.
  - intros w Hw. unfold saved_times in *. rewrite Hf. cbn [trace log tick].
    now rewrite saves_snoc_other.
Qed.

Lemma saved_in_session {A} (c : Call) (f : Store -> A * Store) :
  is_save (StoreCall c) = false ->
  keeps (saved_times k) (in_session c f).
Proof.
  intros Hc. apply saved_store_call; [exact Hc|].
  intros w. destruct (f (working w)) as [x s]. reflexivity.
Qed.

Lemma saved_findById (id : ObjectId) :
  keeps (saved_times k) (Question_findById_populate id).
Proof. apply saved_store_call; reflexivity. Qed.

Lemma saved_Tag_findOneAndUpdate (tag : string) :
  keeps (saved_times k) (Tag_findOneAndUpdate tag).
Proof.
  unfold Tag_findOneAndUpdate.
  destruct (Regex.new_RegExp _) as [r|]; [|apply keeps_throw].
  apply saved_store_call; [reflexivity|]. intros w.
  destruct (Collection.upsert_tag r tag (nextId w) (now w) (working w))
    as [[d s] []]; reflexivity.
Qed.

Lemma saved_Tag_updateMany_dec (ids : list ObjectId) :
  keeps (saved_times k) (Tag_updateMany_dec ids).
Proof. apply saved_in_session. reflexivity. Qed.

Lemma saved_TagQuestion_deleteMany (ids : list ObjectId) (qid : ObjectId) :
  keeps (saved_times k) (TagQuestion_deleteMany ids qid).
Proof. apply saved_in_session. reflexivity. Qed.

Lemma saved_TagQuestion_insertMany (docs : list TagQuestionDoc) :
  keeps (saved_times k) (TagQuestion_insertMany docs).
Proof. apply saved_in_session. reflexivity. Qed.

Lemma saved_commit : keeps (saved_times k) commitTransaction.
Proof. apply saved_store_call; reflexivity. Qed.

Hint Resolve saved_findById saved_Tag_findOneAndUpdate
  saved_Tag_updateMany_dec saved_TagQuestion_deleteMany
  saved_TagQuestion_insertMany saved_commit : keeps.

Lemma saved_add_tags (toAdd : list string) :
  forall (questionId : ObjectId) (docs : list TagQuestionDoc)
         (question : LoadedQuestion),
  keeps (saved_times k) (add_tags toAdd questionId docs question).
Proof.
  induction toAdd as [|tag rest IH]; intros questionId docs question;
    cbn [add_tags]; keeps_steps.
Qed.

Lemma saved_remove_tags (toRemove : list TagEntry) (questionId : ObjectId)
    (question : LoadedQuestion) :
  keeps (saved_times k) (remove_tags toRemove questionId question).
Proof. unfold remove_tags. keeps_steps. Qed.

End Saves.

Lemma saved_Question_save (k : nat) (question : LoadedQuestion) :
  triple (saved_times k) (Question_save question)
    (fun _ => saved_times (S k)) (saved_times (S k)).
Proof.
  apply triple_in_session.
  - intros w Hw. unfold saved_times in *. cbn [trace log tick].
    now rewrite saves_snoc_save, Hw.
  - intros w Hw. unfold saved_times in *. cbn [trace log tick set_working].
    now rewrite saves_snoc_save, Hw.
Qed.

(** The [try] block of [editQuestion] on a question stored with the
    supplied title and content: the question is saved once, at the end. *)
Lemma editQuestion_body_saves (k : nat) (c0 : Store) (stored : QuestionDoc)
    (title content : string) (tags : list string) (questionId : ObjectId)
    (userId : option UserId) :
  Collection.find_question questionId c0 = Some stored ->
  q_title stored = title ->
  q_content stored = content ->
  triple (fun w => saved_times k w /\ committed w = c0)
    (editQuestion_body title content tags questionId userId)
    (fun _ => saved_times (S k))
    (fun w => saves (trace w) <= S k).
Proof.
  intros Hfind Htitle Hcontent.
  assert (Hweak : forall w, saved_times k w -> saves (trace w) <= S k)
    by (unfold saved_times; intros w Hw; lia).
  assert (Hweak' : forall w, saved_times (S k) w -> saves (trace w) <= S k)
    by (unfold saved_times; intros w Hw; lia).
  unfold editQuestion_body.
  eapply triple_bind with
    (R := fun found w =>
            saved_times k w /\
            found = Some (load stored
                            (Collection.populate (q_tags stored) c0))).
  - apply triple_store_call.
    + intros w [Hw _]. apply Hweak. unfold saved_times in *.
      cbn [trace log tick]. now rewrite saves_snoc_other.
    + intros w [Hw Hc]. cbn [fst snd committed log tick]. rewrite Hc, Hfind.
      split; [|reflexivity]. unfold saved_times in *.
      cbn [trace log tick]. now rewrite saves_snoc_other.
  - intros found.
    apply (triple_assume _
             (found = Some (load stored
                              (Collection.populate (q_tags stored) c0))));
      [intros w [_ H]; exact H|intros ->].
    eapply triple_weaken with
      (P' := saved_times k) (Q' := fun _ => saved_times (S k))
      (E' := fun w => saves (trace w) <= S k);
      [|intros w [Hw _]; exact Hw|auto|auto].
    destruct (negb (is_author _ userId)); [apply triple_throw; exact Hweak|].
    eapply triple_bind with (R := fun _ => saved_times k).
    { unfold update_title_content. cbn [lq_title lq_content load].
      rewrite Htitle, Hcontent, !String.eqb_refl. cbn [negb orb].
      apply triple_ret. auto. }
    intros question1.
    apply triple_bind_keeps; [|exact Hweak|].
    { destruct (0 <? _)%nat; [apply saved_add_tags|apply keeps_ret]. }
    intros [docs question2].
    apply triple_bind_keeps; [apply saved_remove_tags|exact Hweak|].
    intros question3.
    apply triple_bind_keeps; [|exact Hweak|].
    { destruct (0 <? _)%nat;
        [apply saved_TagQuestion_insertMany|apply keeps_ret]. }
    intros ?.
    eapply triple_bind with (R := fun _ => saved_times (S k)).
    { eapply triple_weaken; [apply (saved_Question_save k)| | |]; auto. }
    intros ?.
    apply triple_bind_keeps; [apply saved_commit|exact Hweak'|].
    intros ?. apply triple_ret. auto.
Qed.

Lemma editQuestion_saves (EditQuestionSchema : EditQuestionParams -> bool)
    (caller : option UserId) (params : EditQuestionParams) (w : World)
    (stored : QuestionDoc) :
  Collection.find_question (eq_questionId params) (committed w)
    = Some stored ->
  q_title stored = eq_title params ->
  q_content stored = eq_content params ->
  saves (trace (snd (editQuestion EditQuestionSchema caller params w)))
    <= S (saves (trace w)) /\
  (forall question,
     fst (editQuestion EditQuestionSchema caller params w)
       = Ok (Success question) ->
     saves (trace (snd (editQuestion EditQuestionSchema caller params w)))
       = S (saves (trace w))).
Proof.
  intros Hfind Htitle Hcontent.
  remember (editQuestion EditQuestionSchema caller params w) as out
    eqn:Hout.
  unfold editQuestion in Hout.
  destruct (action params EditQuestionSchema true caller) as [e|v] eqn:Hact.
  - subst out. cbn. split; [lia|discriminate].
  - assert (Hp : v_params v = params).
    { unfold action in Hact.
      destruct (negb (EditQuestionSchema params)); [discriminate|].
      destruct caller; inversion Hact; reflexivity. }
    rewrite Hp in Hout.
    unfold bind at 1 in Hout. cbn [startSession] in Hout.
    unfold bind at 1 in Hout. cbn [startTransaction] in Hout.
    unfold try_catch_finally in Hout.
    match type of Hout with
    | context [editQuestion_body ?t ?c ?ts ?q ?us ?w2] =>
        assert (Hpre : saved_times (saves (trace w)) w2 /\
                       committed w2 = committed w)
          by (split; [|reflexivity]; unfold saved_times; cbn [trace];
              now rewrite !saves_snoc_other by reflexivity);
        pose proof (editQuestion_body_saves (saves (trace w)) (committed w)
                      stored t c ts q us Hfind Htitle Hcontent w2 Hpre)
          as Hbody;
        destruct (editQuestion_body t c ts q us w2) as [[r|err] w3]
    end.
    + unfold saved_times in Hbody. subst out. cbn -[saves].
      rewrite saves_snoc_other by reflexivity. rewrite Hbody.
      split; [lia|reflexivity].
    + subst out. cbn -[saves]. rewrite !saves_snoc_other by reflexivity.
      split; [exact Hbody|discriminate].
Qed.

(** * The claims *)



(** The calls of that failing execution, and of a failing [editQuestion]:
    the handler of [editQuestion] aborts the transaction itself, the one
    of [createQuestion] leaves the abort to [endSession]. *)
Example createQuestion_failure_trace :
  trace (snd (createQuestion accept_all (Some "u1")
                (mkCreateQuestionParams "Closures" "What is a closure?"
                                        ["AI"])
                (with_fault 2 fresh_world)))
  = [StartSession; StartTransaction; StoreCall QuestionCreate;
     StoreCall TagFindOneAndUpdate; StoreCall TagQuestionInsertMany;
     EndSession].
Proof. reflexivity. Qed.

Example editQuestion_failure_trace :
  trace (snd (editQuestion accept_all (Some "u1")
                (mkEditQuestionParams "Sorting a list"
                   "How do I sort a list?" ["python"; "ai"] 2)
                (with_fault 3 python_world)))
  = [StartSession; StartTransaction; StoreCall QuestionFindById;
     StoreCall TagFindOneAndUpdate; StoreCall TagFindOneAndUpdate;
     StoreCall TagQuestionInsertMany; AbortTransaction; EndSession].
Proof. reflexivity. Qed.

(** C2.  As the code has it: editing the question tagged [python] with
    the desired tags [python] resolves the name again.  The tag's counter
    goes from 1 to 2, a second join record for the same pair is inserted,
    and the question refers to the tag twice. *)
Theorem editQuestion_readds_present_tag :
  committed
    (snd (editQuestion accept_all (Some "u1")
            (mkEditQuestionParams "Sorting a list" "How do I sort a list?"
                                  ["python"] 2)
            python_world))
  = mkStore [mkTag 1 "python" 2 0]
            [mkQuestion 2 "Sorting a list" "How do I sort a list?" "u1"
                        [1; 1]]
            [mkTagQuestion 1 2; mkTagQuestion 1 2].
Proof. reflexivity. Qed.

(** C3.  As the code has it: created with the tag names Python, python
    and AI on a store where no tag carries either name in any casing, the
    question leaves exactly two new tags, [Python] (the casing of the
    first occurrence) and [AI]; the counter of [AI] is 1, but the counter
    of [Python] is 2, one for each occurrence of the name, and three join
    records are inserted, two of them for [Python]. *)
Theorem createQuestion_counts_each_occurrence
    (AskQuestionSchema : CreateQuestionParams -> bool) (u : UserId)
    (title content : string) (w : World) :
  AskQuestionSchema
    (mkCreateQuestionParams title content ["Python"; "python"; "AI"]) = true ->
  fault_at w = None ->
  (forall d, In d (tags (committed w)) ->
     Text.ci_eq "Python" (tag_name d) = false /\
     Text.ci_eq "AI" (tag_name d) = false) ->
  exists w',
    createQuestion AskQuestionSchema (Some u)
      (mkCreateQuestionParams title content ["Python"; "python"; "AI"]) w
    = (Ok (Success (mkQuestion (nextId w) title content u [])), w') /\
    txn w' = TxnCommitted /\
    tags (committed w')
    = (tags (committed w)
       ++ [mkTag (S (nextId w)) "Python" 2 (now w);
           mkTag (S (S (nextId w))) "AI" 1 (now w)])%list /\
    tagQuestions (committed w')
    = (tagQuestions (committed w)
       ++ [mkTagQuestion (S (nextId w)) (nextId w);
           mkTagQuestion (S (nextId w)) (nextId w);
           mkTagQuestion (S (S (nextId w))) (nextId w)])%list.
Proof. apply python_scenario_run. Qed.

Lemma createQuestion_counts_each_occurrence_witness :
  exists w',
    createQuestion accept_all (Some "u1") three_names fresh_world
    = (Ok (Success (mkQuestion 1 "Generators" "What does yield do?" "u1" [])),
       w') /\
    txn w' = TxnCommitted /\
    tags (committed w') = [mkTag 2 "Python" 2 0; mkTag 3 "AI" 1 0] /\
    tagQuestions (committed w')
    = [mkTagQuestion 2 1; mkTagQuestion 2 1; mkTagQuestion 3 1].
Proof.
  apply (createQuestion_counts_each_occurrence accept_all "u1"
           "Generators" "What does yield do?" fresh_world).
  - reflexivity.
  - reflexivity.
  - intros d Hd. simpl in Hd. destruct Hd.
Defined.

(** The scenario as the specification words it does not hold of that
    call: on the empty store the counter of [Python] ends at 2, not
    at 1. *)
Example createQuestion_python_counted_twice :
  ~ two_tags_each_counted_once
      (committed fresh_world)
      (committed
         (snd (createQuestion accept_all (Some "u1") three_names
                 fresh_world))).
Proof.
  intros (_ & Hpython & _). vm_compute in Hpython. discriminate.
Qed.

(** C4.  As the code has it: both mutations commit stores that break the
    invariant they started from.  The creation with the names Python,
    python and AI on the empty store, and the edit of the question tagged
    [python] with the desired tags [python], each leave two join records
    for one (tag, question) pair. *)
Theorem mutations_duplicate_join_record :
  (consistent (committed fresh_world) /\
   txn (snd (createQuestion accept_all (Some "u1") three_names fresh_world))
     = TxnCommitted /\
   ~ one_join_per_pair
       (committed
          (snd (createQuestion accept_all (Some "u1") three_names
                  fresh_world)))) /\
  (consistent (committed python_world) /\
   txn (snd (editQuestion accept_all (Some "u1")
               (mkEditQuestionParams "Sorting a list"
                  "How do I sort a list?" ["python"] 2)
               python_world))
     = TxnCommitted /\
   ~ one_join_per_pair
       (committed
          (snd (editQuestion accept_all (Some "u1")
                  (mkEditQuestionParams "Sorting a list"
                     "How do I sort a list?" ["python"] 2)
                  python_world)))).
Proof.
  split; (split; [|split; [reflexivity|]]).
  - split; [constructor|]. intros d Hd. destruct Hd.
  - unfold one_join_per_pair. vm_compute. intros Hpairs.
    inversion Hpairs as [|j js Hnotin _]; subst.
    apply Hnotin. left. reflexivity.
  - split.
    + constructor; [intros Hin; destruct Hin|constructor].
    + intros d [<-|[]]. split; [cbn; lia|reflexivity].
  - unfold one_join_per_pair. vm_compute. intros Hpairs.
    inversion Hpairs as [|j js Hnotin _]; subst.
    apply Hnotin. left. reflexivity.
Qed.

(** C5.  As the code has it: the question a successful [createQuestion]
    returns is the document created before the tags were resolved; its
    tag array is empty, whatever ids were pushed to the stored question. *)
Theorem createQuestion_returns_unresolved_tags
    (AskQuestionSchema : CreateQuestionParams -> bool)
    (caller : option UserId) (params : CreateQuestionParams) (w : World)
    (question : QuestionDoc) :
  fst (createQuestion AskQuestionSchema caller params w)
  = Ok (Success question) ->
  q_tags question = [].
Proof. apply createQuestion_success_run. Qed.

Lemma createQuestion_returns_unresolved_tags_witness :
  exists question,
    fst (createQuestion accept_all (Some "u1")
           (mkCreateQuestionParams "Closures" "What is a closure?" ["AI"])
           fresh_world)
    = Ok (Success question) /\
    q_tags question = [].
Proof.
  eexists. split.
  - reflexivity.
  - apply (createQuestion_returns_unresolved_tags accept_all (Some "u1")
             (mkCreateQuestionParams "Closures" "What is a closure?" ["AI"])
             fresh_world).
    reflexivity.
Defined.

(** In that call the stored question does refer to the resolved tag. *)
Example createQuestion_persisted_tags :
  map q_tags
    (questions
       (committed
          (snd (createQuestion accept_all (Some "u1")
                  (mkCreateQuestionParams "Closures" "What is a closure?"
                                          ["AI"])
                  fresh_world))))
  = [[2]].
Proof. reflexivity. Qed.

(** C6.  As the code has it: the name is read as a pattern.  Created with
    the tag name [node.js] on a store that holds the tag [node-js], the
    question is attached to [node-js], whose counter goes from 1 to 2; no
    tag named [node.js] is created, although the two names differ. *)
Theorem createQuestion_dot_matches_other_name :
  Text.ci_eq "node.js" "node-js" = false /\
  tags
    (committed
       (snd (createQuestion accept_all (Some "u1")
               (mkCreateQuestionParams "Modules" "How do I import a module?"
                                       ["node.js"])
               node_world)))
  = [mkTag 1 "node-js" 2 0].
Proof. split; reflexivity. Qed.

(** C7.  When the loaded question's author is not the caller, the answer
    of [editQuestion] is the error envelope of the authorization failure;
    the only store call made is the read, the transaction is aborted, and
    neither the committed store nor the view of the transaction differs
    from the committed store before the call. *)
Theorem editQuestion_rejects_other_author
    (EditQuestionSchema : EditQuestionParams -> bool)
    (u : UserId) (params : EditQuestionParams) (w : World) (q : QuestionDoc) :
  EditQuestionSchema params = true ->
  faulty w = false ->
  Collection.find_question (eq_questionId params) (committed w) = Some q ->
  q_author q <> u ->
  fst (editQuestion EditQuestionSchema (Some u) params w)
    = Ok (Failure (handleError AuthorizationError)) /\
  committed (snd (editQuestion EditQuestionSchema (Some u) params w))
    = committed w /\
  working (snd (editQuestion EditQuestionSchema (Some u) params w))
    = committed w /\
  txn (snd (editQuestion EditQuestionSchema (Some u) params w))
    = TxnAborted /\
  trace (snd (editQuestion EditQuestionSchema (Some u) params w))
    = (trace w ++ [StartSession; StartTransaction;
                   StoreCall QuestionFindById; AbortTransaction;
                   EndSession])%list.
Proof.
  intros Hschema Hfault Hfind Hauthor.
  rewrite (editQuestion_unauthorized_run _ _ _ _ _ Hschema Hfault Hfind
             Hauthor).
  cbn. repeat split. now rewrite <- !app_assoc.
Qed.

Lemma editQuestion_rejects_other_author_witness :
  fst (editQuestion accept_all (Some "u2")
         (mkEditQuestionParams "Sorting" "Edited by someone else" ["go"] 2)
         python_world)
    = Ok (Failure (handleError AuthorizationError)) /\
  committed
    (snd (editQuestion accept_all (Some "u2")
            (mkEditQuestionParams "Sorting" "Edited by someone else" ["go"] 2)
            python_world))
    = python_store.
Proof.
  destruct (editQuestion_rejects_other_author accept_all "u2"
              (mkEditQuestionParams "Sorting" "Edited by someone else"
                                    ["go"] 2)
              python_world
              (mkQuestion 2 "Sorting a list" "How do I sort a list?" "u1" [1]))
    as (Hanswer & Hcommitted & _).
  - reflexivity.
  - reflexivity.
  - reflexivity.
  - intros H. discriminate H.
  - split; [exact Hanswer | exact Hcommitted].
Defined.

(** C8.  A request that carries page [p >= 1] and page size [s >= 1],
    over [N] tags matching its query, is answered with
    [min(s, max(0, N - (p-1)*s))] tags and
    [isNext = (N > (p-1)*s + returned)]; page 2 of size 10 over 15 matches
    holds 5 tags and has no next page. *)
Theorem getTags_page_count
    (PaginatedSearchParamsSchema : PaginatedSearchParams -> bool)
    (caller : option UserId) (p s : Z) (q key : option string) (w : World)
    (f : TagDoc -> bool) :
  PaginatedSearchParamsSchema
    (mkPaginatedSearchParams (Some p) (Some s) q key) = true ->
  fault_at w = None ->
  (1 <= p)%Z ->
  (1 <= s)%Z ->
  filter_predicate
    (filterQuery_of (mkPaginatedSearchParams (Some p) (Some s) q key))
    = Some f ->
  exists found,
    fst (getTags PaginatedSearchParamsSchema caller
           (mkPaginatedSearchParams (Some p) (Some s) q key) w)
      = Ok (Success found) /\
    Z.of_nat (List.length (page_tags found))
      = Z.min s
          (Z.max 0
             (Z.of_nat (List.length (List.filter f (tags (committed w))))
              - (p - 1) * s)) /\
    isNext found
      = (Z.of_nat (List.length (List.filter f (tags (committed w))))
         >? (p - 1) * s + Z.of_nat (List.length (page_tags found)))%Z /\
    (p = 2%Z -> s = 10%Z ->
     List.length (List.filter f (tags (committed w))) = 15 ->
     List.length (page_tags found) = 5 /\ isNext found = false).
Proof.
  intros Hschema Hfault Hp Hs Hf.
  exact (getTags_page_arith PaginatedSearchParamsSchema caller
           (mkPaginatedSearchParams (Some p) (Some s) q key) w f
           Hschema Hfault Hp Hs Hf).
Qed.

Lemma getTags_page_count_witness :
  (exists found,
     fst (getTags accept_all None
            (mkPaginatedSearchParams (Some 2%Z) (Some 10%Z) None None)
            fifteen_world)
       = Ok (Success found) /\
     List.length (page_tags found) = 5 /\ isNext found = false) /\
  (exists found,
     fst (getTags accept_all None
            (mkPaginatedSearchParams (Some 2%Z) (Some 4%Z) None None)
            fifteen_world)
       = Ok (Success found) /\
     List.length (page_tags found) = 4 /\ isNext found = true).
Proof.
  split.
  - destruct (getTags_page_count accept_all None 2%Z 10%Z None None
                fifteen_world (fun _ => true))
      as (found & Hrun & _ & _ & Hscenario).
    + reflexivity.
    + reflexivity.
    + lia.
    + lia.
    + reflexivity.
    + exists found. split; [exact Hrun|].
      apply Hscenario; reflexivity.
  - destruct (getTags_page_count accept_all None 2%Z 4%Z None None
                fifteen_world (fun _ => true))
      as (found & Hrun & Hlen & Hnext & _).
    + reflexivity.
    + reflexivity.
    + lia.
    + lia.
    + reflexivity.
    + assert (HN : List.length
                     (List.filter (fun _ : TagDoc => true)
                                  (tags (committed fifteen_world))) = 15)
        by reflexivity.
      rewrite HN in Hlen, Hnext.
      assert (H4 : List.length (page_tags found) = 4) by lia.
      exists found. split; [exact Hrun|]. split; [exact H4|].
      rewrite Hnext, H4. reflexivity.
Defined.

(** C9.  [editQuestion] leaves every question's author (and id) as it
    was, however the call ends; and when the supplied title and content
    are the stored ones, the call does not rewrite them: of its two
    [save] calls on the question only the final one is made (at most one
    [save] however the call ends, exactly one when it succeeds). *)
Theorem editQuestion_frame
    (EditQuestionSchema : EditQuestionParams -> bool)
    (caller : option UserId) (params : EditQuestionParams) (w : World) :
  authors (committed (snd (editQuestion EditQuestionSchema caller params w)))
    = authors (committed w) /\
  (forall stored : QuestionDoc,
     Collection.find_question (eq_questionId params) (committed w)
       = Some stored ->
     q_title stored = eq_title params ->
     q_content stored = eq_content params ->
     saves (trace (snd (editQuestion EditQuestionSchema caller params w)))
       <= S (saves (trace w)) /\
     (forall question,
        fst (editQuestion EditQuestionSchema caller params w)
          = Ok (Success question) ->
        saves (trace (snd (editQuestion EditQuestionSchema caller params w)))
          = S (saves (trace w)))).
Proof.
  split.
  - apply editQuestion_authors.
  - intros stored. apply editQuestion_saves.
Qed.

Lemma editQuestion_frame_witness :
  authors
    (committed
       (snd (editQuestion accept_all (Some "u1")
               (mkEditQuestionParams "Sorting a list"
                  "How do I sort a list?" ["python"; "go"] 2)
               python_world)))
    = [(2, "u1")] /\
  saves
    (trace
       (snd (editQuestion accept_all (Some "u1")
               (mkEditQuestionParams "Sorting a list"
                  "How do I sort a list?" ["python"; "go"] 2)
               python_world)))
    = 1.
Proof.
  destruct (editQuestion_frame accept_all (Some "u1")
              (mkEditQuestionParams "Sorting a list"
                 "How do I sort a list?" ["python"; "go"] 2)
              python_world) as [Hauthors Hsaves].
  split.
  - exact Hauthors.
  - destruct (Hsaves (mkQuestion 2 "Sorting a list" "How do I sort a list?"
                                 "u1" [1]))
      as [_ Hsuccess].
    + reflexivity.
    + reflexivity.
    + reflexivity.
    + eapply Hsuccess. vm_compute. reflexivity.
Defined.

(** With another title the same call saves the question twice: once for
    the title and content, once at the end. *)
Example editQuestion_changed_title_saved_twice :
  saves
    (trace
       (snd (editQuestion accept_all (Some "u1")
               (mkEditQuestionParams "Sorting lists"
                  "How do I sort a list?" ["python"; "go"] 2)
               python_world)))
  = 2.
Proof. reflexivity. Qed.

(** C10.  Without a caller identity [getQuestion] answers with an error
    envelope and the world is as before: no store call was made. *)
Theorem getQuestion_requires_identity
    (GetQuestionSchema : GetQuestionParams -> bool)
    (params : GetQuestionParams) (w : World) :
  exists e,
    getQuestion GetQuestionSchema None params w = (Ok (Failure e), w).
Proof.
  unfold getQuestion, action.
  destruct (negb (GetQuestionSchema params)); eexists; reflexivity.
Qed.

(** * Further properties of the actions *)

(** ** The read actions leave the data alone *)

Lemma keeps_try_catch {A} (I : World -> Prop) (body : M A)
    (handler : Error -> M A) :
  keeps I body -> (forall e, keeps I (handler e)) ->
  keeps I (try_catch body handler).
Proof.
  intros Hb Hh w Hw. unfold try_catch.
  specialize (Hb w Hw). destruct (body w) as [[a|e] w1]; [exact Hb|].
  apply (Hh e w1 Hb).
Qed.

Section SameData.

Variable w0 : World.

Lemma same_data_read_committed {A} (c : Call) (f : Store -> A) :
  keeps (same_data w0) (read_committed c f).
Proof.
  apply triple_store_call; intros w Hw; exact Hw.
Qed.

Lemma same_data_read_unnamed {A} (f : Store -> A) :
  keeps (same_data w0) (read_unnamed f).
Proof.
  intros w Hw. unfold read_unnamed. destruct (faulty w); exact Hw.
Qed.

Lemma same_data_getQuestion (GetQuestionSchema : GetQuestionParams -> bool)
    (caller : option UserId) (params : GetQuestionParams) :
  keeps (same_data w0) (getQuestion GetQuestionSchema caller params).
Proof.
  unfold getQuestion.
  destruct (action params GetQuestionSchema true caller);
    [apply keeps_ret|].
  apply keeps_try_catch; [|intros e; apply keeps_ret].
  apply keeps_bind; [apply same_data_read_committed|].
  intros [question|]; [apply keeps_ret|apply keeps_throw].
Qed.

Lemma same_data_getTags
    (PaginatedSearchParamsSchema : PaginatedSearchParams -> bool)
    (caller : option UserId) (params : PaginatedSearchParams) :
  keeps (same_data w0) (getTags PaginatedSearchParamsSchema caller params).
Proof.
  unfold getTags.
  destruct (action params PaginatedSearchParamsSchema false caller);
    [apply keeps_ret|].
  apply keeps_try_catch; [|intros e; apply keeps_ret].
  apply keeps_bind.
  - unfold Tag_countDocuments.
    destruct (filter_predicate _); [apply same_data_read_committed|].
    apply keeps_throw.
  - intros total. apply keeps_bind; [|intros found; apply keeps_ret].
    unfold Tag_find.
    destruct (filter_predicate _); [|apply keeps_throw].
    destruct (_ <? 0)%Z; [apply keeps_throw|].
    apply same_data_read_committed.
Qed.

Lemma same_data_getTagQuestions (users : list UserDoc)
    (GetTagQuestionsSchema : GetTagQuestionsParams -> bool)
    (caller : option UserId) (params : GetTagQuestionsParams) :
  keeps (same_data w0)
        (getTagQuestions users GetTagQuestionsSchema caller params).
Proof.
  unfold getTagQuestions.
  destruct (action params GetTagQuestionsSchema false caller);
    [apply keeps_ret|].
  apply keeps_try_catch; [|intros e; apply keeps_ret].
  apply keeps_bind; [apply same_data_read_unnamed|].
  intros [tag|]; [|apply keeps_throw].
  apply keeps_bind.
  - unfold Question_countDocuments.
    destruct (question_predicate _ _); [apply same_data_read_unnamed|].
    apply keeps_throw.
  - intros total. apply keeps_bind; [|intros found; apply keeps_ret].
    unfold Question_find.
    destruct (question_predicate _ _); [|apply keeps_throw].
    destruct (_ <? 0)%Z; [apply keeps_throw|].
    apply same_data_read_unnamed.
Qed.

End SameData.

Lemma same_data_refl (w : World) : same_data w w.
Proof. repeat split. Qed.

(** X1.  The three read actions ([getQuestion], [getTags],
    [getTagQuestions]) never write: whatever the request, the caller, the
    fault plan and the outcome, the committed store, the view of the
    session, the state of the transaction and the id supply are as
    before the call. *)
Theorem read_actions_write_nothing
    (GetQuestionSchema : GetQuestionParams -> bool)
    (PaginatedSearchParamsSchema : PaginatedSearchParams -> bool)
    (GetTagQuestionsSchema : GetTagQuestionsParams -> bool)
    (users : list UserDoc) (caller : option UserId) (w : World) :
  (forall params,
     same_data w (snd (getQuestion GetQuestionSchema caller params w))) /\
  (forall params,
     same_data w
       (snd (getTags PaginatedSearchParamsSchema caller params w))) /\
  (forall params,
     same_data w
       (snd (getTagQuestions users GetTagQuestionsSchema caller params w))).
Proof.
  split; [|split]; intros params; apply keeps_snd;
    auto using same_data_refl, same_data_getQuestion, same_data_getTags,
               same_data_getTagQuestions.
Qed.

(** ** [getTags]: order and content of a page *)

Lemma ordered_tail {A} (le : A -> A -> bool) (x : A) (l : list A) :
  ordered le (x :: l) = true -> ordered le l = true.
Proof.
  destruct l as [|y l]; [reflexivity|]. cbn.
  intros H. apply andb_true_iff in H. apply H.
Qed.

Lemma ordered_insert_by {A} (le : A -> A -> bool) (x : A) (l : list A) :
  (forall a b, le a b = true \/ le b a = true) ->
  ordered le l = true -> ordered le (insert_by le x l) = true.
Proof.
  intros Htotal. induction l as [|y l IH]; intros Hl; [reflexivity|].
  cbn [insert_by]. destruct (le x y) eqn:Hxy.
  - change (le x y && ordered le (y :: l) = true). now rewrite Hxy, Hl.
  - assert (Hyx : le y x = true).
    { destruct (Htotal x y) as [H|H]; [congruence|exact H]. }
    specialize (IH (ordered_tail _ _ _ Hl)).
    destruct l as [|z l].
    + cbn. now rewrite Hyx.
    + cbn [insert_by] in *. cbn [ordered] in Hl.
      apply andb_true_iff in Hl. destruct Hl as [Hyz Hl].
      destruct (le x z).
      * change (le y x && ordered le (x :: z :: l) = true).
        now rewrite Hyx, IH.
      * change (le y z && ordered le (z :: insert_by le x l) = true).
        now rewrite Hyz, IH.
Qed.

Lemma ordered_sort_by {A} (le : A -> A -> bool) (l : list A) :
  (forall a b, le a b = true \/ le b a = true) ->
  ordered le (sort_by le l) = true.
Proof.
  intros Htotal. induction l as [|x l IH]; [reflexivity|].
  cbn [sort_by]. now apply ordered_insert_by.
Qed.

Lemma ordered_skipn {A} (le : A -> A -> bool) (n : nat) (l : list A) :
  ordered le l = true -> ordered le (skipn n l) = true.
Proof.
  revert l. induction n as [|n IH]; intros l Hl; [exact Hl|].
  destruct l as [|x l]; [reflexivity|].
  cbn [skipn]. apply IH. eapply ordered_tail; eassumption.
Qed.

Lemma ordered_firstn {A} (le : A -> A -> bool) (n : nat) (l : list A) :
  ordered le l = true -> ordered le (firstn n l) = true.
Proof.
  revert l. induction n as [|n IH]; intros l Hl; [reflexivity|].
  destruct l as [|x l]; [reflexivity|].
  specialize (IH l (ordered_tail _ _ _ Hl)).
  destruct l as [|y l]; [destruct n; reflexivity|].
  cbn [ordered] in Hl. apply andb_true_iff in Hl. destruct Hl as [Hxy _].
  destruct n as [|n]; [reflexivity|].
  change (le x y && ordered le (firstn (S n) (y :: l)) = true).
  now rewrite Hxy, IH.
Qed.

Lemma ordered_apply_limit {A} (le : A -> A -> bool) (limit : Z)
    (l : list A) :
  ordered le l = true -> ordered le (apply_limit limit l) = true.
Proof.
  intros Hl. unfold apply_limit.
  destruct (limit =? 0)%Z; [exact Hl|]. now apply ordered_firstn.
Qed.

Lemma sortCriteria_total (key : option string) (a b : TagDoc) :
  sortCriteria key a b = true \/ sortCriteria key b a = true.
Proof.
  assert (Hq : (tag_questions b <=? tag_questions a)%Z = true \/
               (tag_questions a <=? tag_questions b)%Z = true).
  { destruct (Z.leb_spec (tag_questions b) (tag_questions a)); [now left|].
    right. apply Z.leb_le. lia. }
  assert (Hc : (tag_createdAt b <=? tag_createdAt a)%nat = true \/
               (tag_createdAt a <=? tag_createdAt b)%nat = true).
  { destruct (Nat.leb_spec (tag_createdAt b) (tag_createdAt a));
      [now left|].
    right. apply Nat.leb_le. lia. }
  unfold sortCriteria. destruct key as [k|]; [|exact Hq].
  destruct (String.eqb k "popular"); [exact Hq|].
  destruct (String.eqb k "recent"); [exact Hc|].
  destruct (String.eqb k "oldest"); [tauto|].
  destruct (String.eqb k "name"); [apply String.leb_total|exact Hq].
Qed.

Lemma In_insert_by {A} (le : A -> A -> bool) (x y : A) (l : list A) :
  In y (insert_by le x l) -> y = x \/ In y l.
Proof.
  induction l as [|z l IH]; cbn.
  - intros [<-|[]]. now left.
  - destruct (le x z); cbn.
    + intros [<-|H]; auto.
    + intros [<-|H]; auto. destruct (IH H); auto.
Qed.

Lemma In_sort_by {A} (le : A -> A -> bool) (y : A) (l : list A) :
  In y (sort_by le l) -> In y l.
Proof.
  induction l as [|x l IH]; cbn; [auto|].
  intros H. apply In_insert_by in H. destruct H as [->|H]; auto.
Qed.

Lemma In_firstn {A} (n : nat) (y : A) (l : list A) :
  In y (firstn n l) -> In y l.
Proof.
  intros H. rewrite <- (firstn_skipn n l). apply in_app_iff. now left.
Qed.

Lemma In_skipn {A} (n : nat) (y : A) (l : list A) :
  In y (skipn n l) -> In y l.
Proof.
  intros H. rewrite <- (firstn_skipn n l). apply in_app_iff. now right.
Qed.

Lemma In_apply_limit {A} (limit : Z) (y : A) (l : list A) :
  In y (apply_limit limit l) -> In y l.
Proof.
  unfold apply_limit. destruct (limit =? 0)%Z; [auto|apply In_firstn].
Qed.

(** A page is in the order of the comparison [getTags] sorts by. *)
Lemma getTags_page_sorted
    (PaginatedSearchParamsSchema : PaginatedSearchParams -> bool)
    (caller : option UserId) (params : PaginatedSearchParams) (w : World)
    (f : TagDoc -> bool) :
  PaginatedSearchParamsSchema params = true ->
  fault_at w = None ->
  (1 <= page_of params)%Z ->
  (1 <= pageSize_of params)%Z ->
  filter_predicate (filterQuery_of params) = Some f ->
  exists found,
    fst (getTags PaginatedSearchParamsSchema caller params w)
      = Ok (Success found) /\
    ordered (sortCriteria (filter_key params)) (page_tags found) = true.
Proof.
  intros Hschema Hfault Hp Hs Hf.
  eexists. split; [apply (getTags_run _ _ _ _ f); assumption|].
  cbn [page_tags].
  apply ordered_apply_limit, ordered_skipn, ordered_sort_by.
  apply sortCriteria_total.
Qed.

(** The comparison [getTags] sorts by, key by key. *)
Lemma sortCriteria_cases (key : option string) :
  (key = Some "recent" ->
   sortCriteria key
   = fun a b => (tag_createdAt b <=? tag_createdAt a)%nat) /\
  (key = Some "oldest" ->
   sortCriteria key
   = fun a b => (tag_createdAt a <=? tag_createdAt b)%nat) /\
  (key = Some "name" ->
   sortCriteria key = fun a b => String.leb (tag_name a) (tag_name b)) /\
  (key <> Some "recent" -> key <> Some "oldest" -> key <> Some "name" ->
   sortCriteria key
   = fun a b => (tag_questions b <=? tag_questions a)%Z).
Proof.
  repeat split.
  - intros ->. reflexivity.
  - intros ->. reflexivity.
  - intros ->. reflexivity.
  - intros Hrecent Holdest Hname. unfold sortCriteria.
    destruct key as [k|]; [|reflexivity].
    destruct (String.eqb k "popular"); [reflexivity|].
    destruct (String.eqb_spec k "recent"); [congruence|].
    destruct (String.eqb_spec k "oldest"); [congruence|].
    destruct (String.eqb_spec k "name"); [congruence|reflexivity].
Qed.

(** X2.  The tags of a page come in the order the request asks for.  With
    the key "recent" no tag of the page is older than its successor
    (newest first); with "oldest" none is newer than its successor; with
    "name" the names do not decrease; with "popular", with any other key
    and with no key, the counters do not increase along the page (most
    used first). *)
Theorem getTags_page_ordered
    (PaginatedSearchParamsSchema : PaginatedSearchParams -> bool)
    (caller : option UserId) (params : PaginatedSearchParams) (w : World)
    (f : TagDoc -> bool) :
  PaginatedSearchParamsSchema params = true ->
  fault_at w = None ->
  (1 <= page_of params)%Z ->
  (1 <= pageSize_of params)%Z ->
  filter_predicate (filterQuery_of params) = Some f ->
  exists found,
    fst (getTags PaginatedSearchParamsSchema caller params w)
      = Ok (Success found) /\
    (filter_key params = Some "recent" ->
     ordered (fun a b => (tag_createdAt b <=? tag_createdAt a)%nat)
             (page_tags found) = true) /\
    (filter_key params = Some "oldest" ->
     ordered (fun a b => (tag_createdAt a <=? tag_createdAt b)%nat)
             (page_tags found) = true) /\
    (filter_key params = Some "name" ->
     ordered (fun a b => String.leb (tag_name a) (tag_name b))
             (page_tags found) = true) /\
    (filter_key params <> Some "recent" ->
     filter_key params <> Some "oldest" ->
     filter_key params <> Some "name" ->
     ordered (fun a b => (tag_questions b <=? tag_questions a)%Z)
             (page_tags found) = true).
Proof.
  intros Hschema Hfault Hp Hs Hf.
  destruct (getTags_page_sorted _ caller _ _ _ Hschema Hfault Hp Hs Hf)
    as (found & Hrun & Hordered).
  destruct (sortCriteria_cases (filter_key params))
    as (Hrecent & Holdest & Hname & Hother).
  exists found. split; [exact Hrun|].
  split; [|split; [|split]].
  - intros Hkey. now rewrite <- (Hrecent Hkey).
  - intros Hkey. now rewrite <- (Holdest Hkey).
  - intros Hkey. now rewrite <- (Hname Hkey).
  - intros H1 H2 H3. now rewrite <- (Hother H1 H2 H3).
Qed.

Lemma getTags_page_ordered_witness :
  exists found,
    fst (getTags accept_all None
           (mkPaginatedSearchParams (Some 2%Z) (Some 10%Z) None
                                    (Some "recent"))
           fifteen_world)
      = Ok (Success found) /\
    ordered (fun a b => (tag_createdAt b <=? tag_createdAt a)%nat)
            (page_tags found) = true.
Proof.
  destruct (getTags_page_ordered accept_all None
              (mkPaginatedSearchParams (Some 2%Z) (Some 10%Z) None
                                       (Some "recent"))
              fifteen_world (fun _ => true))
    as (found & Hrun & Hrecent & _).
  - reflexivity.
  - reflexivity.
  - vm_compute. discriminate.
  - vm_compute. discriminate.
  - reflexivity.
  - exists found. split; [exact Hrun|]. apply Hrecent. reflexivity.
Defined.

(** The second page of ten, newest first, over the fifteen tags created
    at times 1 to 15: the tags created at 5, 4, 3, 2 and 1. *)
Example getTags_recent_page :
  fst (getTags accept_all None
         (mkPaginatedSearchParams (Some 2%Z) (Some 10%Z) None
                                  (Some "recent"))
         fifteen_world)
  = Ok (Success
          (mkTagsPage [mkTag 5 "e" 0 5; mkTag 4 "d" 0 4; mkTag 3 "c" 0 3;
                       mkTag 2 "b" 0 2; mkTag 1 "a" 0 1]
                      false)).
Proof. reflexivity. Qed.

(** X3.  Every tag of a page is a committed tag that satisfies the filter
    of the request: the page invents nothing and lets no tag through that
    the query does not match. *)
Theorem getTags_page_content
    (PaginatedSearchParamsSchema : PaginatedSearchParams -> bool)
    (caller : option UserId) (params : PaginatedSearchParams) (w : World)
    (f : TagDoc -> bool) :
  PaginatedSearchParamsSchema params = true ->
  fault_at w = None ->
  (1 <= page_of params)%Z ->
  (1 <= pageSize_of params)%Z ->
  filter_predicate (filterQuery_of params) = Some f ->
  exists found,
    fst (getTags PaginatedSearchParamsSchema caller params w)
      = Ok (Success found) /\
    forall d, In d (page_tags found) ->
              In d (tags (committed w)) /\ f d = true.
Proof.
  intros Hschema Hfault Hp Hs Hf.
  eexists. split; [apply (getTags_run _ _ _ _ f); assumption|].
  cbn [page_tags]. intros d Hd.
  apply In_apply_limit, In_skipn, In_sort_by in Hd.
  now apply filter_In in Hd.
Qed.

Lemma getTags_page_content_witness :
  exists found,
    fst (getTags accept_all None
           (mkPaginatedSearchParams (Some 1%Z) (Some 3%Z) (Some "PY") None)
           python_world)
      = Ok (Success found) /\
    forall d, In d (page_tags found) ->
              In d (tags (committed python_world)) /\
              Regex.test (Regex.mkRegExp false false (literal "PY"))
                         (tag_name d) = true.
Proof.
  apply (getTags_page_content accept_all None
           (mkPaginatedSearchParams (Some 1%Z) (Some 3%Z) (Some "PY") None)
           python_world
           (fun d => Regex.test (Regex.mkRegExp false false (literal "PY"))
                                (tag_name d))).
  - reflexivity.
  - reflexivity.
  - vm_compute. discriminate.
  - vm_compute. discriminate.
  - reflexivity.
Defined.

(** X4.  [isNext] tells the truth about the next page: on the same data,
    [isNext] of page [p] is true exactly when page [p + 1] holds at least
    one tag. *)
Theorem getTags_isNext_next_page
    (PaginatedSearchParamsSchema : PaginatedSearchParams -> bool)
    (caller : option UserId) (params : PaginatedSearchParams) (w : World)
    (f : TagDoc -> bool) :
  PaginatedSearchParamsSchema params = true ->
  PaginatedSearchParamsSchema (next_page params) = true ->
  fault_at w = None ->
  (1 <= page_of params)%Z ->
  (1 <= pageSize_of params)%Z ->
  filter_predicate (filterQuery_of params) = Some f ->
  exists found next,
    fst (getTags PaginatedSearchParamsSchema caller params w)
      = Ok (Success found) /\
    fst (getTags PaginatedSearchParamsSchema caller (next_page params) w)
      = Ok (Success next) /\
    isNext found = negb (is_empty (page_tags next)).
Proof.
  intros Hschema Hschema' Hfault Hp Hs Hf.
  assert (Hp' : (1 <= page_of (next_page params))%Z) by (cbn; lia).
  assert (Hs' : pageSize_of (next_page params) = pageSize_of params)
    by reflexivity.
  assert (Hf' : filter_predicate (filterQuery_of (next_page params)) = Some f)
    by exact Hf.
  do 2 eexists.
  split; [apply (getTags_run _ _ _ _ f); assumption|].
  split; [apply (getTags_run _ _ _ _ f); try assumption; now rewrite Hs'|].
  cbn [page_tags isNext]. rewrite Hs'.
  change (page_of (next_page params)) with (page_of params + 1)%Z.
  change (filter_key (next_page params)) with (filter_key params).
  set (l := sort_by (sortCriteria (filter_key params))
                    (List.filter f (tags (committed w)))).
  assert (HN : List.length (List.filter f (tags (committed w)))
               = List.length l)
    by (unfold l; now rewrite length_sort_by).
  rewrite HN.
  assert (Hskip : (0 <= (page_of params - 1) * pageSize_of params)%Z) by nia.
  assert (Hskip' : (0 <= (page_of params + 1 - 1) * pageSize_of params)%Z)
    by nia.
  pose proof (length_page _ _ l Hskip Hs) as Hlen.
  pose proof (length_page _ _ l Hskip' Hs) as Hlen'.
  destruct (apply_limit (pageSize_of params)
              (skipn (Z.to_nat ((page_of params + 1 - 1) * pageSize_of params))
                     l)) as [|x rest] eqn:Hnext; cbn [is_empty negb].
  - cbn [List.length] in Hlen'. apply Z.ltb_ge. nia.
  - cbn [List.length] in Hlen'. apply Z.ltb_lt. nia.
Qed.

Lemma getTags_isNext_next_page_witness :
  exists found next,
    fst (getTags accept_all None
           (mkPaginatedSearchParams (Some 1%Z) (Some 10%Z) None None)
           fifteen_world)
      = Ok (Success found) /\
    fst (getTags accept_all None
           (next_page
              (mkPaginatedSearchParams (Some 1%Z) (Some 10%Z) None None))
           fifteen_world)
      = Ok (Success next) /\
    isNext found = negb (is_empty (page_tags next)).
Proof.
  apply (getTags_isNext_next_page accept_all None
           (mkPaginatedSearchParams (Some 1%Z) (Some 10%Z) None None)
           fifteen_world (fun _ => true)).
  - reflexivity.
  - reflexivity.
  - reflexivity.
  - vm_compute. discriminate.
  - vm_compute. discriminate.
  - reflexivity.
Defined.

(** ** [getTagQuestions] *)

Lemma read_unnamed_ok {A} (f : Store -> A) (w : World) :
  fault_at w = None ->
  read_unnamed f w = (Ok (f (committed w)), tick w).
Proof.
  intros H. unfold read_unnamed, faulty. now rewrite H.
Qed.

Lemma getTagQuestions_run (users : list UserDoc)
    (GetTagQuestionsSchema : GetTagQuestionsParams -> bool)
    (caller : option UserId) (params : GetTagQuestionsParams) (w : World)
    (tag : TagDoc) (f : QuestionDoc -> bool) :
  GetTagQuestionsSchema params = true ->
  fault_at w = None ->
  Collection.find_tag (tagq_tagId params) (committed w) = Some tag ->
  (1 <= page_number_of params)%Z ->
  (1 <= page_size_of params)%Z ->
  question_predicate (tagq_tagId params) (tagq_query params) = Some f ->
  fst (getTagQuestions users GetTagQuestionsSchema caller params w)
  = Ok (Success
          (let found :=
             map (view_question users (committed w))
               (apply_limit (page_size_of params)
                  (skipn (Z.to_nat ((page_number_of params - 1)
                                    * page_size_of params))
                         (List.filter f (questions (committed w))))) in
           mkTagQuestionsPage tag found
             ((page_number_of params - 1) * page_size_of params
              + Z.of_nat (List.length found)
              <? Z.of_nat
                   (List.length (List.filter f (questions (committed w)))))%Z)).
Proof.
  intros Hschema Hfault Htag Hp Hs Hf.
  unfold getTagQuestions, action. rewrite Hschema. cbn [negb].
  unfold try_catch. unfold bind at 1. unfold Tag_findById.
  rewrite (read_unnamed_ok _ _ Hfault), Htag.
  unfold bind at 1. unfold Question_countDocuments. rewrite Hf.
  rewrite (read_unnamed_ok _ (tick w) Hfault).
  unfold bind at 1. unfold Question_find. rewrite Hf.
  destruct (Z.ltb_spec ((page_number_of params - 1) * page_size_of params) 0);
    [nia|].
  rewrite (read_unnamed_ok _ (tick (tick w)) Hfault).
  reflexivity.
Qed.

Lemma question_predicate_has_tag (tagId : ObjectId) (query : option string)
    (f : QuestionDoc -> bool) (q : QuestionDoc) :
  question_predicate tagId query = Some f ->
  f q = true -> In tagId (q_tags q).
Proof.
  assert (Hhas : has_tag tagId q = true -> In tagId (q_tags q)).
  { unfold has_tag. intros H. apply existsb_exists in H.
    destruct H as (t & Ht & Heq). apply Nat.eqb_eq in Heq. now subst. }
  unfold question_predicate. destruct query as [s|].
  - destruct (String.eqb s ""); [intros H; inversion H; subst; exact Hhas|].
    destruct (Regex.new_RegExp s); [|discriminate].
    intros H; inversion H; subst. intros Hq.
    apply andb_true_iff in Hq. apply Hhas, Hq.
  - intros H; inversion H; subst; exact Hhas.
Qed.

(** X5.  Asked for a tag that is not stored, [getTagQuestions] answers
    with the error envelope of "Tag not found" after one store call (the
    lookup of the tag): the questions are neither counted nor fetched. *)
Theorem getTagQuestions_unknown_tag (users : list UserDoc)
    (GetTagQuestionsSchema : GetTagQuestionsParams -> bool)
    (caller : option UserId) (params : GetTagQuestionsParams) (w : World) :
  GetTagQuestionsSchema params = true ->
  faulty w = false ->
  Collection.find_tag (tagq_tagId params) (committed w) = None ->
  fst (getTagQuestions users GetTagQuestionsSchema caller params w)
    = Ok (Failure (handleError (JsError "Tag not found"))) /\
  calls (snd (getTagQuestions users GetTagQuestionsSchema caller params w))
    = S (calls w).
Proof.
  intros Hschema Hfault Htag.
  unfold getTagQuestions, action. rewrite Hschema. cbn [negb].
  unfold try_catch, bind, Tag_findById, read_unnamed.
  rewrite Hfault, Htag. split; reflexivity.
Qed.

Lemma getTagQuestions_unknown_tag_witness :
  fst (getTagQuestions some_users accept_all None
         (mkGetTagQuestionsParams 7 None None None) two_questions_world)
    = Ok (Failure (handleError (JsError "Tag not found"))) /\
  calls (snd (getTagQuestions some_users accept_all None
                (mkGetTagQuestionsParams 7 None None None)
                two_questions_world))
    = 1.
Proof.
  apply (getTagQuestions_unknown_tag some_users accept_all None
           (mkGetTagQuestionsParams 7 None None None) two_questions_world).
  - reflexivity.
  - reflexivity.
  - reflexivity.
Defined.

(** X6.  For a stored tag, [N] questions that carry it (and match the
    title query, if any), page [p >= 1] and page size [s >= 1],
    [getTagQuestions] answers with the tag, [min(s, max(0, N - (p-1)*s))]
    questions and [isNext = (N > (p-1)*s + returned)]. *)
Theorem getTagQuestions_page_count (users : list UserDoc)
    (GetTagQuestionsSchema : GetTagQuestionsParams -> bool)
    (caller : option UserId) (params : GetTagQuestionsParams) (w : World)
    (tag : TagDoc) (f : QuestionDoc -> bool) :
  GetTagQuestionsSchema params = true ->
  fault_at w = None ->
  Collection.find_tag (tagq_tagId params) (committed w) = Some tag ->
  (1 <= page_number_of params)%Z ->
  (1 <= page_size_of params)%Z ->
  question_predicate (tagq_tagId params) (tagq_query params) = Some f ->
  exists found,
    fst (getTagQuestions users GetTagQuestionsSchema caller params w)
      = Ok (Success found) /\
    tqp_tag found = tag /\
    Z.of_nat (List.length (tqp_questions found))
      = Z.min (page_size_of params)
          (Z.max 0
             (Z.of_nat (List.length (List.filter f (questions (committed w))))
              - (page_number_of params - 1) * page_size_of params)) /\
    tqp_isNext found
      = (Z.of_nat (List.length (List.filter f (questions (committed w))))
         >? (page_number_of params - 1) * page_size_of params
            + Z.of_nat (List.length (tqp_questions found)))%Z.
Proof.
  intros Hschema Hfault Htag Hp Hs Hf.
  eexists. split; [apply (getTagQuestions_run _ _ _ _ _ tag f); assumption|].
  cbn [tqp_tag tqp_questions tqp_isNext].
  split; [reflexivity|]. rewrite length_map.
  split; [|apply eq_sym, Z.gtb_ltb].
  apply length_page; [nia|exact Hs].
Qed.

Lemma getTagQuestions_page_count_witness :
  exists found,
    fst (getTagQuestions some_users accept_all None
           (mkGetTagQuestionsParams 1 (Some 2%Z) (Some 1%Z) None)
           two_questions_world)
      = Ok (Success found) /\
    tqp_tag found = mkTag 1 "python" 2 0 /\
    Z.of_nat (List.length (tqp_questions found)) = 1%Z /\
    tqp_isNext found = false.
Proof.
  destruct (getTagQuestions_page_count some_users accept_all None
              (mkGetTagQuestionsParams 1 (Some 2%Z) (Some 1%Z) None)
              two_questions_world (mkTag 1 "python" 2 0) (has_tag 1))
    as (found & Hrun & Htag & Hcount & Hnext).
  - reflexivity.
  - reflexivity.
  - reflexivity.
  - vm_compute. discriminate.
  - vm_compute. discriminate.
  - reflexivity.
  - exists found. split; [exact Hrun|]. split; [exact Htag|].
    split.
    + rewrite Hcount. reflexivity.
    + rewrite Hnext, Hcount. reflexivity.
Defined.

(** X7.  Every question [getTagQuestions] returns is a committed question
    that carries the requested tag; its id and title are the stored
    ones. *)
Theorem getTagQuestions_page_content (users : list UserDoc)
    (GetTagQuestionsSchema : GetTagQuestionsParams -> bool)
    (caller : option UserId) (params : GetTagQuestionsParams) (w : World)
    (tag : TagDoc) (f : QuestionDoc -> bool) :
  GetTagQuestionsSchema params = true ->
  fault_at w = None ->
  Collection.find_tag (tagq_tagId params) (committed w) = Some tag ->
  (1 <= page_number_of params)%Z ->
  (1 <= page_size_of params)%Z ->
  question_predicate (tagq_tagId params) (tagq_query params) = Some f ->
  exists found,
    fst (getTagQuestions users GetTagQuestionsSchema caller params w)
      = Ok (Success found) /\
    forall v, In v (tqp_questions found) ->
      exists q, In q (questions (committed w)) /\
                In (tagq_tagId params) (q_tags q) /\
                qv_id v = q_id q /\ qv_title v = q_title q.
Proof.
  intros Hschema Hfault Htag Hp Hs Hf.
  eexists. split; [apply (getTagQuestions_run _ _ _ _ _ tag f); assumption|].
  cbn [tqp_questions]. intros v Hv.
  apply in_map_iff in Hv. destruct Hv as (q & <- & Hq).
  apply In_apply_limit, In_skipn, filter_In in Hq. destruct Hq as [Hin Hfq].
  exists q. repeat split; auto.
  eapply question_predicate_has_tag; eassumption.
Qed.

Lemma getTagQuestions_page_content_witness :
  exists found,
    fst (getTagQuestions some_users accept_all None
           (mkGetTagQuestionsParams 3 None None (Some "go"))
           two_questions_world)
      = Ok (Success found) /\
    forall v, In v (tqp_questions found) ->
      exists q, In q (questions (committed two_questions_world)) /\
                In 3 (q_tags q) /\
                qv_id v = q_id q /\ qv_title v = q_title q.
Proof.
  apply (getTagQuestions_page_content some_users accept_all None
           (mkGetTagQuestionsParams 3 None None (Some "go"))
           two_questions_world (mkTag 3 "go" 1 1)
           (fun d => has_tag 3 d
                     && Regex.test (Regex.mkRegExp false false (literal "go"))
                                   (q_title d))).
  - reflexivity.
  - reflexivity.
  - reflexivity.
  - vm_compute. discriminate.
  - vm_compute. discriminate.
  - reflexivity.
Defined.

(** ** Requests that do not pass validation *)

(** X8.  A request that its schema rejects, or that comes without a
    caller identity, is answered by [createQuestion] and [editQuestion]
    with an error envelope and nothing else happens: no session is
    started and no store call is made (the world is as before). *)
Theorem mutations_reject_before_any_effect
    (AskQuestionSchema : CreateQuestionParams -> bool)
    (EditQuestionSchema : EditQuestionParams -> bool)
    (caller : option UserId) (w : World) :
  (forall params,
     AskQuestionSchema params = false \/ caller = None ->
     exists e,
       createQuestion AskQuestionSchema caller params w
       = (Ok (Failure e), w)) /\
  (forall params,
     EditQuestionSchema params = false \/ caller = None ->
     exists e,
       editQuestion EditQuestionSchema caller params w
       = (Ok (Failure e), w)).
Proof.
  split; intros params Hbad.
  - unfold createQuestion, action.
    destruct (AskQuestionSchema params); cbn [negb].
    + destruct Hbad as [Hbad| ->]; [discriminate|]. eexists. reflexivity.
    + eexists. reflexivity.
  - unfold editQuestion, action.
    destruct (EditQuestionSchema params); cbn [negb].
    + destruct Hbad as [Hbad| ->]; [discriminate|]. eexists. reflexivity.
    + eexists. reflexivity.
Qed.

Lemma mutations_reject_before_any_effect_witness :
  (exists e,
     createQuestion accept_all None three_names python_world
     = (Ok (Failure e), python_world)) /\
  (exists e,
     editQuestion (fun _ => false) (Some "u1")
       (mkEditQuestionParams "Sorting a list" "How do I sort a list?"
                             ["python"] 2)
       python_world
     = (Ok (Failure e), python_world)).
Proof.
  destruct (mutations_reject_before_any_effect accept_all (fun _ => false)
              None python_world) as [Hcreate _].
  destruct (mutations_reject_before_any_effect accept_all (fun _ => false)
              (Some "u1") python_world) as [_ Hedit].
  split.
  - apply Hcreate. right. reflexivity.
  - apply Hedit. left. reflexivity.
Defined.

(** ** Questions that are not there *)

(** X9.  [editQuestion] on an id that no committed question carries
    answers with the envelope of "Error not found"; the only store call
    is the read, the transaction is aborted and the committed store is as
    before. *)
Theorem editQuestion_unknown_question
    (EditQuestionSchema : EditQuestionParams -> bool)
    (u : UserId) (params : EditQuestionParams) (w : World) :
  EditQuestionSchema params = true ->
  faulty w = false ->
  Collection.find_question (eq_questionId params) (committed w) = None ->
  fst (editQuestion EditQuestionSchema (Some u) params w)
    = Ok (Failure (handleError NotFoundError)) /\
  committed (snd (editQuestion EditQuestionSchema (Some u) params w))
    = committed w /\
  txn (snd (editQuestion EditQuestionSchema (Some u) params w))
    = TxnAborted /\
  trace (snd (editQuestion EditQuestionSchema (Some u) params w))
    = (trace w ++ [StartSession; StartTransaction;
                   StoreCall QuestionFindById; AbortTransaction;
                   EndSession])%list.
Proof.
  intros Hschema Hfault Hfind.
  unfold editQuestion, action. rewrite Hschema. cbn [negb v_params v_session].
  unfold bind, startSession, startTransaction, try_catch_finally,
    editQuestion_body, bind, Question_findById_populate, read_committed,
    store_call.
  unfold faulty in *. cbn [fault_at calls committed log tick].
  rewrite Hfault, Hfind. cbn.
  repeat split. now rewrite <- !app_assoc.
Qed.

Lemma editQuestion_unknown_question_witness :
  fst (editQuestion accept_all (Some "u1")
         (mkEditQuestionParams "Sorting" "Which one?" ["go"] 9)
         python_world)
    = Ok (Failure (handleError NotFoundError)) /\
  committed
    (snd (editQuestion accept_all (Some "u1")
            (mkEditQuestionParams "Sorting" "Which one?" ["go"] 9)
            python_world))
    = python_store.
Proof.
  destruct (editQuestion_unknown_question accept_all "u1"
              (mkEditQuestionParams "Sorting" "Which one?" ["go"] 9)
              python_world) as (Hanswer & Hcommitted & _).
  - reflexivity.
  - reflexivity.
  - reflexivity.
  - split; [exact Hanswer|exact Hcommitted].
Defined.

(** ** [getQuestion] *)

Lemma entry_ids_of_load (q : QuestionDoc) (docs : list TagDoc) :
  map entry_id (lq_tags (load q docs)) = map tag_id docs.
Proof.
  unfold load. cbn [lq_tags]. rewrite map_map. cbn [entry_id fst snd].
  generalize 0. induction docs as [|d docs IH]; intros a; [reflexivity|].
  cbn. now rewrite IH.
Qed.

Lemma find_tag_id (id : ObjectId) (s : Store) (d : TagDoc) :
  Collection.find_tag id s = Some d -> In d (tags s) /\ tag_id d = id.
Proof.
  unfold Collection.find_tag. intros H. apply find_some in H.
  destruct H as [Hin Heq]. apply Nat.eqb_eq in Heq. auto.
Qed.

Lemma find_tag_present (id : ObjectId) (s : Store) :
  (exists d, In d (tags s) /\ tag_id d = id) ->
  exists d, Collection.find_tag id s = Some d.
Proof.
  intros (d & Hin & Hid). unfold Collection.find_tag.
  destruct (find _ (tags s)) as [d'|] eqn:Hfind; [eauto|].
  apply (find_none _ _ Hfind) in Hin. apply Nat.eqb_neq in Hin. contradiction.
Qed.

(** The ids survive the round trip through [populate] when each of them
    is the id of a stored tag. *)
Lemma populate_ids (ids : list ObjectId) (s : Store) :
  (forall id, In id ids -> exists d, In d (tags s) /\ tag_id d = id) ->
  map tag_id (Collection.populate ids s) = ids.
Proof.
  unfold Collection.populate.
  induction ids as [|id ids IH]; intros Hall; [reflexivity|].
  cbn [flat_map]. rewrite map_app, IH.
  - destruct (find_tag_present id s (Hall id (or_introl eq_refl)))
      as [d Hd].
    rewrite Hd. cbn. f_equal. apply (find_tag_id _ _ _ Hd).
  - intros id' Hin. apply Hall. now right.
Qed.

Lemma populate_stored (ids : list ObjectId) (s : Store) (d : TagDoc) :
  In d (Collection.populate ids s) -> In d (tags s) /\ In (tag_id d) ids.
Proof.
  unfold Collection.populate. intros H. apply in_flat_map in H.
  destruct H as (id & Hid & Hd).
  destruct (Collection.find_tag id s) as [d'|] eqn:Hfind; [|destruct Hd].
  destruct Hd as [<-|[]]. apply find_tag_id in Hfind.
  destruct Hfind as [Hin <-]. auto.
Qed.

Lemma getQuestion_run (GetQuestionSchema : GetQuestionParams -> bool)
    (u : UserId) (params : GetQuestionParams) (w : World) :
  GetQuestionSchema params = true ->
  faulty w = false ->
  fst (getQuestion GetQuestionSchema (Some u) params w)
  = match Collection.find_question (gq_questionId params) (committed w) with
    | Some q =>
        Ok (Success (load q (Collection.populate (q_tags q) (committed w))))
    | None => Ok (Failure (handleError (JsError "Question not Found.")))
    end.
Proof.
  intros Hschema Hfault.
  unfold getQuestion, action. rewrite Hschema. cbn [negb v_params].
  unfold try_catch, bind, Question_findById_populate, read_committed,
    store_call.
  rewrite Hfault. cbn [committed log tick].
  now destruct (Collection.find_question _ _).
Qed.

(** X10.  [getQuestion] on an id that no committed question carries
    answers with the error envelope of "Question not Found.". *)
Theorem getQuestion_unknown_question
    (GetQuestionSchema : GetQuestionParams -> bool)
    (u : UserId) (params : GetQuestionParams) (w : World) :
  GetQuestionSchema params = true ->
  faulty w = false ->
  Collection.find_question (gq_questionId params) (committed w) = None ->
  fst (getQuestion GetQuestionSchema (Some u) params w)
  = Ok (Failure (handleError (JsError "Question not Found."))).
Proof.
  intros Hschema Hfault Hfind.
  now rewrite (getQuestion_run _ _ _ _ Hschema Hfault), Hfind.
Qed.

Lemma getQuestion_unknown_question_witness :
  fst (getQuestion accept_all (Some "u1") (mkGetQuestionParams 9)
         python_world)
  = Ok (Failure (handleError (JsError "Question not Found."))).
Proof.
  apply (getQuestion_unknown_question accept_all "u1"
           (mkGetQuestionParams 9) python_world); reflexivity.
Defined.

(** X11.  [getQuestion] on a committed question answers with that
    question: its id, title, content and author are the stored ones; its
    tag entries are stored tag documents that the question refers to,
    and when every id the question refers to is the id of a stored tag,
    the entries carry exactly the question's tag ids, in order. *)
Theorem getQuestion_returns_stored_question
    (GetQuestionSchema : GetQuestionParams -> bool)
    (u : UserId) (params : GetQuestionParams) (w : World) (q : QuestionDoc) :
  GetQuestionSchema params = true ->
  faulty w = false ->
  Collection.find_question (gq_questionId params) (committed w) = Some q ->
  exists question,
    fst (getQuestion GetQuestionSchema (Some u) params w)
      = Ok (Success question) /\
    lq_id question = gq_questionId params /\
    lq_title question = q_title q /\
    lq_content question = q_content q /\
    lq_author question = q_author q /\
    (forall e, In e (lq_tags question) ->
       exists h d, e = Populated h d /\ In d (tags (committed w)) /\
                   In (tag_id d) (q_tags q)) /\
    ((forall id, In id (q_tags q) ->
        exists d, In d (tags (committed w)) /\ tag_id d = id) ->
     map entry_id (lq_tags question) = q_tags q).
Proof.
  intros Hschema Hfault Hfind.
  eexists. split.
  { rewrite (getQuestion_run _ _ _ _ Hschema Hfault), Hfind. reflexivity. }
  split.
  { unfold Collection.find_question in Hfind. apply find_some in Hfind.
    destruct Hfind as [_ H]. now apply Nat.eqb_eq in H. }
  repeat split.
  - intros e He. unfold load in He. cbn [lq_tags] in He.
    apply in_map_iff in He. destruct He as ([h d] & <- & Hin).
    apply in_combine_r in Hin. exists h, d. split; [reflexivity|].
    now apply populate_stored in Hin.
  - intros Hall. rewrite entry_ids_of_load. now apply populate_ids.
Qed.

Lemma getQuestion_returns_stored_question_witness :
  exists question,
    fst (getQuestion accept_all (Some "u1") (mkGetQuestionParams 4)
           two_questions_world)
      = Ok (Success question) /\
    lq_title question = "Calling Go" /\
    map entry_id (lq_tags question) = [1; 3].
Proof.
  destruct (getQuestion_returns_stored_question accept_all "u1"
              (mkGetQuestionParams 4) two_questions_world
              (mkQuestion 4 "Calling Go" "How do I call Go from Python?"
                          "u1" [1; 3]))
    as (question & Hrun & _ & Htitle & _ & _ & _ & Hids).
  - reflexivity.
  - reflexivity.
  - reflexivity.
  - exists question. split; [exact Hrun|]. split; [exact Htitle|].
    apply Hids. intros id Hid. simpl in Hid.
    destruct Hid as [<-|[<-|[]]].
    + exists (mkTag 1 "python" 2 0). split; [left; reflexivity|reflexivity].
    + exists (mkTag 3 "go" 1 1).
      split; [right; left; reflexivity|reflexivity].
Defined.

(** ** Tags are never lost *)

Lemma extends_refl {A} (l : list A) : extends l l.
Proof. exists []. now rewrite app_nil_r. Qed.

Lemma extends_trans {A} (l1 l2 l3 : list A) :
  extends l1 l2 -> extends l2 l3 -> extends l1 l3.
Proof.
  intros [m1 ->] [m2 ->]. exists (m1 ++ m2)%list. now rewrite app_assoc.
Qed.

Lemma inc_first_identity (r : Regex.RegExp) (ts : list TagDoc)
    (d' : TagDoc) (ts' : list TagDoc) :
  Collection.inc_first r ts = Some (d', ts') ->
  map (fun d => (tag_id d, tag_name d)) ts'
  = map (fun d => (tag_id d, tag_name d)) ts /\
  In d' ts'.
Proof.
  revert d' ts'. induction ts as [|x ts IH]; intros d' ts'; cbn;
    [discriminate|].
  destruct (Regex.test r (tag_name x)).
  - intros H. inversion H; subst. split; [reflexivity|now left].
  - destruct (Collection.inc_first r ts) as [[d1 ts1]|]; [|discriminate].
    intros H. inversion H; subst.
    destruct (IH _ _ eq_refl) as [Hmap Hin]. cbn.
    split; [now rewrite Hmap|now right].
Qed.

(** What an upsert does to the store, whatever the pattern: the tags keep
    their ids and names, at most one tag is added at the end, and nothing
    else is touched. *)
Lemma upsert_tag_effect (r : Regex.RegExp) (tag : string) (fresh : ObjectId)
    (now : nat) (s : Store) :
  let '(d, s', inserted) := Collection.upsert_tag r tag fresh now s in
  tag_names s'
    = (tag_names s ++ (if inserted then [(fresh, tag)] else []))%list /\
  questions s' = questions s /\
  tagQuestions s' = tagQuestions s /\
  In d (tags s').
Proof.
  unfold Collection.upsert_tag, tag_names.
  destruct (Collection.inc_first r (tags s)) as [[d ts]|] eqn:Hfirst; cbn.
  - destruct (inc_first_identity _ _ _ _ Hfirst) as [Hmap Hin].
    rewrite Hmap, app_nil_r. auto.
  - rewrite map_app. repeat split; auto.
    apply in_app_iff. right. now left.
Qed.

Section TagsKept.

Variable base : list (ObjectId * string).

Lemma tags_kept_store_call {A} (c : Call) (f : World -> A * World) :
  (forall w, extends (tag_names (working w)) (tag_names (working (snd (f w))))
             /\ committed (snd (f w)) = committed w) ->
  keeps (tags_kept base) (store_call c f).
Proof.
  intros Hf. apply triple_store_call.
  - intros w Hw. exact Hw.
  - intros w [Hw Hc]. destruct (Hf (log (StoreCall c) (tick w))) as [He Heq].
    split.
    + eapply extends_trans; [exact Hw|exact He].
    + rewrite Heq. exact Hc.
Qed.

Lemma tags_kept_in_session {A} (c : Call) (f : Store -> A * Store) :
  (forall s, tag_names (snd (f s)) = tag_names s) ->
  keeps (tags_kept base) (in_session c f).
Proof.
  intros Hf. apply tags_kept_store_call. intros w.
  specialize (Hf (working w)). destruct (f (working w)) as [a s].
  cbn in *. rewrite Hf. split; [apply extends_refl|reflexivity].
Qed.

Lemma tags_kept_Tag_findOneAndUpdate (tag : string) :
  keeps (tags_kept base) (Tag_findOneAndUpdate tag).
Proof.
  unfold Tag_findOneAndUpdate.
  destruct (Regex.new_RegExp _) as [r|]; [|apply keeps_throw].
  apply tags_kept_store_call. intros w.
  pose proof (upsert_tag_effect r tag (nextId w) (now w) (working w)) as H.
  destruct (Collection.upsert_tag r tag (nextId w) (now w) (working w))
    as [[d s] inserted].
  destruct H as (Hnames & _). destruct inserted; cbn;
    (split; [rewrite Hnames; eexists; reflexivity|reflexivity]).
Qed.

Lemma tag_names_dec_tags (ids : list ObjectId) (s : Store) :
  tag_names (Collection.dec_tags ids s) = tag_names s.
Proof.
  unfold tag_names, Collection.dec_tags. cbn. rewrite map_map.
  apply map_ext. intros d.
  now destruct (existsb (Nat.eqb (tag_id d)) ids).
Qed.

Lemma tags_kept_Question_create (title content : string)
    (author : option UserId) :
  keeps (tags_kept base) (Question_create title content author).
Proof.
  unfold Question_create. destruct author; [|apply keeps_throw].
  apply tags_kept_store_call. intros w. cbn.
  split; [apply extends_refl|reflexivity].
Qed.

Lemma tags_kept_findById (id : ObjectId) :
  keeps (tags_kept base) (Question_findById_populate id).
Proof.
  apply tags_kept_store_call. intros w. cbn.
  split; [apply extends_refl|reflexivity].
Qed.

Lemma tags_kept_Question_save (question : LoadedQuestion) :
  keeps (tags_kept base) (Question_save question).
Proof. apply tags_kept_in_session. reflexivity. Qed.

Lemma tags_kept_updateMany (ids : list ObjectId) :
  keeps (tags_kept base) (Tag_updateMany_dec ids).
Proof. apply tags_kept_in_session. intros s. apply tag_names_dec_tags. Qed.

Lemma tags_kept_deleteMany (ids : list ObjectId) (qid : ObjectId) :
  keeps (tags_kept base) (TagQuestion_deleteMany ids qid).
Proof. apply tags_kept_in_session. reflexivity. Qed.

Lemma tags_kept_insertMany (docs : list TagQuestionDoc) :
  keeps (tags_kept base) (TagQuestion_insertMany docs).
Proof. apply tags_kept_in_session. reflexivity. Qed.

Lemma tags_kept_push (id : ObjectId) (ids : list ObjectId) :
  keeps (tags_kept base) (Question_findByIdAndUpdate_push id ids).
Proof. apply tags_kept_in_session. reflexivity. Qed.

Lemma tags_kept_commit : keeps (tags_kept base) commitTransaction.
Proof.
  apply triple_store_call.
  - intros w Hw. exact Hw.
  - intros w [Hw _]. split; exact Hw.
Qed.

Lemma tags_kept_abort : keeps (tags_kept base) abortTransaction.
Proof. intros w [_ Hc]. split; exact Hc. Qed.

Lemma tags_kept_endSession : keeps (tags_kept base) endSession.
Proof.
  intros w [Hw Hc]. cbn. split; [|exact Hc].
  destruct (txn w); assumption.
Qed.

Hint Resolve tags_kept_Tag_findOneAndUpdate tags_kept_Question_create
  tags_kept_findById tags_kept_Question_save tags_kept_updateMany
  tags_kept_deleteMany tags_kept_insertMany tags_kept_push tags_kept_commit
  tags_kept_abort tags_kept_endSession : keeps.

Lemma tags_kept_resolve_tags (names : list string) :
  forall (qid : ObjectId) (ids : list ObjectId) (tqs : list TagQuestionDoc),
  keeps (tags_kept base) (resolve_tags names qid ids tqs).
Proof.
  induction names as [|a names IH]; intros qid ids tqs;
    cbn [resolve_tags]; keeps_steps.
Qed.

Lemma tags_kept_add_tags (toAdd : list string) :
  forall (questionId : ObjectId) (docs : list TagQuestionDoc)
         (question : LoadedQuestion),
  keeps (tags_kept base) (add_tags toAdd questionId docs question).
Proof.
  induction toAdd as [|tag rest IH]; intros questionId docs question;
    cbn [add_tags]; keeps_steps.
Qed.

Lemma tags_kept_createQuestion_body (title content : string)
    (tags : list string) (userId : option UserId) :
  keeps (tags_kept base) (createQuestion_body title content tags userId).
Proof.
  unfold createQuestion_body.
  keeps_steps; apply tags_kept_resolve_tags.
Qed.

Lemma tags_kept_editQuestion_body (title content : string)
    (tags : list string) (questionId : ObjectId) (userId : option UserId) :
  keeps (tags_kept base)
        (editQuestion_body title content tags questionId userId).
Proof.
  unfold editQuestion_body, update_title_content, remove_tags.
  keeps_steps; apply tags_kept_add_tags.
Qed.

End TagsKept.

(** X12.  Neither [createQuestion] nor [editQuestion] ever deletes or
    renames a tag: whatever the request and the outcome, the committed
    tags before the call are, with their ids and names and in their
    order, the first of the committed tags after it.  (A tag whose counter
    falls to zero stays.) *)
Theorem mutations_never_drop_tags
    (AskQuestionSchema : CreateQuestionParams -> bool)
    (EditQuestionSchema : EditQuestionParams -> bool)
    (caller : option UserId) (w : World) :
  (forall params,
     extends (tag_names (committed w))
       (tag_names
          (committed
             (snd (createQuestion AskQuestionSchema caller params w))))) /\
  (forall params,
     extends (tag_names (committed w))
       (tag_names
          (committed
             (snd (editQuestion EditQuestionSchema caller params w))))).
Proof.
  split; intros params.
  - unfold createQuestion.
    destruct (action params AskQuestionSchema true caller) as [e|v];
      [apply extends_refl|].
    unfold bind at 1. cbn [startSession].
    unfold bind at 1. cbn [startTransaction].
    match goal with
    | |- context [try_catch_finally ?b ?h ?f ?w2] =>
        pose proof (keeps_snd (tags_kept (tag_names (committed w)))
                      (try_catch_finally b h f) w2) as H
    end.
    apply H; [|split; apply extends_refl].
    apply keeps_try_catch_finally.
    + apply tags_kept_createQuestion_body.
    + intros e. apply keeps_ret.
    + apply keeps_not_awaited, tags_kept_endSession.
  - unfold editQuestion.
    destruct (action params EditQuestionSchema true caller) as [e|v];
      [apply extends_refl|].
    unfold bind at 1. cbn [startSession].
    unfold bind at 1. cbn [startTransaction].
    match goal with
    | |- context [try_catch_finally ?b ?h ?f ?w2] =>
        pose proof (keeps_snd (tags_kept (tag_names (committed w)))
                      (try_catch_finally b h f) w2) as H
    end.
    apply H; [|split; apply extends_refl].
    apply keeps_try_catch_finally.
    + apply tags_kept_editQuestion_body.
    + intros e. apply keeps_bind; [apply tags_kept_abort|].
      intros ?. apply keeps_ret.
    + apply tags_kept_endSession.
Qed.

(** ** How a transaction ends *)

Section Outcome.

Variable c0 : Store.

Lemma uncommitted_commit :
  triple (uncommitted c0) commitTransaction (fun _ w => settled w)
         (uncommitted c0).
Proof.
  apply triple_store_call.
  - intros w Hw. exact Hw.
  - intros w (_ & _ & Hopen). repeat split. exact Hopen.
Qed.

Lemma uncommitted_findById (id : ObjectId) :
  keeps (uncommitted c0) (Question_findById_populate id).
Proof. apply uncommitted_store_call. intros w Hw. exact Hw. Qed.

Lemma uncommitted_Question_save (question : LoadedQuestion) :
  keeps (uncommitted c0) (Question_save question).
Proof. apply uncommitted_in_session. Qed.

Lemma uncommitted_updateMany (ids : list ObjectId) :
  keeps (uncommitted c0) (Tag_updateMany_dec ids).
Proof. apply uncommitted_in_session. Qed.

Lemma uncommitted_deleteMany (ids : list ObjectId) (qid : ObjectId) :
  keeps (uncommitted c0) (TagQuestion_deleteMany ids qid).
Proof. apply uncommitted_in_session. Qed.

Lemma uncommitted_insertMany (docs : list TagQuestionDoc) :
  keeps (uncommitted c0) (TagQuestion_insertMany docs).
Proof. apply uncommitted_in_session. Qed.

Lemma uncommitted_push (id : ObjectId) (ids : list ObjectId) :
  keeps (uncommitted c0) (Question_findByIdAndUpdate_push id ids).
Proof. apply uncommitted_in_session. Qed.

Lemma uncommitted_create (title content : string) (author : option UserId) :
  keeps (uncommitted c0) (Question_create title content author).
Proof.
  unfold Question_create. destruct author; [|apply keeps_throw].
  apply uncommitted_store_call. intros w Hw. exact Hw.
Qed.

Hint Resolve uncommitted_findById uncommitted_Question_save
  uncommitted_updateMany uncommitted_deleteMany uncommitted_insertMany
  uncommitted_push uncommitted_create uncommitted_Tag_findOneAndUpdate
  uncommitted_resolve_tags : keeps.

Lemma uncommitted_add_tags (toAdd : list string) :
  forall (questionId : ObjectId) (docs : list TagQuestionDoc)
         (question : LoadedQuestion),
  keeps (uncommitted c0) (add_tags toAdd questionId docs question).
Proof.
  induction toAdd as [|tag rest IH]; intros questionId docs question;
    cbn [add_tags]; keeps_steps.
Qed.

Lemma uncommitted_update_title_content (title content : string)
    (question : LoadedQuestion) :
  keeps (uncommitted c0) (update_title_content title content question).
Proof. unfold update_title_content. keeps_steps. Qed.

Lemma uncommitted_remove_tags (toRemove : list TagEntry) (qid : ObjectId)
    (question : LoadedQuestion) :
  keeps (uncommitted c0) (remove_tags toRemove qid question).
Proof. unfold remove_tags. keeps_steps. Qed.

(** The [try] block of [editQuestion] either commits and answers with the
    question, or throws with the transaction still in progress. *)
Lemma editQuestion_body_outcome (title content : string)
    (tags : list string) (questionId : ObjectId) (userId : option UserId) :
  triple (uncommitted c0)
    (editQuestion_body title content tags questionId userId)
    (fun r w => (exists question, r = Success question) /\ settled w)
    (uncommitted c0).
Proof.
  unfold editQuestion_body.
  eapply triple_bind; [apply uncommitted_findById|].
  intros [question|]; [|apply triple_throw; auto].
  destruct (negb (is_author question userId)); [apply triple_throw; auto|].
  eapply triple_bind; [apply uncommitted_update_title_content|].
  intros question1.
  eapply triple_bind.
  { destruct (0 <? _)%nat; [apply uncommitted_add_tags|apply keeps_ret]. }
  intros [docs question2].
  eapply triple_bind; [apply uncommitted_remove_tags|]. intros question3.
  eapply triple_bind.
  { destruct (0 <? _)%nat; [apply uncommitted_insertMany|apply keeps_ret]. }
  intros ?.
  eapply triple_bind; [apply uncommitted_Question_save|]. intros ?.
  eapply triple_bind; [apply uncommitted_commit|]. intros ?.
  apply triple_ret. eauto.
Qed.

(** Likewise the [try] block of [createQuestion]. *)
Lemma createQuestion_body_outcome (title content : string)
    (tags : list string) (userId : option UserId) :
  triple (uncommitted c0) (createQuestion_body title content tags userId)
    (fun r w => (exists question, r = Success question) /\ settled w)
    (uncommitted c0).
Proof.
  unfold createQuestion_body.
  eapply triple_bind; [apply uncommitted_create|].
  intros [|question rest]; [apply triple_throw; auto|].
  eapply triple_bind; [apply uncommitted_resolve_tags|].
  intros [tagIds tqs].
  eapply triple_bind; [apply uncommitted_insertMany|]. intros ?.
  eapply triple_bind; [apply uncommitted_push|]. intros ?.
  eapply triple_bind; [apply uncommitted_commit|]. intros ?.
  apply triple_ret. eauto.
Qed.

End Outcome.

Lemma editQuestion_validated
    (EditQuestionSchema : EditQuestionParams -> bool) (u : UserId)
    (params : EditQuestionParams) (w : World) :
  EditQuestionSchema params = true ->
  editQuestion EditQuestionSchema (Some u) params w
  = try_catch_finally
      (editQuestion_body (eq_title params) (eq_content params)
                         (eq_tags params) (eq_questionId params) (Some u))
      (fun error => abortTransaction ;;; ret (Failure (handleError error)))
      endSession
      (mkWorld (committed w) (committed w) TxnInProgress true (nextId w)
               (now w) (calls w) (fault_at w)
               ((trace w ++ [StartSession]) ++ [StartTransaction])%list).
Proof.
  intros Hschema. unfold editQuestion, action. rewrite Hschema.
  reflexivity.
Qed.

Lemma createQuestion_success_validated
    (AskQuestionSchema : CreateQuestionParams -> bool)
    (caller : option UserId) (params : CreateQuestionParams) (w : World)
    (question : QuestionDoc) :
  fst (createQuestion AskQuestionSchema caller params w)
    = Ok (Success question) ->
  AskQuestionSchema params = true /\ exists u, caller = Some u.
Proof.
  unfold createQuestion, action.
  destruct (AskQuestionSchema params); [|discriminate].
  destruct caller as [u|]; [eauto|discriminate].
Qed.

Lemma editQuestion_success_validated
    (EditQuestionSchema : EditQuestionParams -> bool)
    (caller : option UserId) (params : EditQuestionParams) (w : World)
    (question : LoadedQuestion) :
  fst (editQuestion EditQuestionSchema caller params w)
    = Ok (Success question) ->
  EditQuestionSchema params = true /\ exists u, caller = Some u.
Proof.
  unfold editQuestion, action.
  destruct (EditQuestionSchema params); [|discriminate].
  destruct caller as [u|]; [eauto|discriminate].
Qed.

(** X13.  [editQuestion] is all or nothing on failure: every execution
    that answers with an error after validation has aborted the
    transaction and ended the session, and the committed store, like the
    view of the session, is the committed store before the call. *)
Theorem editQuestion_failure_aborts
    (EditQuestionSchema : EditQuestionParams -> bool) (u : UserId)
    (params : EditQuestionParams) (w : World) (e : ErrorResponse) :
  EditQuestionSchema params = true ->
  fst (editQuestion EditQuestionSchema (Some u) params w) = Ok (Failure e) ->
  txn (snd (editQuestion EditQuestionSchema (Some u) params w))
    = TxnAborted /\
  session_open (snd (editQuestion EditQuestionSchema (Some u) params w))
    = false /\
  committed (snd (editQuestion EditQuestionSchema (Some u) params w))
    = committed w /\
  working (snd (editQuestion EditQuestionSchema (Some u) params w))
    = committed w.
Proof.
  intros Hschema. rewrite (editQuestion_validated _ _ _ _ Hschema).
  unfold try_catch_finally.
  match goal with
  | |- context [editQuestion_body ?t ?c ?ts ?q ?us ?w2] =>
      pose proof (editQuestion_body_outcome (committed w) t c ts q us w2
                    (conj eq_refl (conj eq_refl eq_refl))) as Hbody;
      destruct (editQuestion_body t c ts q us w2) as [[r|err] w3]
  end.
  - cbn. destruct Hbody as [[question ->] _]. discriminate.
  - cbn. intros _. destruct Hbody as (Hc & _). auto.
Qed.

Lemma editQuestion_failure_aborts_witness :
  txn (snd (editQuestion accept_all (Some "u1")
              (mkEditQuestionParams "Sorting a list"
                 "How do I sort a list?" ["python"; "ai"] 2)
              (with_fault 3 python_world)))
    = TxnAborted /\
  committed
    (snd (editQuestion accept_all (Some "u1")
            (mkEditQuestionParams "Sorting a list"
               "How do I sort a list?" ["python"; "ai"] 2)
            (with_fault 3 python_world)))
    = python_store.
Proof.
  destruct (editQuestion_failure_aborts accept_all "u1"
              (mkEditQuestionParams "Sorting a list"
                 "How do I sort a list?" ["python"; "ai"] 2)
              (with_fault 3 python_world) (handleError StoreError))
    as (Htxn & _ & Hcommitted & _).
  - reflexivity.
  - reflexivity.
  - split; [exact Htxn|exact Hcommitted].
Defined.

(** X14.  A success is a commit: whenever [createQuestion] or
    [editQuestion] answers with a question, the transaction is committed,
    the session is ended, and what is committed is the view the
    transaction had built. *)
Theorem success_means_committed
    (AskQuestionSchema : CreateQuestionParams -> bool)
    (EditQuestionSchema : EditQuestionParams -> bool)
    (caller : option UserId) (w : World) :
  (forall params question,
     fst (createQuestion AskQuestionSchema caller params w)
       = Ok (Success question) ->
     txn (snd (createQuestion AskQuestionSchema caller params w))
       = TxnCommitted /\
     session_open (snd (createQuestion AskQuestionSchema caller params w))
       = false /\
     committed (snd (createQuestion AskQuestionSchema caller params w))
       = working (snd (createQuestion AskQuestionSchema caller params w))) /\
  (forall params question,
     fst (editQuestion EditQuestionSchema caller params w)
       = Ok (Success question) ->
     txn (snd (editQuestion EditQuestionSchema caller params w))
       = TxnCommitted /\
     session_open (snd (editQuestion EditQuestionSchema caller params w))
       = false /\
     committed (snd (editQuestion EditQuestionSchema caller params w))
       = working (snd (editQuestion EditQuestionSchema caller params w))).
Proof.
  split; intros params question Hrun.
  - destruct (createQuestion_success_validated _ _ _ _ _ Hrun)
      as (Hschema & u & ->).
    revert Hrun. rewrite (createQuestion_validated _ _ _ _ Hschema).
    unfold try_catch_finally.
    match goal with
    | |- context [createQuestion_body ?t ?c ?ts ?us ?w2] =>
        pose proof (createQuestion_body_outcome (committed w) t c ts us w2
                      (conj eq_refl (conj eq_refl eq_refl))) as Hbody;
        destruct (createQuestion_body t c ts us w2) as [[r|err] w3]
    end.
    + cbn. intros _. destruct Hbody as (_ & Ht & Hc & _). rewrite Ht. auto.
    + cbn. discriminate.
  - destruct (editQuestion_success_validated _ _ _ _ _ Hrun)
      as (Hschema & u & ->).
    revert Hrun. rewrite (editQuestion_validated _ _ _ _ Hschema).
    unfold try_catch_finally.
    match goal with
    | |- context [editQuestion_body ?t ?c ?ts ?q ?us ?w2] =>
        pose proof (editQuestion_body_outcome (committed w) t c ts q us w2
                      (conj eq_refl (conj eq_refl eq_refl))) as Hbody;
        destruct (editQuestion_body t c ts q us w2) as [[r|err] w3]
    end.
    + cbn. intros _. destruct Hbody as (_ & Ht & Hc & _). rewrite Ht. auto.
    + cbn. discriminate.
Qed.

Lemma success_means_committed_witness :
  txn (snd (createQuestion accept_all (Some "u1") three_names fresh_world))
    = TxnCommitted /\
  txn (snd (editQuestion accept_all (Some "u1")
              (mkEditQuestionParams "Sorting lists" "How do I sort?"
                                    ["python"; "go"] 2)
              python_world))
    = TxnCommitted.
Proof.
  destruct (success_means_committed accept_all accept_all (Some "u1")
              fresh_world) as [Hcreate _].
  destruct (success_means_committed accept_all accept_all (Some "u1")
              python_world) as [_ Hedit].
  split.
  - eapply Hcreate. vm_compute. reflexivity.
  - eapply Hedit. vm_compute. reflexivity.
Defined.

(** ** The tag resolver on plain names *)

(** Either some stored tag carries the name in some casing, and there is
    a first one, or none does. *)
Lemma first_match_or_none (tag : string) (ts : list TagDoc) :
  (exists before x after,
     ts = (before ++ x :: after)%list /\
     (forall y, In y before -> Text.ci_eq tag (tag_name y) = false) /\
     Text.ci_eq tag (tag_name x) = true) \/
  (forall y, In y ts -> Text.ci_eq tag (tag_name y) = false).
Proof.
  induction ts as [|y ts IH]; [right; intros z []|].
  destruct (Text.ci_eq tag (tag_name y)) eqn:Hy.
  - left. exists [], y, ts. repeat split; auto. intros z [].
  - destruct IH as [(before & x & after & -> & Hb & Hx)|Hnone].
    + left. exists (y :: before), x, after. repeat split; auto.
      intros z [<-|Hz]; auto.
    + right. intros z [<-|Hz]; auto.
Qed.

(** X15.  On a name without pattern syntax the resolver is a
    find-or-create keyed by the name ignoring case.  If some tag of the
    transaction's view carries the name in some casing, the first such
    tag is returned with its counter incremented by exactly one, and no
    tag is added, renamed or reordered; if none does, a tag with the
    supplied casing and counter 1 is appended under a fresh id. *)
Theorem resolver_finds_or_creates (tag : string) (w : World) :
  Regex.plain tag = true ->
  fault_at w = None ->
  (exists before x after w',
     tags (working w) = (before ++ x :: after)%list /\
     (forall y, In y before -> Text.ci_eq tag (tag_name y) = false) /\
     Text.ci_eq tag (tag_name x) = true /\
     Tag_findOneAndUpdate tag w
       = (Ok (mkTag (tag_id x) (tag_name x) (tag_questions x + 1)
                    (tag_createdAt x)), w') /\
     tags (working w')
       = (before
          ++ mkTag (tag_id x) (tag_name x) (tag_questions x + 1)
                   (tag_createdAt x) :: after)%list /\
     nextId w' = nextId w) \/
  (exists w',
     (forall y, In y (tags (working w)) ->
                Text.ci_eq tag (tag_name y) = false) /\
     Tag_findOneAndUpdate tag w
       = (Ok (mkTag (nextId w) tag 1 (now w)), w') /\
     tags (working w')
       = (tags (working w) ++ [mkTag (nextId w) tag 1 (now w)])%list /\
     nextId w' = S (nextId w)).
Proof.
  intros Hplain Hfault.
  destruct (first_match_or_none tag (tags (working w)))
    as [(before & x & after & Hts & Hb & Hx)|Hnone].
  - left. exists before, x, after. eexists.
    split; [exact Hts|]. split; [exact Hb|]. split; [exact Hx|].
    split; [apply (Tag_findOneAndUpdate_existing tag w before x after);
            assumption|].
    split; reflexivity.
  - right. eexists. split; [exact Hnone|].
    split; [apply Tag_findOneAndUpdate_new; assumption|].
    split; reflexivity.
Qed.

Lemma resolver_finds_or_creates_witness :
  (exists before x after w',
     tags (working python_world) = (before ++ x :: after)%list /\
     (forall y, In y before -> Text.ci_eq "PyThon" (tag_name y) = false) /\
     Text.ci_eq "PyThon" (tag_name x) = true /\
     Tag_findOneAndUpdate "PyThon" python_world
       = (Ok (mkTag (tag_id x) (tag_name x) (tag_questions x + 1)
                    (tag_createdAt x)), w') /\
     tags (working w')
       = (before
          ++ mkTag (tag_id x) (tag_name x) (tag_questions x + 1)
                   (tag_createdAt x) :: after)%list /\
     nextId w' = nextId python_world) \/
  (exists w',
     (forall y, In y (tags (working python_world)) ->
                Text.ci_eq "PyThon" (tag_name y) = false) /\
     Tag_findOneAndUpdate "PyThon" python_world
       = (Ok (mkTag (nextId python_world) "PyThon" 1 (now python_world)),
          w') /\
     tags (working w')
       = (tags (working python_world)
          ++ [mkTag (nextId python_world) "PyThon" 1 (now python_world)])%list
     /\
     nextId w' = S (nextId python_world)).
Proof.
  apply (resolver_finds_or_creates "PyThon" python_world); reflexivity.
Defined.

(** Letter case is not that of [A]-[Z] alone: the name made of code unit
    233 (e acute) finds the stored tag named by code unit 201 (E acute)
    and increments its counter; no tag is created. *)
Example resolver_folds_accented_letters :
  let stored := String (ascii_of_nat 201) EmptyString in
  let supplied := String (ascii_of_nat 233) EmptyString in
  let w := initial_world (mkStore [mkTag 1 stored 1 0] [] []) 2 in
  fst (Tag_findOneAndUpdate supplied w) = Ok (mkTag 1 stored 2 0) /\
  tags (working (snd (Tag_findOneAndUpdate supplied w)))
    = [mkTag 1 stored 2 0].
Proof. vm_compute. split; reflexivity. Qed.

(** X16.  Resolving twice gives one tag: two resolutions in a row of
    names without pattern syntax that are equal ignoring case return the
    same tag id and name, the second with a counter one above the first,
    and the second adds no tag. *)
Theorem resolver_is_idempotent_on_identity (a b : string) (w : World) :
  Regex.plain a = true ->
  Regex.plain b = true ->
  Text.ci_eq a b = true ->
  fault_at w = None ->
  exists d1 w1 d2 w2,
    Tag_findOneAndUpdate a w = (Ok d1, w1) /\
    Tag_findOneAndUpdate b w1 = (Ok d2, w2) /\
    tag_id d2 = tag_id d1 /\
    tag_name d2 = tag_name d1 /\
    tag_questions d2 = (tag_questions d1 + 1)%Z /\
    List.length (tags (working w2)) = List.length (tags (working w1)).
Proof.
  intros Ha Hb Hab Hfault.
  assert (Hcongr : forall s, Text.ci_eq b s = Text.ci_eq a s).
  { intros s. apply TextFacts.ci_eq_congr_l.
    now rewrite TextFacts.ci_eq_sym. }
  destruct (first_match_or_none a (tags (working w)))
    as [(before & x & after & Hts & Hbefore & Hx)|Hnone].
  - do 4 eexists.
    split; [apply (Tag_findOneAndUpdate_existing a w before x after);
            assumption|].
    split.
    { apply (Tag_findOneAndUpdate_existing b _ before
               (Collection.inc_questions 1 x) after);
        [exact Hb|exact Hfault|reflexivity| |].
      - intros y Hy. rewrite Hcongr. auto.
      - rewrite Hcongr. exact Hx. }
    cbn. rewrite !length_app. cbn. repeat split.
  - do 4 eexists.
    split; [apply Tag_findOneAndUpdate_new; assumption|].
    split.
    { apply (Tag_findOneAndUpdate_existing b _ (tags (working w))
               (mkTag (nextId w) a 1 (now w)) []);
        [exact Hb|exact Hfault|reflexivity| |].
      - intros y Hy. rewrite Hcongr. auto.
      - rewrite Hcongr. apply TextFacts.ci_eq_refl. }
    cbn. rewrite !length_app. cbn. repeat split.
Qed.

Lemma resolver_is_idempotent_on_identity_witness :
  exists d1 w1 d2 w2,
    Tag_findOneAndUpdate "Rust" fresh_world = (Ok d1, w1) /\
    Tag_findOneAndUpdate "rust" w1 = (Ok d2, w2) /\
    tag_id d2 = tag_id d1 /\
    tag_name d2 = tag_name d1 /\
    tag_questions d2 = (tag_questions d1 + 1)%Z /\
    List.length (tags (working w2)) = List.length (tags (working w1)).
Proof.
  apply (resolver_is_idempotent_on_identity "Rust" "rust" fresh_world);
    reflexivity.
Defined.

(** ** What a successful [createQuestion] commits *)

Lemma tag_id_kept (s s' : Store) (t : ObjectId) :
  extends (tag_names s) (tag_names s') ->
  (exists d, In d (tags s) /\ tag_id d = t) ->
  exists d, In d (tags s') /\ tag_id d = t.
Proof.
  intros [more Hmore] (d & Hd & Hid).
  assert (Hin : In (tag_id d, tag_name d) (tag_names s'))
    by (rewrite Hmore; apply in_app_iff; left;
        unfold tag_names; apply in_map_iff; eauto).
  unfold tag_names in Hin. apply in_map_iff in Hin.
  destruct Hin as (d' & Heq & Hd'). inversion Heq. exists d'. split; congruence.
Qed.

Section Creating.

Variables (c0 : Store) (q0 : QuestionDoc).

Lemma creating_step (ids : list ObjectId) (tqs : list TagQuestionDoc)
    (tag : string) :
  triple (creating c0 q0 ids tqs) (Tag_findOneAndUpdate tag)
    (fun d w' =>
       creating c0 q0 (ids ++ [tag_id d])
                (tqs ++ [mkTagQuestion (tag_id d) (q_id q0)]) w')
    (fun _ => True).
Proof.
  unfold Tag_findOneAndUpdate.
  destruct (Regex.new_RegExp _) as [r|]; [|apply triple_throw; auto].
  apply triple_store_call; [auto|].
  intros w (Hq & Hj & Htq & Hids).
  cbn [working log tick nextId now].
  pose proof (upsert_tag_effect r tag (nextId w) (now w) (working w)) as H.
  destruct (Collection.upsert_tag r tag (nextId w) (now w) (working w))
    as [[d s] inserted].
  destruct H as (Hnames & Hqs & Hjs & Hd).
  assert (Hgoal : creating c0 q0 (ids ++ [tag_id d])
                    (tqs ++ [mkTagQuestion (tag_id d) (q_id q0)])
                    (set_working s (log (StoreCall TagFindOneAndUpdate)
                                        (tick w)))).
  { unfold creating. cbn [working set_working].
    rewrite Hqs, Hjs, Htq, map_app.
    repeat split; auto.
    intros t Ht. apply in_app_iff in Ht. destruct Ht as [Ht|[<-|[]]].
    - apply (tag_id_kept (working w)); [|auto].
      rewrite Hnames. eexists. reflexivity.
    - eauto. }
  destruct inserted; exact Hgoal.
Qed.

Lemma creating_resolve_tags (names : list string) :
  forall (ids : list ObjectId) (tqs : list TagQuestionDoc),
  triple (creating c0 q0 ids tqs) (resolve_tags names (q_id q0) ids tqs)
    (fun r w' =>
       creating c0 q0 (fst r) (snd r) w' /\
       List.length (fst r) = List.length ids + List.length names)
    (fun _ => True).
Proof.
  induction names as [|a names IH]; intros ids tqs; cbn [resolve_tags].
  - apply triple_ret. intros w Hw. cbn. split; [exact Hw|lia].
  - eapply triple_bind; [apply creating_step|].
    intros d. eapply triple_weaken; [apply IH|auto| |auto].
    intros r w [Hw Hlen]. split; [exact Hw|].
    rewrite Hlen, length_app. cbn. lia.
Qed.

End Creating.

Lemma push_tags_new_question (qs : list QuestionDoc) (q0 : QuestionDoc)
    (ids : list ObjectId) (s : Store) :
  questions s = (qs ++ [q0])%list ->
  q_tags q0 = [] ->
  (forall q, In q qs -> q_id q <> q_id q0) ->
  questions (Collection.push_tags (q_id q0) ids s)
  = (qs ++ [mkQuestion (q_id q0) (q_title q0) (q_content q0) (q_author q0)
                       ids])%list.
Proof.
  intros Hqs Htags Hfresh. unfold Collection.push_tags. cbn.
  rewrite Hqs, map_app. cbn. rewrite Nat.eqb_refl, Htags. cbn. f_equal.
  rewrite <- (map_id qs) at 2. apply map_ext_in. intros q Hq.
  destruct (Nat.eqb_spec (q_id q) (q_id q0)) as [e|]; [|reflexivity].
  exfalso. exact (Hfresh q Hq e).
Qed.

Lemma createQuestion_body_created (c0 : Store) (n : ObjectId) (u : UserId)
    (params : CreateQuestionParams) :
  (forall q, In q (questions c0) -> q_id q <> n) ->
  triple (fun w => committed w = c0 /\ working w = c0 /\ nextId w = n)
    (createQuestion_body (cq_title params) (cq_content params)
                         (cq_tags params) (Some u))
    (fun r w =>
       r = Success (mkQuestion n (cq_title params) (cq_content params) u [])
       /\ created c0 n u params w)
    (fun _ => True).
Proof.
  intros Hfresh. unfold createQuestion_body.
  set (q0 := mkQuestion n (cq_title params) (cq_content params) u []).
  eapply triple_bind with
    (R := fun docs w => docs = [q0] /\ creating c0 q0 [] [] w).
  - unfold Question_create. apply triple_store_call; [auto|].
    intros w (Hc & Hw & Hn). cbn. rewrite Hn, Hw.
    split; [reflexivity|]. repeat split. intros t [].
  - intros docs w [-> Hw]. revert w Hw.
    change (triple (creating c0 q0 [] [])
              (resolved <- resolve_tags (cq_tags params) (q_id q0) [] [] ;;
               let '(tagIds, tagQuestionDocuments) := resolved in
               TagQuestion_insertMany tagQuestionDocuments ;;;
               Question_findByIdAndUpdate_push (q_id q0) tagIds ;;;
               commitTransaction ;;; ret (Success q0))
              (fun r w => r = Success q0 /\ created c0 n u params w)
              (fun _ => True)).
    eapply triple_bind; [apply creating_resolve_tags|].
    intros [tagIds tqs]. cbn [fst snd].
    eapply triple_bind with
      (R := fun _ w =>
              List.length tagIds = List.length (cq_tags params) /\
              questions (working w) = (questions c0 ++ [q0])%list /\
              tagQuestions (working w)
                = (tagQuestions c0
                   ++ map (fun t => mkTagQuestion t n) tagIds)%list /\
              (forall t, In t tagIds ->
                 exists d, In d (tags (working w)) /\ tag_id d = t)).
    + apply triple_in_session; [auto|].
      intros w [(Hq & Hj & -> & Hids) Hlen]. cbn.
      rewrite Hj. repeat split; auto.
    + intros ?.
      eapply triple_bind with
        (R := fun _ w =>
                List.length tagIds = List.length (cq_tags params) /\
                questions (working w)
                  = (questions c0
                     ++ [mkQuestion n (cq_title params) (cq_content params)
                                    u tagIds])%list /\
                tagQuestions (working w)
                  = (tagQuestions c0
                     ++ map (fun t => mkTagQuestion t n) tagIds)%list /\
                (forall t, In t tagIds ->
                   exists d, In d (tags (working w)) /\ tag_id d = t)).
      * apply triple_in_session; [auto|].
        intros w (Hlen & Hq & Hj & Hids). cbn [fst snd working set_working].
        split; [exact Hlen|]. split; [|split; assumption].
        apply (push_tags_new_question (questions c0) q0 tagIds (working w));
          auto.
      * intros ?.
        eapply triple_bind with
          (R := fun _ w => created c0 n u params w).
        -- apply triple_store_call; [auto|].
           intros w (Hlen & Hq & Hj & Hids). exists tagIds. cbn. auto.
        -- intros ?. apply triple_ret. auto.
Qed.

Lemma createQuestion_success_created
    (AskQuestionSchema : CreateQuestionParams -> bool)
    (caller : option UserId) (params : CreateQuestionParams) (w : World)
    (question : QuestionDoc) :
  fst (createQuestion AskQuestionSchema caller params w)
    = Ok (Success question) ->
  (forall q, In q (questions (committed w)) -> q_id q <> nextId w) ->
  exists u,
    caller = Some u /\
    question
      = mkQuestion (nextId w) (cq_title params) (cq_content params) u [] /\
    created (committed w) (nextId w) u params
      (snd (createQuestion AskQuestionSchema caller params w)).
Proof.
  intros Hrun Hfresh.
  destruct (createQuestion_success_validated _ _ _ _ _ Hrun)
    as (Hschema & u & ->).
  exists u. split; [reflexivity|].
  revert Hrun. rewrite (createQuestion_validated _ _ _ _ Hschema).
  unfold try_catch_finally.
  match goal with
  | |- context [createQuestion_body ?t ?c ?ts ?us ?w2] =>
      pose proof (createQuestion_body_created (committed w) (nextId w) u
                    params Hfresh w2
                    (conj eq_refl (conj eq_refl eq_refl))) as Hbody;
      destruct (createQuestion_body t c ts us w2) as [[r|err] w3]
  end.
  - cbn. destruct Hbody as [-> Hcreated]. intros H. inversion H; subst.
    split; [reflexivity|exact Hcreated].
  - cbn. discriminate.
Qed.

(** X17.  What a successful [createQuestion] commits, when the id supply
    is fresh for questions: exactly one question is added, with the
    supplied title and content and the caller as author; it refers to as
    many tag ids as names were supplied, each the id of a committed tag;
    and one join record per supplied name is added, each for the new
    question.  Nothing else is added to the questions or join records. *)
Theorem createQuestion_success_effect
    (AskQuestionSchema : CreateQuestionParams -> bool)
    (caller : option UserId) (params : CreateQuestionParams) (w : World)
    (question : QuestionDoc) :
  fst (createQuestion AskQuestionSchema caller params w)
    = Ok (Success question) ->
  (forall q, In q (questions (committed w)) -> q_id q <> nextId w) ->
  exists u tagIds,
    caller = Some u /\
    List.length tagIds = List.length (cq_tags params) /\
    questions
      (committed (snd (createQuestion AskQuestionSchema caller params w)))
      = (questions (committed w)
         ++ [mkQuestion (nextId w) (cq_title params) (cq_content params) u
                        tagIds])%list /\
    tagQuestions
      (committed (snd (createQuestion AskQuestionSchema caller params w)))
      = (tagQuestions (committed w)
         ++ map (fun t => mkTagQuestion t (nextId w)) tagIds)%list /\
    (forall t, In t tagIds ->
       exists d,
         In d (tags
                 (committed
                    (snd (createQuestion AskQuestionSchema caller params
                            w)))) /\
         tag_id d = t).
Proof.
  intros Hrun Hfresh.
  destruct (createQuestion_success_created _ _ _ _ _ Hrun Hfresh)
    as (u & Hcaller & _ & tagIds & Hlen & Hq & Hj & Hids).
  exists u, tagIds. auto.
Qed.

Lemma createQuestion_success_effect_witness :
  exists u tagIds,
    Some "u1" = Some u /\
    List.length tagIds = 2 /\
    questions
      (committed
         (snd (createQuestion accept_all (Some "u1")
                 (mkCreateQuestionParams "Calling Go"
                    "How do I call Go from Python?" ["PYTHON"; "go"])
                 python_world)))
      = (questions python_store
         ++ [mkQuestion 3 "Calling Go" "How do I call Go from Python?" u
                        tagIds])%list.
Proof.
  destruct (createQuestion_success_effect accept_all (Some "u1")
              (mkCreateQuestionParams "Calling Go"
                 "How do I call Go from Python?" ["PYTHON"; "go"])
              python_world
              (mkQuestion 3 "Calling Go" "How do I call Go from Python?"
                          "u1" []))
    as (u & tagIds & Hu & Hlen & Hq & _).
  - reflexivity.
  - intros q Hq. simpl in Hq. destruct Hq as [<-|[]]. simpl. discriminate.
  - exists u, tagIds. split; [exact Hu|]. split; [exact Hlen|exact Hq].
Defined.

Lemma find_question_new (qs : list QuestionDoc) (q : QuestionDoc)
    (s : Store) :
  questions s = (qs ++ [q])%list ->
  (forall x, In x qs -> q_id x <> q_id q) ->
  Collection.find_question (q_id q) s = Some q.
Proof.
  intros Hqs Hfresh. unfold Collection.find_question. rewrite Hqs.
  clear Hqs. induction qs as [|x qs IH]; cbn.
  - now rewrite Nat.eqb_refl.
  - destruct (Nat.eqb_spec (q_id x) (q_id q)) as [e|_].
    + exfalso. exact (Hfresh x (or_introl eq_refl) e).
    + apply IH. intros y Hy. apply Hfresh. now right.
Qed.

Lemma length_tags_of_load (q : QuestionDoc) (docs : list TagDoc) :
  List.length (lq_tags (load q docs)) = List.length docs.
Proof.
  rewrite <- (length_map entry_id), entry_ids_of_load. apply length_map.
Qed.

(** X18.  Create, then read: after a successful [createQuestion] (fresh
    id supply), [getQuestion] on the id of the returned question answers
    with the title and content supplied, the caller as author and as many
    tag entries as names were supplied, whoever asks. *)
Theorem createQuestion_then_getQuestion
    (AskQuestionSchema : CreateQuestionParams -> bool)
    (GetQuestionSchema : GetQuestionParams -> bool)
    (caller : option UserId) (reader : UserId)
    (params : CreateQuestionParams) (w : World) (question : QuestionDoc) :
  fst (createQuestion AskQuestionSchema caller params w)
    = Ok (Success question) ->
  (forall q, In q (questions (committed w)) -> q_id q <> nextId w) ->
  GetQuestionSchema (mkGetQuestionParams (q_id question)) = true ->
  faulty (snd (createQuestion AskQuestionSchema caller params w)) = false ->
  exists loaded,
    fst (getQuestion GetQuestionSchema (Some reader)
           (mkGetQuestionParams (q_id question))
           (snd (createQuestion AskQuestionSchema caller params w)))
      = Ok (Success loaded) /\
    lq_id loaded = q_id question /\
    lq_title loaded = cq_title params /\
    lq_content loaded = cq_content params /\
    Some (lq_author loaded) = caller /\
    List.length (lq_tags loaded) = List.length (cq_tags params).
Proof.
  intros Hrun Hfresh Hschema Hfault.
  destruct (createQuestion_success_created _ _ _ _ _ Hrun Hfresh)
    as (u & -> & -> & tagIds & Hlen & Hq & Hj & Hids).
  cbn [q_id] in *.
  set (w' := snd (createQuestion AskQuestionSchema (Some u) params w)) in *.
  set (q := mkQuestion (nextId w) (cq_title params) (cq_content params) u
                       tagIds) in *.
  assert (Hfind : Collection.find_question (nextId w) (committed w') = Some q).
  { apply (find_question_new (questions (committed w)) q (committed w'));
      assumption. }
  eexists. split.
  { rewrite (getQuestion_run _ _ _ _ Hschema Hfault).
    cbn [gq_questionId]. rewrite Hfind. reflexivity. }
  repeat split.
  rewrite length_tags_of_load, <- Hlen.
  rewrite <- (length_map tag_id). f_equal. now apply populate_ids.
Qed.

Lemma createQuestion_then_getQuestion_witness :
  exists loaded,
    fst (getQuestion accept_all (Some "u2") (mkGetQuestionParams 1)
           (snd (createQuestion accept_all (Some "u1") three_names
                   fresh_world)))
      = Ok (Success loaded) /\
    lq_title loaded = "Generators" /\
    Some (lq_author loaded) = Some "u1" /\
    List.length (lq_tags loaded) = 3.
Proof.
  destruct (createQuestion_then_getQuestion accept_all accept_all
              (Some "u1") "u2" three_names fresh_world
              (mkQuestion 1 "Generators" "What does yield do?" "u1" []))
    as (loaded & Hrun & _ & Htitle & _ & Hauthor & Hlen).
  - reflexivity.
  - intros q Hq. simpl in Hq. destruct Hq.
  - reflexivity.
  - reflexivity.
  - exists loaded. repeat split; assumption.
Defined.

(** ** What a successful [editQuestion] commits *)

Lemma find_question_save (qid id : ObjectId) (title content : string)
    (ids : Collection.TagsUpdate) (s : Store) (q0 : QuestionDoc) :
  Collection.find_question qid s = Some q0 ->
  exists q1,
    Collection.find_question qid
      (Collection.save_question id title content ids s) = Some q1 /\
    q_author q1 = q_author q0 /\
    (id = qid -> q_title q1 = title /\ q_content q1 = content).
Proof.
  unfold Collection.find_question, Collection.save_question. cbn.
  induction (questions s) as [|x qs IH]; cbn; [discriminate|].
  destruct (Nat.eqb_spec (q_id x) id) as [Hx|Hx]; cbn.
  - destruct (Nat.eqb_spec (q_id x) qid) as [Hq|Hq].
    + intros H. inversion H; subst. eexists. split; [reflexivity|].
      cbn. auto.
    + exact IH.
  - destruct (Nat.eqb_spec (q_id x) qid) as [Hq|Hq].
    + intros H. inversion H; subst. eexists. split; [reflexivity|].
      split; [reflexivity|]. intros ->. contradiction.
    + exact IH.
Qed.

Section Editing.

Variables (qid : ObjectId) (u : UserId) (title content : string).

Lemma editing_in_session {A} (c : Call) (f : Store -> A * Store)
    (question : LoadedQuestion) :
  (forall s, questions (snd (f s)) = questions s) ->
  triple (editing qid u title content question) (in_session c f)
    (fun _ => editing qid u title content question) (fun _ => True).
Proof.
  intros Hf. apply triple_in_session; [auto|].
  intros w (Hid & Ht & Hc & q0 & Hfind & Hau).
  repeat split; auto. exists q0. split; [|exact Hau].
  unfold Collection.find_question in *. cbn. now rewrite Hf.
Qed.

Lemma editing_Question_save (question saved : LoadedQuestion) :
  lq_id saved = qid ->
  triple (editing qid u title content question) (Question_save saved)
    (fun _ => editing qid u title content question) (fun _ => True).
Proof.
  intros Hsaved. apply triple_in_session; [auto|].
  intros w (Hid & Ht & Hc & q0 & Hfind & Hau).
  repeat split; auto. cbn [fst snd working set_working].
  destruct (find_question_save qid (lq_id saved) (lq_title saved)
              (lq_content saved)
              (tags_update saved)
              (working w) q0 Hfind) as (q1 & Hq1 & Hau1 & _).
  exists q1. split; [exact Hq1|congruence].
Qed.

Lemma editing_Tag_findOneAndUpdate (question : LoadedQuestion)
    (tag : string) :
  triple (editing qid u title content question) (Tag_findOneAndUpdate tag)
    (fun _ => editing qid u title content question) (fun _ => True).
Proof.
  unfold Tag_findOneAndUpdate.
  destruct (Regex.new_RegExp _) as [r|]; [|apply triple_throw; auto].
  apply triple_store_call; [auto|].
  intros w (Hid & Ht & Hc & q0 & Hfind & Hau).
  cbn [working log tick nextId now].
  pose proof (upsert_tag_effect r tag (nextId w) (now w) (working w)) as H.
  destruct (Collection.upsert_tag r tag (nextId w) (now w) (working w))
    as [[d s] inserted].
  destruct H as (_ & Hqs & _).
  assert (Hfind' : Collection.find_question qid s = Some q0)
    by (unfold Collection.find_question in *; now rewrite Hqs).
  destruct inserted; repeat split; eauto.
Qed.

Lemma editing_add_tags (toAdd : list string) :
  forall (docs : list TagQuestionDoc) (question : LoadedQuestion),
  triple (editing qid u title content question)
    (add_tags toAdd qid docs question)
    (fun r => editing qid u title content (snd r)) (fun _ => True).
Proof.
  induction toAdd as [|tag rest IH]; intros docs question; cbn [add_tags].
  - apply triple_ret. auto.
  - eapply triple_bind; [apply editing_Tag_findOneAndUpdate|].
    intros d. eapply triple_weaken; [apply IH| |auto|auto].
    intros w (Hid & Ht & Hc & Hq). repeat split; auto.
Qed.

Lemma editing_remove_tags (toRemove : list TagEntry)
    (question : LoadedQuestion) :
  triple (editing qid u title content question)
    (remove_tags toRemove qid question)
    (fun question' => editing qid u title content question')
    (fun _ => True).
Proof.
  unfold remove_tags. destruct (0 <? _)%nat; [|apply triple_ret; auto].
  eapply triple_bind; [apply editing_in_session; reflexivity|]. intros ?.
  eapply triple_bind; [apply editing_in_session; reflexivity|]. intros ?.
  apply triple_ret. intros w (Hid & Ht & Hc & Hq). repeat split; auto.
Qed.

Lemma editing_update_title_content (question : LoadedQuestion) :
  triple
    (fun w => lq_id question = qid /\
              exists q0, Collection.find_question qid (working w) = Some q0
                         /\ q_author q0 = u)
    (update_title_content title content question)
    (fun question' => editing qid u title content question')
    (fun _ => True).
Proof.
  unfold update_title_content.
  destruct (negb (lq_title question =? title)%string
            || negb (lq_content question =? content)%string) eqn:Hdiff.
  - intros w [Hid Hq].
    assert (Hpre : editing qid u title content
                     (mkLoaded (lq_id question) title content
                               (lq_author question) (lq_tags question)
                               (lq_tags_change question)) w)
      by (repeat split; auto).
    revert w Hpre Hq. intros w Hpre _. revert w Hpre.
    change (triple
              (editing qid u title content
                 (mkLoaded (lq_id question) title content
                           (lq_author question) (lq_tags question)
                           (lq_tags_change question)))
              (Question_save
                 (mkLoaded (lq_id question) title content
                           (lq_author question) (lq_tags question)
                           (lq_tags_change question)) ;;;
               ret (saved
                      (mkLoaded (lq_id question) title content
                                (lq_author question) (lq_tags question)
                                (lq_tags_change question))))
              (fun question' => editing qid u title content question')
              (fun _ => True)).
    eapply triple_bind; [apply editing_Question_save; exact Hid|].
    intros ?. apply triple_ret. intros w Hw. exact Hw.
  - apply orb_false_elim in Hdiff. destruct Hdiff as [Ht Hc].
    apply negb_false_iff, String.eqb_eq in Ht.
    apply negb_false_iff, String.eqb_eq in Hc.
    apply triple_ret. intros w [Hid Hq]. repeat split; auto.
Qed.

Lemma editing_final_save (question : LoadedQuestion) :
  triple (editing qid u title content question) (Question_save question)
    (fun _ w =>
       exists q, Collection.find_question qid (working w) = Some q /\
                 q_title q = title /\ q_content q = content /\
                 q_author q = u)
    (fun _ => True).
Proof.
  apply triple_in_session; [auto|].
  intros w (Hid & Ht & Hc & q0 & Hfind & Hau).
  cbn [fst snd working set_working].
  destruct (find_question_save qid (lq_id question) (lq_title question)
              (lq_content question)
              (tags_update question)
              (working w) q0 Hfind) as (q1 & Hq1 & Hau1 & Hfields).
  destruct (Hfields Hid) as [Ht1 Hc1].
  exists q1. repeat split; congruence.
Qed.

(** The [try] block of [editQuestion], run by the author. *)
Lemma editQuestion_body_edited (tags : list string) :
  triple (fun w => working w = committed w)
    (editQuestion_body title content tags qid (Some u))
    (fun _ w => edited qid u title content w)
    (fun _ => True).
Proof.
  unfold editQuestion_body.
  eapply triple_bind with
    (R := fun found w =>
            match found with
            | Some question =>
                lq_id question = qid /\
                exists q0,
                  Collection.find_question qid (working w) = Some q0 /\
                  lq_author question = q_author q0
            | None => True
            end).
  - apply triple_store_call; [auto|].
    intros w Hw. cbn [fst snd committed working log tick]. rewrite Hw.
    destruct (Collection.find_question qid (committed w)) as [q0|] eqn:Hfind;
      [|exact I].
    split; [|eauto].
    unfold Collection.find_question in Hfind. apply find_some in Hfind.
    destruct Hfind as [_ H]. now apply Nat.eqb_eq in H.
  - intros [question|]; [|apply triple_throw; auto].
    destruct (negb (is_author question (Some u))) eqn:Hauth;
      [apply triple_throw; auto|].
    apply negb_false_iff in Hauth. cbn in Hauth.
    apply String.eqb_eq in Hauth.
    eapply triple_bind with
      (R := fun question' => editing qid u title content question').
    { eapply triple_weaken;
        [apply (editing_update_title_content question)| |auto|auto].
      intros w (Hid & q0 & Hfind & Hau). split; [exact Hid|].
      exists q0. split; [exact Hfind|congruence]. }
    intros question1.
    eapply triple_bind with
      (R := fun r => editing qid u title content (snd r)).
    { destruct (0 <? _)%nat; [apply editing_add_tags|].
      apply triple_ret. auto. }
    intros [docs question2]. cbn [snd].
    eapply triple_bind; [apply editing_remove_tags|]. intros question3.
    eapply triple_bind with
      (R := fun _ => editing qid u title content question3).
    { destruct (0 <? _)%nat;
        [apply editing_in_session; reflexivity|apply triple_ret; auto]. }
    intros ?.
    eapply triple_bind; [apply editing_final_save|]. intros ?.
    eapply triple_bind with
      (R := fun _ w => edited qid u title content w).
    { apply triple_store_call; [auto|]. intros w Hw. exact Hw. }
    intros ?. apply triple_ret. auto.
Qed.

End Editing.

(** X19.  What a successful [editQuestion] commits: the committed
    question of the requested id carries the supplied title and content,
    and its author is the caller (the author it had). *)
Theorem editQuestion_success_effect
    (EditQuestionSchema : EditQuestionParams -> bool)
    (caller : option UserId) (params : EditQuestionParams) (w : World)
    (question : LoadedQuestion) :
  fst (editQuestion EditQuestionSchema caller params w)
    = Ok (Success question) ->
  exists u q,
    caller = Some u /\
    Collection.find_question (eq_questionId params)
      (committed (snd (editQuestion EditQuestionSchema caller params w)))
      = Some q /\
    q_title q = eq_title params /\
    q_content q = eq_content params /\
    q_author q = u.
Proof.
  intros Hrun.
  destruct (editQuestion_success_validated _ _ _ _ _ Hrun)
    as (Hschema & u & ->).
  exists u. revert Hrun. rewrite (editQuestion_validated _ _ _ _ Hschema).
  unfold try_catch_finally.
  match goal with
  | |- context [editQuestion_body ?t ?c ?ts ?q ?us ?w2] =>
      pose proof (editQuestion_body_edited q u t c ts w2 eq_refl) as Hbody;
      destruct (editQuestion_body t c ts q us w2) as [[r|err] w3]
  end.
  - cbn. intros _. destruct Hbody as (q & Hfind & Ht & Hc & Hau).
    exists q. auto.
  - cbn. discriminate.
Qed.

Lemma editQuestion_success_effect_witness :
  exists u q,
    Some "u1" = Some u /\
    Collection.find_question 2
      (committed
         (snd (editQuestion accept_all (Some "u1")
                 (mkEditQuestionParams "Sorting lists" "How do I sort?"
                                       ["python"; "go"] 2)
                 python_world)))
      = Some q /\
    q_title q = "Sorting lists" /\
    q_content q = "How do I sort?" /\
    q_author q = u.
Proof.
  eapply (editQuestion_success_effect accept_all (Some "u1")
            (mkEditQuestionParams "Sorting lists" "How do I sort?"
                                  ["python"; "go"] 2)
            python_world).
  vm_compute. reflexivity.
Defined.

(** ** Every supplied name ends up as a tag *)

Lemma inc_first_matches (r : Regex.RegExp) (ts : list TagDoc) (d' : TagDoc)
    (ts' : list TagDoc) :
  Collection.inc_first r ts = Some (d', ts') ->
  Regex.test r (tag_name d') = true.
Proof.
  revert d' ts'. induction ts as [|x ts IH]; intros d' ts'; cbn;
    [discriminate|].
  destruct (Regex.test r (tag_name x)) eqn:Hx.
  - intros H. inversion H; subst. exact Hx.
  - destruct (Collection.inc_first r ts) as [[d1 ts1]|]; [|discriminate].
    intros H. inversion H; subst. now apply (IH _ _ eq_refl).
Qed.

Lemma named_kept (names : list string) (s s' : Store) :
  extends (tag_names s) (tag_names s') -> named names s -> named names s'.
Proof.
  intros [more Hmore] Hnamed n Hn. destruct (Hnamed n Hn) as (d & Hd & Hci).
  assert (Hin : In (tag_id d, tag_name d) (tag_names s'))
    by (rewrite Hmore; apply in_app_iff; left;
        unfold tag_names; apply in_map_iff; eauto).
  unfold tag_names in Hin. apply in_map_iff in Hin.
  destruct Hin as (d' & Heq & Hd'). inversion Heq as [[Hid Hname]].
  exists d'. split; [exact Hd'|]. now rewrite Hname.
Qed.

Lemma named_app (names more : list string) (s : Store) :
  named names s -> named more s -> named (names ++ more) s.
Proof.
  intros H1 H2 n Hn. apply in_app_iff in Hn. destruct Hn; auto.
Qed.

Lemma named_in_session {A} (names : list string) (c : Call)
    (f : Store -> A * Store) :
  (forall s, tag_names (snd (f s)) = tag_names s) ->
  triple (fun w => named names (working w)) (in_session c f)
    (fun _ w => named names (working w)) (fun _ => True).
Proof.
  intros Hf. apply triple_in_session; [auto|].
  intros w Hw. cbn [working set_working].
  apply (named_kept names (working w)); [|exact Hw].
  rewrite Hf. apply extends_refl.
Qed.

Lemma named_step (done : list string) (a : string) :
  Regex.plain a = true ->
  triple (fun w => named done (working w)) (Tag_findOneAndUpdate a)
    (fun _ w => named (done ++ [a]) (working w)) (fun _ => True).
Proof.
  intros Hplain. unfold Tag_findOneAndUpdate.
  rewrite (RegexFacts.new_RegExp_plain _ Hplain).
  apply triple_store_call; [auto|].
  intros w Hw. cbn [working log tick nextId now].
  pose proof (upsert_tag_effect (Regex.mkRegExp true true (literal a)) a
                (nextId w) (now w) (working w)) as H.
  assert (Hname :
    Text.ci_eq a
      (tag_name
         (fst (fst (Collection.upsert_tag
                      (Regex.mkRegExp true true (literal a)) a (nextId w)
                      (now w) (working w))))) = true).
  { unfold Collection.upsert_tag.
    destruct (Collection.inc_first _ (tags (working w))) as [[d ts]|]
      eqn:Hfirst; cbn.
    - apply inc_first_matches in Hfirst.
      now rewrite RegexFacts.test_literal in Hfirst.
    - apply TextFacts.ci_eq_refl. }
  destruct (Collection.upsert_tag _ a (nextId w) (now w) (working w))
    as [[d s] inserted].
  destruct H as (Hnames & _ & _ & Hd). cbn [fst] in Hname.
  assert (Hgoal : named (done ++ [a]) s).
  { apply named_app.
    - apply (named_kept done (working w)); [|exact Hw].
      rewrite Hnames. eexists. reflexivity.
    - intros n [<-|[]]. eauto. }
  destruct inserted; exact Hgoal.
Qed.

Lemma named_resolve_tags (names : list string) :
  forall (done : list string) (qid : ObjectId) (ids : list ObjectId)
         (tqs : list TagQuestionDoc),
  plain_names names = true ->
  triple (fun w => named done (working w)) (resolve_tags names qid ids tqs)
    (fun _ w => named (done ++ names) (working w)) (fun _ => True).
Proof.
  induction names as [|a names IH]; intros done qid ids tqs Hplain;
    cbn [resolve_tags].
  - apply triple_ret. intros w Hw. now rewrite app_nil_r.
  - cbn in Hplain. apply andb_true_iff in Hplain.
    destruct Hplain as [Ha Hplain].
    eapply triple_bind; [apply named_step; exact Ha|].
    intros d.
    eapply triple_weaken;
      [apply (IH (done ++ [a])%list); exact Hplain|auto| |auto].
    intros r w Hw. cbn beta in Hw. now rewrite <- app_assoc in Hw.
Qed.

Lemma named_add_tags (names : list string) :
  forall (done : list string) (qid : ObjectId) (docs : list TagQuestionDoc)
         (question : LoadedQuestion),
  plain_names names = true ->
  triple (fun w => named done (working w))
    (add_tags names qid docs question)
    (fun _ w => named (done ++ names) (working w)) (fun _ => True).
Proof.
  induction names as [|a names IH]; intros done qid docs question Hplain;
    cbn [add_tags].
  - apply triple_ret. intros w Hw. now rewrite app_nil_r.
  - cbn in Hplain. apply andb_true_iff in Hplain.
    destruct Hplain as [Ha Hplain].
    eapply triple_bind; [apply named_step; exact Ha|].
    intros d.
    eapply triple_weaken;
      [apply (IH (done ++ [a])%list); exact Hplain|auto| |auto].
    intros r w Hw. cbn beta in Hw. now rewrite <- app_assoc in Hw.
Qed.

Lemma named_commit (names : list string) :
  triple (fun w => named names (working w)) commitTransaction
    (fun _ w => named names (committed w)) (fun _ => True).
Proof.
  apply triple_store_call; [auto|]. intros w Hw. exact Hw.
Qed.

Lemma createQuestion_body_named (title content : string)
    (tags : list string) (userId : option UserId) :
  plain_names tags = true ->
  triple (fun _ => True) (createQuestion_body title content tags userId)
    (fun _ w => named tags (committed w)) (fun _ => True).
Proof.
  intros Hplain. unfold createQuestion_body.
  eapply triple_bind with (R := fun _ w => named [] (working w)).
  { unfold Question_create. destruct userId; [|apply triple_throw; auto].
    apply triple_store_call; [auto|]. intros w _ n []. }
  intros [|question rest]; [apply triple_throw; auto|].
  eapply triple_bind; [apply named_resolve_tags; exact Hplain|].
  intros [tagIds tqs]. cbn [app].
  eapply triple_bind; [apply named_in_session; reflexivity|]. intros ?.
  eapply triple_bind; [apply named_in_session; reflexivity|]. intros ?.
  eapply triple_bind; [apply named_commit|]. intros ?.
  apply triple_ret. auto.
Qed.

Lemma editQuestion_body_named (title content : string) (tags : list string)
    (questionId : ObjectId) (userId : option UserId) :
  plain_names tags = true ->
  triple (fun _ => True)
    (editQuestion_body title content tags questionId userId)
    (fun _ w => named tags (committed w)) (fun _ => True).
Proof.
  intros Hplain. unfold editQuestion_body.
  eapply triple_bind with (R := fun _ w => named [] (working w)).
  { apply triple_store_call; [auto|]. intros w _ n []. }
  intros [question|]; [|apply triple_throw; auto].
  destruct (negb (is_author question userId)); [apply triple_throw; auto|].
  eapply triple_bind with (R := fun _ w => named [] (working w)).
  { unfold update_title_content. destruct (_ || _).
    - eapply triple_bind; [apply named_in_session; reflexivity|].
      intros ?. apply triple_ret. auto.
    - apply triple_ret. auto. }
  intros question1. rewrite !tagsToAdd_everything.
  eapply triple_bind with (R := fun _ w => named tags (working w)).
  { destruct tags as [|t ts] eqn:Htags.
    - apply triple_ret. auto.
    - cbn [List.length Nat.ltb Nat.leb]. rewrite <- Htags in *.
      eapply triple_weaken;
        [apply (named_add_tags tags []); exact Hplain|auto| |auto].
      auto. }
  intros [docs question2].
  eapply triple_bind with (R := fun _ w => named tags (working w)).
  { unfold remove_tags. destruct (0 <? _)%nat; [|apply triple_ret; auto].
    eapply triple_bind.
    - apply named_in_session. intros s. apply tag_names_dec_tags.
    - intros ?. eapply triple_bind; [apply named_in_session; reflexivity|].
      intros ?. apply triple_ret. auto. }
  intros question3.
  eapply triple_bind with (R := fun _ w => named tags (working w)).
  { destruct (0 <? _)%nat;
      [apply named_in_session; reflexivity|apply triple_ret; auto]. }
  intros ?.
  eapply triple_bind; [apply named_in_session; reflexivity|]. intros ?.
  eapply triple_bind; [apply named_commit|]. intros ?.
  apply triple_ret. auto.
Qed.

(** X20.  Every supplied name ends up as a tag: after a successful
    [createQuestion] or [editQuestion] whose tag names are free of
    pattern syntax, each supplied name is carried, in some casing, by a
    committed tag. *)
Theorem success_leaves_every_name_tagged
    (AskQuestionSchema : CreateQuestionParams -> bool)
    (EditQuestionSchema : EditQuestionParams -> bool)
    (caller : option UserId) (w : World) :
  (forall params question,
     plain_names (cq_tags params) = true ->
     fst (createQuestion AskQuestionSchema caller params w)
       = Ok (Success question) ->
     named (cq_tags params)
       (committed (snd (createQuestion AskQuestionSchema caller params w))))
  /\
  (forall params question,
     plain_names (eq_tags params) = true ->
     fst (editQuestion EditQuestionSchema caller params w)
       = Ok (Success question) ->
     named (eq_tags params)
       (committed (snd (editQuestion EditQuestionSchema caller params w)))).
Proof.
  split; intros params question Hplain Hrun.
  - destruct (createQuestion_success_validated _ _ _ _ _ Hrun)
      as (Hschema & u & ->).
    revert Hrun. rewrite (createQuestion_validated _ _ _ _ Hschema).
    unfold try_catch_finally.
    match goal with
    | |- context [createQuestion_body ?t ?c ?ts ?us ?w2] =>
        pose proof (createQuestion_body_named t c ts us Hplain w2 I)
          as Hbody;
        destruct (createQuestion_body t c ts us w2) as [[r|err] w3]
    end.
    + cbn. intros _. exact Hbody.
    + cbn. discriminate.
  - destruct (editQuestion_success_validated _ _ _ _ _ Hrun)
      as (Hschema & u & ->).
    revert Hrun. rewrite (editQuestion_validated _ _ _ _ Hschema).
    unfold try_catch_finally.
    match goal with
    | |- context [editQuestion_body ?t ?c ?ts ?q ?us ?w2] =>
        pose proof (editQuestion_body_named t c ts q us Hplain w2 I)
          as Hbody;
        destruct (editQuestion_body t c ts q us w2) as [[r|err] w3]
    end.
    + cbn. intros _. exact Hbody.
    + cbn. discriminate.
Qed.

Lemma success_leaves_every_name_tagged_witness :
  named ["Python"; "python"; "AI"]
    (committed
       (snd (createQuestion accept_all (Some "u1") three_names fresh_world)))
  /\
  named ["PYTHON"; "go"]
    (committed
       (snd (editQuestion accept_all (Some "u1")
               (mkEditQuestionParams "Sorting lists" "How do I sort?"
                                     ["PYTHON"; "go"] 2)
               python_world))).
Proof.
  destruct (success_leaves_every_name_tagged accept_all accept_all
              (Some "u1") fresh_world) as [Hcreate _].
  destruct (success_leaves_every_name_tagged accept_all accept_all
              (Some "u1") python_world) as [_ Hedit].
  split.
  - eapply (Hcreate three_names); vm_compute; reflexivity.
  - eapply (Hedit (mkEditQuestionParams "Sorting lists" "How do I sort?"
                                        ["PYTHON"; "go"] 2));
      vm_compute; reflexivity.
Defined.

(** ** The query of [getTags] is a substring filter *)

Lemma parse_body_plain_open (q : string) :
  Regex.plain q = true ->
  Regex.parse_body q = Some (literal q, false).
Proof.
  unfold Regex.plain, literal.
  induction q as [|c q IH]; simpl; [reflexivity|].
  rewrite andb_true_iff, negb_true_iff. intros [Hc Hrest].
  rewrite (RegexFacts.not_meta_not_dollar _ Hc),
    (RegexFacts.not_meta_not_dot _ Hc), Hc.
  now rewrite (IH Hrest).
Qed.

Lemma new_RegExp_cases (c : ascii) (rest : string) :
  Regex.new_RegExp (String c rest)
  = if Ascii.eqb c "^"%char
    then match Regex.parse_body rest with
         | Some (atoms, e) => Some (Regex.mkRegExp true e atoms)
         | None => None
         end
    else match Regex.parse_body (String c rest) with
         | Some (atoms, e) => Some (Regex.mkRegExp false e atoms)
         | None => None
         end.
Proof.
  destruct c as [[] [] [] [] [] [] [] []]; reflexivity.
Qed.

(** The pattern a plain query stands for: its letters, found anywhere. *)
Lemma new_RegExp_plain_query (q : string) :
  Regex.plain q = true ->
  Regex.new_RegExp q = Some (Regex.mkRegExp false false (literal q)).
Proof.
  intros Hplain. destruct q as [|c rest]; [reflexivity|].
  rewrite new_RegExp_cases.
  assert (Hc : Regex.is_meta c = false).
  { unfold Regex.plain in Hplain. cbn in Hplain.
    apply andb_true_iff in Hplain. now apply negb_true_iff, Hplain. }
  rewrite (RegexFacts.not_meta_not_caret _ Hc).
  now rewrite (parse_body_plain_open _ Hplain).
Qed.

Lemma match_prefix_literal (q s rest : string) :
  Regex.match_prefix (literal q) s = Some rest <->
  exists mid, s = (mid ++ rest)%string /\ Text.ci_eq q mid = true.
Proof.
  unfold literal. revert s. induction q as [|c q IH]; intros s; cbn.
  - split.
    + intros H. inversion H; subst. exists ""%string. auto.
    + intros (mid & -> & Hmid). destruct mid; [reflexivity|discriminate].
  - destruct s as [|d s].
    + split; [discriminate|].
      intros (mid & Hs & Hmid). destruct mid; discriminate.
    + destruct (Text.same_letter c d) eqn:Hcd.
      * rewrite IH. split.
        -- intros (mid & -> & Hmid). exists (String d mid). cbn.
           now rewrite Hcd.
        -- intros (mid & Hs & Hmid). destruct mid as [|e mid];
             [discriminate|].
           cbn in Hs. inversion Hs; subst.
           apply andb_true_iff in Hmid. exists mid. split; tauto.
      * split; [discriminate|].
        intros (mid & Hs & Hmid). destruct mid as [|e mid];
          [discriminate|].
        cbn in Hs. inversion Hs; subst. cbn in Hmid.
        rewrite Hcd in Hmid. discriminate.
Qed.

Lemma match_at_literal (q s : string) :
  Regex.match_at (Regex.mkRegExp false false (literal q)) s = true <->
  exists mid post, s = (mid ++ post)%string /\ Text.ci_eq q mid = true.
Proof.
  unfold Regex.match_at. cbn [Regex.body Regex.anchored_end].
  destruct (Regex.match_prefix (literal q) s) as [rest|] eqn:Hm.
  - apply match_prefix_literal in Hm. destruct Hm as (mid & -> & Hmid).
    split; [eauto|reflexivity].
  - split; [discriminate|].
    intros (mid & post & Hs & Hmid).
    assert (H : Regex.match_prefix (literal q) s = Some post)
      by (apply match_prefix_literal; eauto).
    congruence.
Qed.

(** The test of a plain query is containment ignoring case. *)
Lemma test_plain_query (q s : string) :
  Regex.test (Regex.mkRegExp false false (literal q)) s = true <->
  contains_ci q s.
Proof.
  unfold Regex.test, contains_ci. cbn [Regex.anchored_start].
  induction s as [|c s IH]; cbn [Regex.search].
  - rewrite orb_false_r, match_at_literal. split.
    + intros (mid & post & Hs & Hmid). exists ""%string, mid, post. auto.
    + intros (pre & mid & post & Hs & Hmid).
      destruct pre; [|discriminate]. cbn in Hs. eauto.
  - rewrite orb_true_iff, match_at_literal, IH. split.
    + intros [(mid & post & Hs & Hmid)|(pre & mid & post & Hs & Hmid)].
      * exists ""%string, mid, post. auto.
      * exists (String c pre), mid, post. cbn. now rewrite Hs.
    + intros (pre & mid & post & Hs & Hmid). destruct pre as [|e pre].
      * left. cbn in Hs. eauto.
      * right. cbn in Hs. inversion Hs; subst. eauto 6.
Qed.

(** X21.  A query without pattern syntax is a case-insensitive substring
    filter on the tag name: every tag of the page is a committed tag
    whose name contains the query ignoring case, and on page 1 the page is
    not empty as soon as some committed tag's name does. *)
Theorem getTags_query_is_substring_filter
    (PaginatedSearchParamsSchema : PaginatedSearchParams -> bool)
    (caller : option UserId) (params : PaginatedSearchParams) (w : World)
    (q : string) :
  PaginatedSearchParamsSchema params = true ->
  fault_at w = None ->
  (1 <= page_of params)%Z ->
  (1 <= pageSize_of params)%Z ->
  query params = Some q ->
  q <> ""%string ->
  Regex.plain q = true ->
  exists found,
    fst (getTags PaginatedSearchParamsSchema caller params w)
      = Ok (Success found) /\
    (forall d, In d (page_tags found) ->
       In d (tags (committed w)) /\ contains_ci q (tag_name d)) /\
    (page_of params = 1%Z ->
     (exists d, In d (tags (committed w)) /\ contains_ci q (tag_name d)) ->
     page_tags found <> []).
Proof.
  intros Hschema Hfault Hp Hs Hquery Hq Hplain.
  assert (Hf : filter_predicate (filterQuery_of params)
               = Some (fun d =>
                         Regex.test
                           (Regex.mkRegExp false false (literal q))
                           (tag_name d))).
  { unfold filterQuery_of. rewrite Hquery.
    apply String.eqb_neq in Hq. rewrite Hq. cbn.
    now rewrite (new_RegExp_plain_query _ Hplain). }
  eexists. split; [apply (getTags_run _ _ _ _ _ Hschema Hfault Hp Hs Hf)|].
  cbn [page_tags]. split.
  - intros d Hd. apply In_apply_limit, In_skipn, In_sort_by in Hd.
    apply filter_In in Hd. destruct Hd as [Hin Htest].
    split; [exact Hin|]. now apply test_plain_query.
  - intros Hp1 (d & Hin & Hcontains) Hempty.
    assert (Hd : In d (List.filter
                         (fun d => Regex.test
                                     (Regex.mkRegExp false false (literal q))
                                     (tag_name d))
                         (tags (committed w)))).
    { apply filter_In. split; [exact Hin|]. now apply test_plain_query. }
    assert (Hskip : (0 <= (page_of params - 1) * pageSize_of params)%Z)
      by nia.
    pose proof (length_page _ _
                  (sort_by (sortCriteria (filter_key params))
                     (List.filter
                        (fun d => Regex.test
                                    (Regex.mkRegExp false false (literal q))
                                    (tag_name d))
                        (tags (committed w))))
                  Hskip Hs) as Hlen.
    rewrite Hempty, length_sort_by in Hlen. cbn [List.length] in Hlen.
    destruct (List.filter _ (tags (committed w))) as [|x l];
      [destruct Hd|].
    cbn [List.length] in Hlen. rewrite Hp1 in Hlen. lia.
Qed.

Lemma getTags_query_is_substring_filter_witness :
  exists found,
    fst (getTags accept_all None
           (mkPaginatedSearchParams (Some 1%Z) (Some 10%Z) (Some "YTH") None)
           python_world)
      = Ok (Success found) /\
    (forall d, In d (page_tags found) ->
       In d (tags (committed python_world)) /\
       contains_ci "YTH" (tag_name d)) /\
    page_tags found <> [].
Proof.
  destruct (getTags_query_is_substring_filter accept_all None
              (mkPaginatedSearchParams (Some 1%Z) (Some 10%Z) (Some "YTH")
                                       None)
              python_world "YTH")
    as (found & Hrun & Hsound & Hcomplete).
  - reflexivity.
  - reflexivity.
  - vm_compute. discriminate.
  - vm_compute. discriminate.
  - reflexivity.
  - discriminate.
  - reflexivity.
  - exists found. split; [exact Hrun|]. split; [exact Hsound|].
    apply Hcomplete; [reflexivity|].
    exists (mkTag 1 "python" 1 0). split; [left; reflexivity|].
    exists "p"%string, "yth"%string, "on"%string. split; reflexivity.
Defined.

(** Likewise for the query of [getTags]: the query made of code unit 233
    (e acute) finds the tag named by code unit 201 (E acute). *)
Example getTags_query_folds_accented_letters :
  let stored := String (ascii_of_nat 201) EmptyString in
  let q := String (ascii_of_nat 233) EmptyString in
  fst (getTags accept_all None
         (mkPaginatedSearchParams None None (Some q) None)
         (initial_world
            (mkStore [mkTag 1 stored 1 0; mkTag 2 "e" 1 0] [] []) 3))
  = Ok (Success (mkTagsPage [mkTag 1 stored 1 0] false)).
Proof. vm_compute. reflexivity. Qed.

(** ** The invariant of the tag engine under [createQuestion] *)

(** X22.  A call of [createQuestion] whose tag names are free of pattern
    syntax and pairwise different ignoring case keeps the invariant of
    the tag engine.  If, before the call, the committed store has at most
    one join record per (tag, question) pair, every tag's counter is
    non-negative and counts the join records of the tag, tags have ids of
    their own and all ids are below the id supply, then the same holds
    after the call, committed or failed. *)
Theorem createQuestion_keeps_invariant
    (AskQuestionSchema : CreateQuestionParams -> bool)
    (caller : option UserId) (params : CreateQuestionParams) (w : World) :
  sound w ->
  plain_names (cq_tags params) = true ->
  distinct_names (cq_tags params) = true ->
  sound (snd (createQuestion AskQuestionSchema caller params w)).
Proof. apply createQuestion_sound. Qed.

Lemma createQuestion_keeps_invariant_witness :
  sound (snd (createQuestion accept_all (Some "u1")
                (mkCreateQuestionParams "Generators" "What does yield do?"
                                        ["Python"; "AI"])
                fresh_world)).
Proof.
  apply (createQuestion_keeps_invariant accept_all (Some "u1")
           (mkCreateQuestionParams "Generators" "What does yield do?"
                                   ["Python"; "AI"])
           fresh_world).
  - unfold sound, consistent, one_join_per_pair, counters_agree,
      unique_tag_ids, ids_below. simpl.
    split; [split; [constructor | intros d Hd; destruct Hd]|].
    split; [constructor|].
    split; intros x Hx; destruct Hx.
  - reflexivity.
  - reflexivity.
Defined.
